(** * Cloud Armor rules: the evaluation surface of [pkg/cloudarmor]

    A shallow embedding of the Go package [cloudarmor]: the attribute
    container and its normalisation ([variables.go]), the test-suite loader
    ([testsuite.go]) and the rule environment with its custom functions,
    presence macro and verdict loop ([cloudarmor.go]); and of the command
    line that drives them ([cmd/rulescli.go]).

    Go values are embedded as follows.
    - A Go [string] is a sequence of bytes: Rocq's [string] (a list of 8-bit
      [ascii]).  A [rune] (int32) and an [int] are [Z].
    - A [map[string]string] is stdpp's [gmap string string]; a nil map or a
      nil pointer is [None].
    - A function that may panic returns [Go A]: [Return a] or [Panic].
    - A part of the command line that writes, and may end the process,
      returns [Run A]: what it wrote, with its result or the exit status.
    - The packages the code calls but does not define (unicode/utf8, net/url,
      strconv, strings, encoding/base64, the CEL engine) are either
      transcribed from their Go sources, next to the call site that needs
      them, or taken as section variables. *)

From Stdlib Require Import ZArith List String Ascii Bool Lia DecimalString.
From stdpp Require Import base option list gmap strings.

Open Scope string_scope.
Open Scope Z_scope.

(** ** Go base types *)

Definition rune := Z.

(** The numeric value of a byte of a string, [s[i]] read as an integer. *)
Definition byte_val (c : ascii) : Z := Z.of_N (N_of_ascii c).

(** The conversion [byte(x)]: the low eight bits. *)
Definition byte_chr (x : Z) : ascii := ascii_of_N (Z.to_N (x mod 256)).

(** A string given by its byte values. *)
Definition of_bytes (bs : list Z) : string :=
  string_of_list_ascii (map byte_chr bs).

(** The byte values of a string. *)
Definition to_bytes (s : string) : list Z :=
  map byte_val (list_ascii_of_string s).

(** [s[i:]] for [i <= len(s)]. *)
Fixpoint str_drop (n : nat) (s : string) : string :=
  match n, s with
  | O, _ => s
  | S n', String _ s' => str_drop n' s'
  | S _, EmptyString => EmptyString
  end.

(** [s[:n]] for [n <= len(s)]. *)
Fixpoint str_take (n : nat) (s : string) : string :=
  match n, s with
  | O, _ => EmptyString
  | S n', String c s' => String c (str_take n' s')
  | S _, EmptyString => EmptyString
  end.

(** [s[i:j]] for [i <= j <= len(s)]. *)
Definition str_slice (i j : nat) (s : string) : string :=
  str_take (j - i) (str_drop i s).

(** The built-in [append(s, x)]. *)
Definition append {A : Type} (s : list A) (x : A) : list A := (s ++ [x])%list.

(** The outcome of a Go call that may panic. *)
Inductive Go (A : Type) : Type :=
| Return (a : A)
| Panic.
Arguments Return {A} a.
Arguments Panic {A}.

(** The CEL runtime values ([ref.Val]) this package produces or inspects:
    [types.Bool], [types.String], an error value ([types.Err]) carrying its
    message, and any other value, kept by its [%v] rendering. *)
Inductive Val : Type :=
| types_Bool (b : bool)
| types_String (s : string)
| types_Err (msg : string)
| types_Other (rendering : string).

(** ** unicode/utf8 *)

Module utf8.

Definition RuneError : rune := 0xFFFD.
Definition RuneSelf : Z := 0x80.
Definition MaxRune : rune := 0x10FFFF.
Definition surrogateMin : rune := 0xD800.
Definition surrogateMax : rune := 0xDFFF.

(** The table [first]: for a leading byte, [None] when it cannot start a
    multi-byte sequence (the entries [xx]), otherwise the size of the
    sequence and the accepted range of the second byte ([acceptRanges]).
    ASCII bytes (the entries [as]) are handled before the table is read. *)
Definition first (s0 : Z) : option (nat * Z * Z) :=
  if s0 <? 0xC2 then None
  else if s0 <=? 0xDF then Some (2%nat, 0x80, 0xBF)
  else if s0 =? 0xE0 then Some (3%nat, 0xA0, 0xBF)
  else if s0 <=? 0xEC then Some (3%nat, 0x80, 0xBF)
  else if s0 =? 0xED then Some (3%nat, 0x80, 0x9F)
  else if s0 <=? 0xEF then Some (3%nat, 0x80, 0xBF)
  else if s0 =? 0xF0 then Some (4%nat, 0x90, 0xBF)
  else if s0 <=? 0xF3 then Some (4%nat, 0x80, 0xBF)
  else if s0 =? 0xF4 then Some (4%nat, 0x80, 0x8F)
  else None.

Definition continuation (b : Z) : bool := (0x80 <=? b) && (b <=? 0xBF).

(** [utf8.DecodeRuneInString]: the first rune of [s] and its width in
    bytes; [(RuneError, 0)] on the empty string and [(RuneError, 1)] on an
    invalid or short encoding. *)
Definition DecodeRuneInString (s : string) : rune * nat :=
  match to_bytes s with
  | [] => (RuneError, 0%nat)
  | s0 :: tl =>
      if s0 <? RuneSelf then (s0, 1%nat)
      else
        match first s0 with
        | None => (RuneError, 1%nat)
        | Some (sz, lo, hi) =>
            if (length (s0 :: tl) <? sz)%nat then (RuneError, 1%nat)
            else
              match tl with
              | [] => (RuneError, 1%nat)
              | s1 :: tl1 =>
                  if (s1 <? lo) || (hi <? s1) then (RuneError, 1%nat)
                  else if (sz <=? 2)%nat then
                    (Z.lor (Z.shiftl (Z.land s0 0x1F) 6) (Z.land s1 0x3F),
                     2%nat)
                  else
                    match tl1 with
                    | [] => (RuneError, 1%nat)
                    | s2 :: tl2 =>
                        if negb (continuation s2) then (RuneError, 1%nat)
                        else if (sz <=? 3)%nat then
                          (Z.lor (Z.lor (Z.shiftl (Z.land s0 0x0F) 12)
                                         (Z.shiftl (Z.land s1 0x3F) 6))
                                 (Z.land s2 0x3F), 3%nat)
                        else
                          match tl2 with
                          | [] => (RuneError, 1%nat)
                          | s3 :: _ =>
                              if negb (continuation s3)
                              then (RuneError, 1%nat)
                              else
                                (Z.lor (Z.lor (Z.lor
                                   (Z.shiftl (Z.land s0 0x07) 18)
                                   (Z.shiftl (Z.land s1 0x3F) 12))
                                   (Z.shiftl (Z.land s2 0x3F) 6))
                                   (Z.land s3 0x3F), 4%nat)
                          end
                    end
              end
        end
  end.

(** [utf8.AppendRune] on an empty buffer: the UTF-8 encoding of [r];
    surrogates and values outside [0, MaxRune] encode as [RuneError]. *)
Definition EncodeRune (r : rune) : list Z :=
  if (0 <=? r) && (r <=? 0x7F) then [r]
  else if (0 <=? r) && (r <=? 0x7FF) then
    [Z.lor 0xC0 (Z.shiftr r 6); Z.lor 0x80 (Z.land r 0x3F)]
  else
    let three (v : rune) :=
      [Z.lor 0xE0 (Z.shiftr v 12);
       Z.lor 0x80 (Z.land (Z.shiftr v 6) 0x3F);
       Z.lor 0x80 (Z.land v 0x3F)] in
    if (r <? 0) || (MaxRune <? r)
       || ((surrogateMin <=? r) && (r <=? surrogateMax))
    then three RuneError
    else if r <=? 0xFFFF then three r
    else
      [Z.lor 0xF0 (Z.shiftr r 18);
       Z.lor 0x80 (Z.land (Z.shiftr r 12) 0x3F);
       Z.lor 0x80 (Z.land (Z.shiftr r 6) 0x3F);
       Z.lor 0x80 (Z.land r 0x3F)].

End utf8.

(** [for i, r := range s] over a string: the byte offset and the rune of
    every decoding step, in order.  [fuel] bounds the number of steps; every
    step consumes at least one byte, so [length s] steps always suffice. *)
Fixpoint range_string_from (fuel : nat) (i : nat) (s : string)
  : list (nat * rune) :=
  match fuel with
  | O => []
  | S fuel' =>
      match s with
      | EmptyString => []
      | _ =>
          let '(r, w) := utf8.DecodeRuneInString s in
          (i, r) :: range_string_from fuel' (i + w) (str_drop w s)
      end
  end.

Definition range_string (s : string) : list (nat * rune) :=
  range_string_from (String.length s) 0 s.

(** The conversion [[]rune(s)]. *)
Definition runes_of_string (s : string) : list rune :=
  map snd (range_string s).

(** The conversion [string(runes)] of a rune slice, also what
    [types.String(runes)] and repeated [WriteRune] produce. *)
Definition string_of_runes (rs : list rune) : string :=
  of_bytes (concat (map utf8.EncodeRune rs)).

(** ** unicode: the ASCII paths of [ToLower] and [ToUpper] *)

Module unicode.

Definition MaxASCII : rune := 0x7F.

(** [unicode.ToLower] on a rune not above [MaxASCII]. *)
Definition ToLower_ascii (r : rune) : rune :=
  if (0x41 <=? r) && (r <=? 0x5A) then r + (0x61 - 0x41) else r.

(** [unicode.ToUpper] on a rune not above [MaxASCII]. *)
Definition ToUpper_ascii (r : rune) : rune :=
  if (0x61 <=? r) && (r <=? 0x7A) then r - (0x61 - 0x41) else r.

End unicode.

(** ** [lower] and [upper] *)

(** [lowerASCII]: the slice [runes] is indexed by [i], which the loop takes
    from [range str], the byte offset of the rune in the string. *)
Definition lowerASCII (str : string) : Go Val :=
  let runes := runes_of_string str in
  let body (st : Go (list rune)) (ir : nat * rune) : Go (list rune) :=
    match st with
    | Panic => Panic
    | Return runes =>
        let '(i, r) := ir in
        if r <=? unicode.MaxASCII then
          if (i <? length runes)%nat
          then Return (<[i := unicode.ToLower_ascii r]> runes)
          else Panic
        else Return runes
    end in
  match fold_left body (range_string str) (Return runes) with
  | Panic => Panic
  | Return runes => Return (types_String (string_of_runes runes))
  end.

(** [upperASCII]: the loop ranges over the slice [runes] itself, so [i] is
    an index of the slice and [r] the element read at that index. *)
Definition upperASCII (str : string) : Go Val :=
  let runes := runes_of_string str in
  let body (st : Go (list rune)) (i : nat) : Go (list rune) :=
    match st with
    | Panic => Panic
    | Return runes =>
        match runes !! i with
        | None => Panic
        | Some r =>
            if r <=? unicode.MaxASCII
            then Return (<[i := unicode.ToUpper_ascii r]> runes)
            else Return runes
        end
    end in
  match fold_left body (seq 0 (length runes)) (Return runes) with
  | Panic => Panic
  | Return runes => Return (types_String (string_of_runes runes))
  end.


(** ** Panicking reads and the string builder *)

Global Instance Go_ret : MRet Go := fun _ a => Return a.
Global Instance Go_bind : MBind Go := fun _ _ f m =>
  match m with
  | Return a => f a
  | Panic => Panic
  end.

(** [s[i]]: panics when [i] is out of range. *)
Definition index (s : string) (i : nat) : Go ascii :=
  match String.get i s with
  | Some c => Return c
  | None => Panic
  end.

(** [s[i:j]]: panics unless [i <= j <= len(s)]. *)
Definition slice (s : string) (i j : nat) : Go string :=
  if (i <=? j)%nat && (j <=? String.length s)%nat
  then Return (str_slice i j s)
  else Panic.

(** [strings.Builder]: the builder is the text written so far. *)
Definition WriteString (sb s : string) : string := sb ++ s.
Definition WriteByte (sb : string) (c : ascii) : string :=
  sb ++ String c EmptyString.
Definition WriteRune (sb : string) (r : rune) : string :=
  sb ++ of_bytes (utf8.EncodeRune r).

(** ** net/url: [QueryUnescape] *)

Module url.

Definition ishex (c : ascii) : bool :=
  let b := byte_val c in
  ((0x30 <=? b) && (b <=? 0x39))
  || ((0x61 <=? b) && (b <=? 0x66))
  || ((0x41 <=? b) && (b <=? 0x46)).

Definition unhex (c : ascii) : Z :=
  let b := byte_val c in
  if (0x30 <=? b) && (b <=? 0x39) then b - 0x30
  else if (0x61 <=? b) && (b <=? 0x66) then b - 0x61 + 10
  else if (0x41 <=? b) && (b <=? 0x46) then b - 0x41 + 10
  else 0.

(** The error type [url.EscapeError]: the offending fragment. *)
Inductive EscapeError : Type := mkEscapeError (frag : string).

(** First loop of [unescape]: every [%] must be followed by two hex
    digits; otherwise the error carries at most three bytes from the
    offending [%]. *)
Fixpoint unescape_check (s : string) : option EscapeError :=
  match s with
  | EmptyString => None
  | String c tl =>
      if Ascii.eqb c "%" then
        match tl with
        | String a (String b rest) =>
            if ishex a && ishex b then unescape_check rest
            else Some (mkEscapeError (str_take 3 s))
        | _ => Some (mkEscapeError (str_take 3 s))
        end
      else unescape_check tl
  end.

(** Second loop of [unescape] in the mode [encodeQueryComponent]: [%XY]
    becomes the byte [unhex(X)<<4 | unhex(Y)], [+] becomes a space and any
    other byte is written as it is.  The loop runs only on a string the
    first loop accepted, so a [%] always has its two digits. *)
Fixpoint unescape_write (s : string) : string :=
  match s with
  | EmptyString => EmptyString
  | String c tl =>
      if Ascii.eqb c "%" then
        match tl with
        | String a (String b rest) =>
            String (byte_chr (Z.lor (Z.shiftl (unhex a) 4) (unhex b)))
                   (unescape_write rest)
        | _ => EmptyString
        end
      else if Ascii.eqb c "+" then String " " (unescape_write tl)
      else String c (unescape_write tl)
  end.

(** [url.QueryUnescape]. *)
Definition QueryUnescape (s : string) : string + EscapeError :=
  match unescape_check s with
  | Some e => inr e
  | None => inl (unescape_write s)
  end.

End url.

(** ** strconv: [Unquote] on a [\u] escape *)

Module strconv.

Definition ValidRune (r : rune) : bool :=
  ((0 <=? r) && (r <? utf8.surrogateMin))
  || ((utf8.surrogateMax <? r) && (r <=? utf8.MaxRune)).

(** The value of a run of hex digits, [v = v<<4 | x] digit by digit. *)
Definition hex_value (x : string) : Z :=
  fold_left (fun v c => Z.lor (Z.shiftl v 4) (url.unhex c))
            (list_ascii_of_string x) 0.

(** [strconv.Unquote] applied to the Go literal made of a double quote,
    a backslash, [u], the four bytes [x] and a closing double quote, the
    only shape the package passes to it.  The escape is accepted when the
    four bytes are hex digits and name a valid rune (not a surrogate); the
    result is then that rune, a single byte below [RuneSelf] and its UTF-8
    encoding otherwise.  [None] is [ErrSyntax]. *)
Definition Unquote_u4 (x : string) : option string :=
  if (String.length x =? 4)%nat
     && forallb url.ishex (list_ascii_of_string x)
     && ValidRune (hex_value x)
  then Some (of_bytes (utf8.EncodeRune (hex_value x)))
  else None.

End strconv.

(** ** The decoding functions of [cloudarmor.go] *)

(** The result of one pass through the body of the loop of
    [urlDecodeUniString]: the function returns, or the loop goes on at the
    next index (the post statement [idx++] included) with the builder. *)
Inductive uni_step : Type :=
| uni_return (v : Val)
| uni_next (idx : nat) (sb : string).

Definition invalid_escape : Val := types_Err "invalid URL escape sequence".

Definition urlDecodeUni_body (str : string) (idx : nat) (sb : string)
  : Go uni_step :=
  let len := String.length str in
  c ← index str idx;
  if Ascii.eqb c "%" then
    if (len <=? idx + 1)%nat then mret (uni_return invalid_escape)
    else
      c1 ← index str (idx + 1);
      (* the [%u] branch: [Some] when it returns or continues *)
      unicode ←
        (if Ascii.eqb c1 "u" || Ascii.eqb c1 "U" then
           if (len <=? idx + 5)%nat
           then mret (Some (uni_return invalid_escape))
           else
             x ← slice str (idx + 2) (idx + 6);
             match strconv.Unquote_u4 x with
             | Some r => mret (Some (uni_next (idx + 5 + 1) (WriteString sb r)))
             | None => mret None
             end
         else mret None);
      match unicode with
      | Some st => mret st
      | None =>
          if (len <=? idx + 2)%nat then mret (uni_return invalid_escape)
          else
            x ← slice str idx (idx + 3);
            match url.QueryUnescape x with
            | inr _ => mret (uni_next (idx + 1) (WriteByte sb c))
            | inl res => mret (uni_next (idx + 2 + 1) (WriteString sb res))
            end
      end
  else if Ascii.eqb c "+" then mret (uni_next (idx + 1) (WriteByte sb " "))
  else mret (uni_next (idx + 1) (WriteByte sb c)).

(** The loop [for idx := 0; idx < strLen; idx++].  [None] stands for a loop
    that has not finished within [fuel] iterations. *)
Fixpoint urlDecodeUni_loop (fuel : nat) (str : string) (idx : nat)
  (sb : string) : option (Go Val) :=
  if (String.length str <=? idx)%nat then Some (Return (types_String sb))
  else
    match fuel with
    | O => None
    | S fuel' =>
        match urlDecodeUni_body str idx sb with
        | Panic => Some Panic
        | Return (uni_return v) => Some (Return v)
        | Return (uni_next idx' sb') => urlDecodeUni_loop fuel' str idx' sb'
        end
    end.

(** [urlDecodeUniString]: every iteration advances [idx], so [len(str)]
    iterations are enough. *)
Definition urlDecodeUniString (str : string) : option (Go Val) :=
  urlDecodeUni_loop (String.length str) str 0 EmptyString.

(** [writeHexStr]. *)
Definition kHexChar : list rune :=
  [0x30; 0x31; 0x32; 0x33; 0x34; 0x35; 0x36; 0x37;
   0x38; 0x39; 0x61; 0x62; 0x63; 0x64; 0x65; 0x66].

(** [kHexChar[i]] for an [int] index: panics below zero and from 16 on. *)
Definition kHexChar_at (i : Z) : Go rune :=
  if i <? 0 then Panic
  else match kHexChar !! Z.to_nat i with
       | Some c => Return c
       | None => Panic
       end.

Definition writeHexStr (sb : string) (v : Z) : Go string :=
  let sb := WriteString sb "%u" in
  sb ← (if 0xfffff <? v
        then c ← kHexChar_at (Z.shiftr v 20); mret (WriteRune sb c)
        else mret sb);
  sb ← (if 0xffff <? v
        then c ← kHexChar_at (Z.land (Z.shiftr v 16) 0xf); mret (WriteRune sb c)
        else mret sb);
  c ← kHexChar_at (Z.land (Z.shiftr v 12) 0xf); let sb := WriteRune sb c in
  c ← kHexChar_at (Z.land (Z.shiftr v 8) 0xf); let sb := WriteRune sb c in
  c ← kHexChar_at (Z.land (Z.shiftr v 4) 0xf); let sb := WriteRune sb c in
  c ← kHexChar_at (Z.land v 0xf); mret (WriteRune sb c).

(** The body of the loop of [utf8ToUnicodeString] for one rune. *)
Definition utf8ToUnicode_body (sb : string) (r : rune) : Go string :=
  if r <? 0x80 then mret (WriteRune sb r)
  else if r <? 0x800 then writeHexStr sb r
  else if r <? 0x10000 then
    if (0xD800 <=? r) && (r <=? 0xDFFF) then mret (WriteRune sb r)
    else writeHexStr sb r
  else if r <? 0x110000 then writeHexStr sb r
  else mret (WriteRune sb r).

Definition utf8ToUnicodeString (str : string) : Go Val :=
  sb ← fold_left (fun st r => sb ← st; utf8ToUnicode_body sb r)
                 (runes_of_string str) (Return EmptyString);
  mret (types_String sb).


(** ** The attribute container ([variables.go]) *)

(** A [float64] is carried as its IEEE-754 bit pattern; the package never
    computes with it. *)
Definition float64 := Z.

Record RecaptchaExemption : Type := {
  RecaptchaExemption_Valid : bool
}.

Record RecaptchaAction : Type := {
  RecaptchaAction_Score : float64;
  CaptchaStatus : string;
  Action : string;
  RecaptchaAction_Valid : bool
}.

Record RecaptchaSession : Type := {
  RecaptchaSession_Score : float64;
  RecaptchaSession_Valid : bool
}.

Record Token : Type := {
  Token_RecaptchaExemption : option RecaptchaExemption;
  Token_RecaptchaAction : option RecaptchaAction;
  Token_RecaptchaSession : option RecaptchaSession
}.

Record Request : Type := {
  Method : string;
  Headers : option (gmap string string);
  Path : string;
  Query : string;
  Scheme : string
}.

Record Origin : Type := {
  IP : string;
  RegionCode : string;
  ASN : Z;
  UserIP : string;
  TLSJA3Fingerprint : string;
  TLSJA4Fingerprint : string
}.

Record Variables : Type := {
  Variables_Request : option Request;
  Variables_Origin : option Origin;
  Variables_Token : option Token
}.

(** The zero values [&Request{}], [&Origin{}], [&Token{}], ... *)
Definition Request_zero : Request :=
  {| Method := ""; Headers := None; Path := ""; Query := ""; Scheme := "" |}.
Definition Origin_zero : Origin :=
  {| IP := ""; RegionCode := ""; ASN := 0; UserIP := "";
     TLSJA3Fingerprint := ""; TLSJA4Fingerprint := "" |}.
Definition Token_zero : Token :=
  {| Token_RecaptchaExemption := None; Token_RecaptchaAction := None;
     Token_RecaptchaSession := None |}.
Definition RecaptchaExemption_zero : RecaptchaExemption :=
  {| RecaptchaExemption_Valid := false |}.
Definition RecaptchaAction_zero : RecaptchaAction :=
  {| RecaptchaAction_Score := 0; CaptchaStatus := ""; Action := "";
     RecaptchaAction_Valid := false |}.
Definition RecaptchaSession_zero : RecaptchaSession :=
  {| RecaptchaSession_Score := 0; RecaptchaSession_Valid := false |}.
Definition Variables_zero : Variables :=
  {| Variables_Request := None; Variables_Origin := None;
     Variables_Token := None |}.

(** A Go value of type [any], as [ResolveName] returns it. *)
Inductive any : Type :=
| any_nil
| any_string (s : string)
| any_map (m : option (gmap string string))
| any_int64 (i : Z)
| any_float64 (f : float64)
| any_bool (b : bool).

(** The dereference of a pointer, as in [v.Request.Method]: panics on
    nil. *)
Definition deref {A : Type} (p : option A) : Go A :=
  match p with
  | Some a => Return a
  | None => Panic
  end.

(** [ResolveName]: the [switch] on the name, case by case; the result is
    the pair of the value and the flag. *)
Definition ResolveName (v : Variables) (name : string) : Go (any * bool) :=
  if String.eqb name "request.method" then
    r ← deref (Variables_Request v); mret (any_string (Method r), true)
  else if String.eqb name "request.headers" then
    r ← deref (Variables_Request v); mret (any_map (Headers r), true)
  else if String.eqb name "request.path" then
    r ← deref (Variables_Request v); mret (any_string (Path r), true)
  else if String.eqb name "request.query" then
    r ← deref (Variables_Request v); mret (any_string (Query r), true)
  else if String.eqb name "request.scheme" then
    r ← deref (Variables_Request v); mret (any_string (Scheme r), true)
  else if String.eqb name "origin.ip" then
    o ← deref (Variables_Origin v); mret (any_string (IP o), true)
  else if String.eqb name "origin.region_code" then
    o ← deref (Variables_Origin v); mret (any_string (RegionCode o), true)
  else if String.eqb name "origin.asn" then
    o ← deref (Variables_Origin v); mret (any_int64 (ASN o), true)
  else if String.eqb name "origin.user_ip" then
    o ← deref (Variables_Origin v); mret (any_string (UserIP o), true)
  else if String.eqb name "origin.tls_ja3_fingerprint" then
    o ← deref (Variables_Origin v);
    mret (any_string (TLSJA3Fingerprint o), true)
  else if String.eqb name "origin.tls_ja4_fingerprint" then
    o ← deref (Variables_Origin v);
    mret (any_string (TLSJA4Fingerprint o), true)
  else if String.eqb name "token.recaptcha_exemption.valid" then
    t ← deref (Variables_Token v); e ← deref (Token_RecaptchaExemption t);
    mret (any_bool (RecaptchaExemption_Valid e), true)
  else if String.eqb name "token.recaptcha_action.score" then
    t ← deref (Variables_Token v); a ← deref (Token_RecaptchaAction t);
    mret (any_float64 (RecaptchaAction_Score a), true)
  else if String.eqb name "token.recaptcha_action.captcha_status" then
    t ← deref (Variables_Token v); a ← deref (Token_RecaptchaAction t);
    mret (any_string (CaptchaStatus a), true)
  else if String.eqb name "token.recaptcha_action.action" then
    t ← deref (Variables_Token v); a ← deref (Token_RecaptchaAction t);
    mret (any_string (Action a), true)
  else if String.eqb name "token.recaptcha_action.valid" then
    t ← deref (Variables_Token v); a ← deref (Token_RecaptchaAction t);
    mret (any_bool (RecaptchaAction_Valid a), true)
  else if String.eqb name "token.recaptcha_session.score" then
    t ← deref (Variables_Token v); s ← deref (Token_RecaptchaSession t);
    mret (any_float64 (RecaptchaSession_Score s), true)
  else if String.eqb name "token.recaptcha_session.valid" then
    t ← deref (Variables_Token v); s ← deref (Token_RecaptchaSession t);
    mret (any_bool (RecaptchaSession_Valid s), true)
  else mret (any_nil, false).

(** ** The test suite ([testsuite.go]) *)

Record TestCase : Type := {
  TestCase_Name : string;
  When : option Variables;
  ExpectOutput : bool;
  ExpectError : string
}.

(** The slice [Tests] holds pointers to test cases: an entry is a case or
    nil. *)
Record TestSuite : Type := {
  TestSuite_Name : string;
  Expr : string;
  Tests : list (option TestCase)
}.

(** The cases a slice of pointers points to, when none of them is nil. *)
Fixpoint all_present {A : Type} (l : list (option A)) : option (list A) :=
  match l with
  | [] => Some []
  | None :: _ => None
  | Some a :: l' =>
      match all_present l' with
      | Some rest => Some (a :: rest)
      | None => None
      end
  end.

Record TestStatus : Type := {
  TestStatus_Name : string;
  Pass : bool;
  Fail : string
}.

(** ** encoding/base64: the interface the package uses *)

Module base64.

(** The errors of a decoder: [base64.CorruptInputError], an [int64]
    offset, or an error of another type. *)
Inductive error : Type :=
| CorruptInputError (offset : Z)
| OtherError (msg : string).

(** The method [Error()]. *)
Definition Error (e : error) : string :=
  match e with
  | CorruptInputError n =>
      "illegal base64 data at input byte " ++ NilZero.string_of_int (Z.to_int n)
  | OtherError msg => msg
  end.

(** An [*Encoding], by its method [DecodeString]: the decoded bytes and
    the error, [None] for [nil]. *)
Record Encoding : Type := {
  DecodeString : string -> string * option error
}.

End base64.

(** ** The expression tree of the CEL parser ([common/ast]) *)

Module ast.

(** A literal value: [AsLiteral()] of a constant expression. *)
Inductive Constant : Type :=
| BoolValue (b : bool)
| BytesValue (bs : string)
| DoubleValue (bits : float64)
| IntValue (i : Z)
| NullValue
| StringValue (s : string)
| UintValue (u : Z).

#[warnings="-register-all"]
Inductive Expr : Type :=
| Unspecified
| Call (target : option Expr) (function : string) (args : list Expr)
| Comprehension (iterRange : Expr) (iterVar accuVar : string)
    (accuInit loopCondition loopStep result : Expr)
| Ident (name : string)
| List (elements : list Expr)
| Literal (value : Constant)
| Map (entries : list (Expr * Expr))
| Select (operand : Expr) (field : string) (testOnly : bool)
| Struct (typeName : string) (fields : list (string * Expr)).

Inductive ExprKind : Type :=
| UnspecifiedExprKind | CallKind | ComprehensionKind | IdentKind | ListKind
| LiteralKind | MapKind | SelectKind | StructKind.

Definition Kind (e : Expr) : ExprKind :=
  match e with
  | Unspecified => UnspecifiedExprKind
  | Call _ _ _ => CallKind
  | Comprehension _ _ _ _ _ _ _ => ComprehensionKind
  | Ident _ => IdentKind
  | List _ => ListKind
  | Literal _ => LiteralKind
  | Map _ => MapKind
  | Select _ _ _ => SelectKind
  | Struct _ _ => StructKind
  end.

Definition ExprKind_eqb (a b : ExprKind) : bool :=
  match a, b with
  | UnspecifiedExprKind, UnspecifiedExprKind | CallKind, CallKind
  | ComprehensionKind, ComprehensionKind | IdentKind, IdentKind
  | ListKind, ListKind | LiteralKind, LiteralKind | MapKind, MapKind
  | SelectKind, SelectKind | StructKind, StructKind => true
  | _, _ => false
  end.

(** The runtime type of a literal, [AsLiteral().Type()]. *)
Inductive Type_ : Type :=
| BoolType | BytesType | DoubleType | IntType | NullType | StringType
| UintType.

Definition TypeOf (c : Constant) : Type_ :=
  match c with
  | BoolValue _ => BoolType
  | BytesValue _ => BytesType
  | DoubleValue _ => DoubleType
  | IntValue _ => IntType
  | NullValue => NullType
  | StringValue _ => StringType
  | UintValue _ => UintType
  end.

Definition Type_eqb (a b : Type_) : bool :=
  match a, b with
  | BoolType, BoolType | BytesType, BytesType | DoubleType, DoubleType
  | IntType, IntType | NullType, NullType | StringType, StringType
  | UintType, UintType => true
  | _, _ => false
  end.

End ast.

(** [operators.Index], the function name of an index expression. *)
Definition operators_Index : string := "_[_]".

(** [cel.MacroExprFactory], by the one method the macro calls. *)
Class MacroExprFactory : Type := {
  NewPresenceTest : ast.Expr -> string -> ast.Expr
}.

(** ** The functions that depend on the Go runtime and on the engine *)

Section Rules.

(** [strconv.Quote], which the verb [%q] and [url.EscapeError] apply to
    their text. *)
Variable Quote : string -> string.

(** [strings.ToLower]. *)
Variable ToLower : string -> string.

(** [base64.StdEncoding] and [base64.RawStdEncoding]. *)
Variables StdEncoding RawStdEncoding : base64.Encoding.

(** [yaml.Unmarshal(yamlBytes, &ts)]: the pointer [ts] as the decoder leaves
    it, a suite or nil (the decoder is handed the address of the pointer
    and may reset it), or the message of the decoder's error. *)
Variable Unmarshal : string -> option TestSuite + string.

(** The method [Error()] of [url.EscapeError]. *)
Definition EscapeError_Error (e : url.EscapeError) : string :=
  match e with
  | url.mkEscapeError frag => "invalid URL escape " ++ Quote frag
  end.

Definition urlDecodeString (str : string) : Val :=
  match url.QueryUnescape str with
  | inr err => types_Err (EscapeError_Error err)
  | inl res => types_String res
  end.

Definition base64DecodeString (str : string) : Val :=
  let '(b, err) := base64.DecodeString StdEncoding str in
  match err with
  | None => types_String b
  | Some e =>
      let tryAltEncoding :=
        match e with
        | base64.CorruptInputError _ => true
        | _ => false
        end in
      if negb tryAltEncoding then types_Err (base64.Error e)
      else
        let '(b, err) := base64.DecodeString RawStdEncoding str in
        match err with
        | Some e' => types_Err (base64.Error e')
        | None => types_String b
        end
  end.

(** [hasWithIndexMacroFactory]: the pair of the rewritten expression and
    the error, [None] for [nil]; [args[0]] panics on an empty slice. *)
Definition hasWithIndexMacroFactory `{MacroExprFactory}
  (target : option ast.Expr) (args : list ast.Expr)
  : Go (option ast.Expr * option string) :=
  match args with
  | [] => Panic
  | arg :: _ =>
      if ast.ExprKind_eqb (ast.Kind arg) ast.SelectKind then
        match arg with
        | ast.Select operand field _ =>
            Return (Some (NewPresenceTest operand field), None)
        | _ => Panic
        end
      else if negb (ast.ExprKind_eqb (ast.Kind arg) ast.CallKind) then
        Return (None, None)
      else
        match arg with
        | ast.Call call_target function call_args =>
            if negb (String.eqb function operators_Index) then
              Return (None, None)
            else if bool_decide (is_Some call_target)
                    || negb (length call_args =? 2)%nat then
              Return (None, None)
            else
              match call_args !! 0%nat, call_args !! 1%nat with
              | Some obj, Some field =>
                  match field with
                  | ast.Literal value =>
                      if negb (ast.Type_eqb (ast.TypeOf value) ast.StringType)
                      then Return (None, None)
                      else
                        match value with
                        | ast.StringValue s =>
                            Return (Some (NewPresenceTest obj s), None)
                        | _ => Panic
                        end
                  | _ => Return (None, None)
                  end
              | _, _ => Panic
              end
        | _ => Panic
        end
  end.

(** The loop [for k, val := range headers { headers[ToLower(k)] = val }].
    Go does not fix the order in which [range] visits a map, so the
    sequence of keys the loop visits is an argument: a key that is in the
    map when its turn comes is processed with the value it has then; a
    key that is not (yet) in the map is passed over. *)
Definition lower_keys (visit : list string) (headers : gmap string string)
  : gmap string string :=
  fold_left
    (fun (h : gmap string string) (k : string) =>
       match h !! k with
       | Some val => <[ToLower k := val]> h
       | None => h
       end)
    visit headers.

(** The sequences [range] may follow on the map [m]: each entry present
    when the loop starts is visited once; an entry created by the loop may
    be visited or not. *)
Definition range_order (m : gmap string string) (visit : list string)
  : Prop :=
  NoDup visit /\ forall k, is_Some (m !! k) -> k ∈ visit.

(** [HTTPHeaders]; the loop body never runs on a nil map. *)
Definition HTTPHeaders (visit : list string)
  (headers : option (gmap string string)) : option (gmap string string) :=
  match headers with
  | None => None
  | Some h => Some (lower_keys visit h)
  end.

Definition SafeVariables (visit : list string) (v : Variables) : Variables :=
  let request := default Request_zero (Variables_Request v) in
  let headers := default ∅ (Headers request) in
  let headers := lower_keys visit headers in
  let request :=
    {| Method := Method request; Headers := Some headers;
       Path := Path request; Query := Query request;
       Scheme := Scheme request |} in
  let origin := default Origin_zero (Variables_Origin v) in
  let token := default Token_zero (Variables_Token v) in
  let token :=
    {| Token_RecaptchaExemption :=
         Some (default RecaptchaExemption_zero (Token_RecaptchaExemption token));
       Token_RecaptchaAction :=
         Some (default RecaptchaAction_zero (Token_RecaptchaAction token));
       Token_RecaptchaSession :=
         Some (default RecaptchaSession_zero (Token_RecaptchaSession token)) |} in
  {| Variables_Request := Some request;
     Variables_Origin := Some origin;
     Variables_Token := Some token |}.

Definition SafeTestCase (visit : list string) (t : TestCase) : TestCase :=
  let when := default Variables_zero (When t) in
  {| TestCase_Name := TestCase_Name t;
     When := Some (SafeVariables visit when);
     ExpectOutput := ExpectOutput t;
     ExpectError := ExpectError t |}.

(** The test of the loop of [TestSuiteFromYAML]. *)
Definition expect_and_error (t : TestCase) : bool :=
  ExpectOutput t && negb (String.eqb (ExpectError t) "").

Definition both_message (t : TestCase) : string :=
  "test case " ++ Quote (TestCase_Name t) ++ " has both expect and error".

(** The loop [for i, t := range ts.Tests] from index [i] on, with [n]
    entries left: the slice as the loop leaves it and the error it returns,
    if any.  Reading [t.ExpectOutput] through a nil entry is a panic.
    [visits i] is the order in which the headers of case [i] are ranged
    over. *)
Fixpoint TestSuiteFromYAML_loop (visits : nat -> list string) (n i : nat)
  (tests : list (option TestCase))
  : Go (list (option TestCase) * option string) :=
  match n with
  | O => Return (tests, None)
  | S n' =>
      match tests !! i with
      | None => Return (tests, None)
      | Some None => Panic
      | Some (Some t) =>
          if expect_and_error t then Return (tests, Some (both_message t))
          else
            TestSuiteFromYAML_loop visits n' (S i)
              (<[i := Some (SafeTestCase (visits i) t)]> tests)
      end
  end.

(** [TestSuiteFromYAML]: the suite and the error, [None] for [nil];
    reading [ts.Tests] through a nil suite is a panic. *)
Definition TestSuiteFromYAML (visits : nat -> list string)
  (yamlBytes : string) : Go (option TestSuite * option string) :=
  match Unmarshal yamlBytes with
  | inr err => Return (None, Some err)
  | inl None => Panic
  | inl (Some ts) =>
      match TestSuiteFromYAML_loop visits (length (Tests ts)) 0 (Tests ts) with
      | Panic => Panic
      | Return (_, Some err) => Return (None, Some err)
      | Return (tests, None) =>
          Return (Some {| TestSuite_Name := TestSuite_Name ts; Expr := Expr ts;
                          Tests := tests |}, None)
      end
  end.

(** A compiled program, by its method [Eval] on the activation of a test
    case: the value and the error, [None] for [nil], here its message. *)
Definition Program : Type := option Variables -> Val * option string.

(** The verb [%v]. *)
Definition fmt_bool (b : bool) : string := if b then "true" else "false".
Definition fmt_v (v : Val) : string :=
  match v with
  | types_Bool b => fmt_bool b
  | types_String s => s
  | types_Err msg => msg
  | types_Other rendering => rendering
  end.

(** [strings.Contains]. *)
Fixpoint Contains (s substr : string) : bool :=
  String.prefix substr s
  || match s with
     | EmptyString => false
     | String _ s' => Contains s' substr
     end.

(** The comparison [out == types.Bool(b)] of interface values. *)
Definition eq_Bool (out : Val) (b : bool) : bool :=
  match out with
  | types_Bool b' => Bool.eqb b' b
  | _ => false
  end.

Definition RunRuleValidation (prg : Program) (testCases : list TestCase)
  : list TestStatus :=
  fold_left
    (fun (statuses : list TestStatus) (tc : TestCase) =>
       let '(out, err) := prg (When tc) in
       match err with
       | Some e =>
           if negb (String.eqb (ExpectError tc) "") then
             if negb (Contains e (ExpectError tc)) then
               append statuses
                 {| TestStatus_Name := TestCase_Name tc; Pass := false;
                    Fail := "got error " ++ Quote e
                            ++ ", wanted error containing "
                            ++ Quote (ExpectError tc) |}
             else
               append statuses
                 {| TestStatus_Name := TestCase_Name tc; Pass := true;
                    Fail := "" |}
           else
             append statuses
               {| TestStatus_Name := TestCase_Name tc; Pass := false;
                  Fail := e |}
       | None =>
           if eq_Bool out (ExpectOutput tc) then
             append statuses
               {| TestStatus_Name := TestCase_Name tc; Pass := true;
                  Fail := "" |}
           else
             append statuses
               {| TestStatus_Name := TestCase_Name tc; Pass := false;
                  Fail := "expected result " ++ fmt_bool (ExpectOutput tc)
                          ++ ", got " ++ fmt_v out |}
       end)
    testCases [].

End Rules.

(** ** [VariablesFromYAML] *)

(** [VariablesFromYAML]; [Unmarshal] is [yaml.Unmarshal] into a
    [Variables]: the decoded value, or the message of the decoder's error. *)
Definition VariablesFromYAML (ToLower : string -> string)
  (Unmarshal : string -> Variables + string) (visit : list string)
  (yamlBytes : string) : option Variables * option string :=
  match Unmarshal yamlBytes with
  | inr err => (None, Some err)
  | inl v => (Some (SafeVariables ToLower visit v), None)
  end.

(** ** The command line ([cmd/rulescli.go]) *)

(** The line feed, as a one-byte string. *)
Definition newline : string := String (ascii_of_nat 10) EmptyString.

(** The verb [%d] on an index or a count. *)
Definition fmt_d (n : nat) : string := NilZero.string_of_uint (Nat.to_uint n).

(** [strings.Split(s, sep)] for a separator of one byte: the pieces between
    the separators, in order; a string without separator is its only
    piece. *)
Fixpoint Split (s : string) (sep : ascii) : list string :=
  match s with
  | EmptyString => [EmptyString]
  | String c s' =>
      if Ascii.eqb c sep then EmptyString :: Split s' sep
      else
        match Split s' sep with
        | piece :: pieces => String c piece :: pieces
        | [] => [String c EmptyString]
        end
  end.

(** [strings.Count(s, substr)] for a substring of one byte. *)
Fixpoint Count (s : string) (c : ascii) : nat :=
  match s with
  | EmptyString => O
  | String x s' => ((if Ascii.eqb x c then 1 else 0) + Count s' c)%nat
  end.

(** [strings.ReplaceAll(s, old, new)] for a non-empty [old]: the leftmost
    occurrences of [old] that do not overlap are replaced by [new].  Every
    step consumes a byte of [s], so [len(s)] steps are enough. *)
Fixpoint replace_all (fuel : nat) (s old new : string) : string :=
  match fuel with
  | O => s
  | S fuel' =>
      if String.prefix old s
      then new ++ replace_all fuel' (str_drop (String.length old) s) old new
      else
        match s with
        | EmptyString => EmptyString
        | String c s' => String c (replace_all fuel' s' old new)
        end
  end.

Definition ReplaceAll (s old new : string) : string :=
  replace_all (String.length s) s old new.

Record options : Type := {
  expr : string;
  file : string;
  test : string;
  outputFormat : string;
  version : string;
  verbose : bool
}.

(** The constants [cloudarmor.VCurrent] and [cloudarmor.VNext]. *)
Definition VCurrent : Z := 1.
Definition VNext : Z := 2.

Definition textFmtHeader : string :=
  "# proto-file: github.com/google/cel-spec/proto/checked.proto" ++ newline
  ++ "# proto-message: dev.cel.expr.CheckedExpr" ++ newline ++ newline.

(** [options.validate]: the error, [None] for [nil]. *)
Definition validate (o : options) : option string :=
  if String.eqb (expr o) "" && String.eqb (file o) ""
     && String.eqb (test o) "" then
    Some "either -expr=<expression> or -file=<file> or -test=<test_suite_file> is required"
  else if negb (String.eqb (expr o) "")
          && negb (String.eqb (outputFormat o) "")
          && negb (String.eqb (outputFormat o) "textproto")
          && negb (String.eqb (outputFormat o) "binarypb") then
    Some ("unsupported -output_format=" ++ outputFormat o
          ++ ", must be textproto or binarypb")
  else None.

(** What the process writes, to the standard output or the standard
    error. *)
Inductive event : Type :=
| Stdout (text : string)
| Stderr (text : string).

(** A run of a part of the program: it comes back with a result, the
    process has exited ([os.Exit]) with a status, or it has died of a
    panic; in every case with what it has written, in order. *)
Inductive Run (A : Type) : Type :=
| Done (out : list event) (a : A)
| Exit (out : list event) (code : Z)
| Crashed (out : list event).
Arguments Done {A} out a.
Arguments Exit {A} out code.
Arguments Crashed {A} out.

Global Instance Run_ret : MRet Run := fun _ a => Done [] a.
Global Instance Run_bind : MBind Run := fun _ _ f m =>
  match m with
  | Exit out code => Exit out code
  | Crashed out => Crashed out
  | Done out a =>
      match f a with
      | Done out' b => Done (out ++ out') b
      | Exit out' code => Exit (out ++ out') code
      | Crashed out' => Crashed (out ++ out')
      end
  end.

(** [fmt.Println], [fmt.Fprintf(os.Stderr, ...)] and [os.Exit], on the text
    already formatted. *)
Definition Println (text : string) : Run unit :=
  Done [Stdout (text ++ newline)] tt.
Definition Fprintf_Stderr (text : string) : Run unit :=
  Done [Stderr text] tt.
Definition os_Exit {A : Type} (code : Z) : Run A := Exit [] code.

Definition verboseLog (enabled : bool) (text : string) : Run unit :=
  if enabled then Done [Stdout (text ++ newline)] tt else mret tt.

(** The rewriting at the head of [newAST]: bracket notation to dot
    notation, in an expression that mentions [request.params]. *)
Definition dot_notation (expr : string) : string :=
  if Contains expr "request.params" then
    let expr := ReplaceAll expr "['" "." in
    ReplaceAll expr "']" ""
  else expr.

(** The line the last loop of [main] writes for one status. *)
Definition report_line (suite : string) (s : TestStatus) : string :=
  if negb (String.eqb (Fail s) "") then
    "FAIL " ++ suite ++ "/" ++ TestStatus_Name s ++ ": " ++ Fail s ++ newline
  else
    "PASS " ++ suite ++ "/" ++ TestStatus_Name s ++ newline.

(** The last loop of [main]. *)
Definition report (suite : string) (statuses : list TestStatus) : Run unit :=
  fold_left (fun run s => run ;; Fprintf_Stderr (report_line suite s))
            statuses (mret tt).

(** The text written to the standard error, in order. *)
Definition stderr_of (out : list event) : list string :=
  flat_map (fun e => match e with Stderr text => [text] | Stdout _ => [] end)
           out.

Section CommandLine.

(** The rule environment [*cloudarmor.Rules], the compiled expression
    [*cel.Ast], its protocol buffer and an open file. *)
Variables Rules Ast CheckedExpr File : Type.

(** [cloudarmor.NewRules(cloudarmor.Version(version))] and the methods
    [Compile] and [Program] of the environment; an error is its message. *)
Variable NewRules : Z -> Rules + string.
Variable Compile : Rules -> string -> Ast + string.
Variable Rules_Program : Rules -> Ast -> Program + string.

(** [cel.AstToCheckedExpr], [prototext.Format], and the text [fmt.Println]
    writes for the pair that [proto.MarshalOptions.Marshal] returns. *)
Variable AstToCheckedExpr : Ast -> CheckedExpr + string.
Variable Format : CheckedExpr -> string.
Variable Marshal : CheckedExpr -> string.

(** [os.OpenFile], [io.ReadAll] and [os.ReadFile]. *)
Variable OpenFile : string -> File + string.
Variable ReadAll : File -> string + string.
Variable ReadFile : string -> string + string.

(** [strings.TrimSpace]. *)
Variable TrimSpace : string -> string.

(** What the test-suite loader and the verdict loop depend on. *)
Variables Quote ToLower : string -> string.
Variable Unmarshal : string -> option TestSuite + string.
Variable visits : nat -> list string.

Definition newRules (ver : string) : Run Rules :=
  let version := if String.eqb ver "VNext" then VNext else VCurrent in
  match NewRules version with
  | inr err =>
      Fprintf_Stderr ("failed to create rules environment: " ++ err ++ newline);;
      os_Exit 1
  | inl r => mret r
  end.

(** [newAST] returns the compiled expression with the flag true, or nil
    with the flag false: [Some ast] and [None]. *)
Definition newAST (r : Rules) (expr : string) : Run (option Ast) :=
  let expr := dot_notation expr in
  match Compile r expr with
  | inr err =>
      Fprintf_Stderr ("failed to compile expression: " ++ err ++ newline);;
      mret None
  | inl ast => mret (Some ast)
  end.

Definition printAST (ast : Ast) (outputFormat : string) : Run unit :=
  match AstToCheckedExpr ast with
  | inr err =>
      Fprintf_Stderr ("failed to convert ast to checked expr: " ++ err
                      ++ newline);;
      os_Exit 1
  | inl pb =>
      if String.eqb outputFormat "textproto" then
        Println (textFmtHeader ++ Format pb)
      else if String.eqb outputFormat "binarypb" then
        Println (Marshal pb)
      else mret tt
  end.

Definition newProgram (r : Rules) (ast : Ast) : Run Program :=
  match Rules_Program r ast with
  | inr err =>
      Fprintf_Stderr ("failed to create program: " ++ err ++ newline);;
      os_Exit 1
  | inl prg => mret prg
  end.

(** The loop of [processExprFile] over the pieces of the file, from the
    piece of index [index] on; the result is the error the function
    returns, [None] for [nil]. *)
Fixpoint processExprFile_loop (r : Rules) (outputFormat : string)
  (verbose : bool) (index LineNumber : nat) (expressions : list string)
  : Run (option string) :=
  match expressions with
  | [] => mret None
  | expr :: rest =>
      let LineNumber := (LineNumber + Count expr (ascii_of_nat 10))%nat in
      let expr := TrimSpace expr in
      if String.eqb expr "" then
        processExprFile_loop r outputFormat verbose (S index) LineNumber rest
      else
        verboseLog verbose
          ("Processing expr at index: " ++ fmt_d index ++ ", line: "
           ++ fmt_d LineNumber ++ ", expr: " ++ expr);;
        res ← newAST r expr;
        match res with
        | None => mret (Some ("failed to compile expression: " ++ expr))
        | Some ast =>
            verboseLog verbose ("Successfully compiled expression: " ++ expr);;
            printAST ast outputFormat;;
            processExprFile_loop r outputFormat verbose (S index) LineNumber
              rest
        end
  end.

Definition processExprFile (r : Rules) (filename outputFormat : string)
  (verbose : bool) : Run (option string) :=
  verboseLog verbose ("Reading file: " ++ filename);;
  match OpenFile filename with
  | inr err => Println ("Failed to open file: " ++ filename);; mret (Some err)
  | inl file =>
      match ReadAll file with
      | inr err =>
          Println ("Failed to read file content: " ++ filename);;
          mret (Some err)
      | inl content =>
          processExprFile_loop r outputFormat verbose 0 1 (Split content ";")
      end
  end.

(** [main], from the parsed flags [opts] and the remaining arguments
    [flag.Args()] on.  A run that comes back is a process that ends with
    status 0.  A panic of the loader, reading [ts.Expr] from a nil suite
    and, in [RunRuleValidation], reading [tc.When] through a nil entry of
    [ts.Tests] kill the process. *)
Definition main (opts : options) (args : list string) : Run unit :=
  let opts :=
    match args with
    | arg :: _ =>
        {| expr := arg; file := file opts; test := test opts;
           outputFormat := outputFormat opts; version := version opts;
           verbose := verbose opts |}
    | [] => opts
    end in
  match validate opts with
  | Some err =>
      Fprintf_Stderr ("invalid options: " ++ err ++ newline);; os_Exit 1
  | None =>
      r ← newRules (version opts);
      if negb (String.eqb (expr opts) "") then
        res ← newAST r (expr opts);
        match res with
        | Some ast => printAST ast (outputFormat opts);; os_Exit 0
        | None => os_Exit 1
        end
      else if negb (String.eqb (file opts) "") then
        err ← processExprFile r (file opts) (outputFormat opts) (verbose opts);
        match err with
        | Some err => Println ("Error processing file: " ++ err);; os_Exit 1
        | None => os_Exit 0
        end
      else
        match ReadFile (test opts) with
        | inr err =>
            Fprintf_Stderr ("failed to read test suite file: " ++ err
                            ++ newline);;
            os_Exit 1
        | inl tsData =>
            match TestSuiteFromYAML Quote ToLower Unmarshal visits tsData with
            | Panic => Crashed []
            | Return (_, Some err) =>
                Fprintf_Stderr ("failed to parse test suite: " ++ err
                                ++ newline);;
                os_Exit 1
            | Return (None, None) => Crashed []
            | Return (Some ts, None) =>
                res ← newAST r (Expr ts);
                match res with
                | None => os_Exit 1
                | Some ast =>
                    prg ← newProgram r ast;
                    match all_present (Tests ts) with
                    | None => Crashed []
                    | Some testCases =>
                        let statuses :=
                          RunRuleValidation Quote prg testCases in
                        report (TestSuite_Name ts) statuses
                    end
                end
            end
        end
  end.

(** The expressions [processExprFile] hands to [newAST]: the pieces of the
    file between semicolons, trimmed, the blank ones left out. *)
Definition expressions_of (content : string) : list string :=
  List.filter (fun e => negb (String.eqb e ""))
              (map TrimSpace (Split content ";")).

(** An expression that [newAST] compiles and [printAST] converts. *)
Definition compiles (r : Rules) (e : string) : Prop :=
  exists ast pb, Compile r (dot_notation e) = inl ast
                 /\ AstToCheckedExpr ast = inl pb.

End CommandLine.

(** ** Instances of the runtime functions, for evaluating the code *)

(** The double quote and the backslash, as one-byte strings. *)
Definition dquote : string := String (ascii_of_nat 34) EmptyString.
Definition backslash : string := String (ascii_of_nat 92) EmptyString.

(** The digit [lowerhex[d]] of strconv. *)
Definition lowerhex (d : Z) : ascii :=
  if d <? 10 then byte_chr (0x30 + d) else byte_chr (0x61 + d - 10).

(** [strconv.Quote] on text without printable non-ASCII runes: a printable
    ASCII byte is kept, the quote and the backslash are escaped, the control
    bytes have their letter escapes, and any other byte is written as [\x]
    and two hex digits. *)
Definition Quote_byte (c : ascii) : string :=
  let b := byte_val c in
  if b =? 34 then backslash ++ dquote
  else if b =? 92 then backslash ++ backslash
  else if (0x20 <=? b) && (b <? 0x7F) then String c EmptyString
  else if b =? 7 then backslash ++ "a"
  else if b =? 8 then backslash ++ "b"
  else if b =? 12 then backslash ++ "f"
  else if b =? 10 then backslash ++ "n"
  else if b =? 13 then backslash ++ "r"
  else if b =? 9 then backslash ++ "t"
  else if b =? 11 then backslash ++ "v"
  else backslash ++ "x"
       ++ String (lowerhex (Z.shiftr b 4)) (String (lowerhex (Z.land b 0xF)) EmptyString).

Definition Quote_ascii (s : string) : string :=
  dquote ++ String.concat EmptyString (map Quote_byte (list_ascii_of_string s))
  ++ dquote.

(** [strings.ToLower], given the case mapping [unicode.ToLower] of the runes
    above [MaxASCII]: an all-ASCII string is lowered byte by byte; any other
    string goes through [strings.Map], which decodes it rune by rune, maps
    every rune and writes the results (an invalid byte decodes to
    [RuneError]; a negative result is dropped). *)
Module strings.

Definition isASCII (s : string) : bool :=
  forallb (fun b => b <? utf8.RuneSelf) (to_bytes s).

Definition Map (mapping : rune -> rune) (s : string) : string :=
  fold_left (fun sb r => if 0 <=? mapping r then WriteRune sb (mapping r) else sb)
            (runes_of_string s) EmptyString.

Definition ToLower (lower_table : rune -> rune) (s : string) : string :=
  if isASCII s then
    of_bytes (map unicode.ToLower_ascii (to_bytes s))
  else
    Map (fun r => if r <=? unicode.MaxASCII then unicode.ToLower_ascii r
                  else lower_table r) s.

End strings.

(** The rows of [unicode.CaseRanges] for the Latin-1 letters U+00C0..U+00DE
    (lower case is 32 above, U+00D7 is not a letter).  Runes of the other
    rows are left as they are, so [ToLower_latin1] is [strings.ToLower] on
    ASCII and Latin-1 text. *)
Definition latin1_lower (r : rune) : rune :=
  if ((0xC0 <=? r) && (r <=? 0xD6)) || ((0xD8 <=? r) && (r <=? 0xDE))
  then r + 32 else r.

Definition ToLower_latin1 : string -> string := strings.ToLower latin1_lower.

(** Lowering of the ASCII letters only, byte by byte: the lowercasing the
    specification has in mind for header names. *)
Definition ToLower_ascii_only (s : string) : string :=
  of_bytes (map unicode.ToLower_ascii (to_bytes s)).


(** ** Definitions that follow the specification's wording *)

(** Percent-decoding as the specification words it, with the treatment of
    [+] left open: [plus] is the byte a literal [+] decodes to.  A
    well-formed [%XY] decodes to its byte, [+] to [plus], any other byte to
    itself; a string with a malformed escape has no decoding. *)
Inductive percent_decoded (plus : ascii) : string -> string -> Prop :=
| pd_empty : percent_decoded plus EmptyString EmptyString
| pd_escape (x y : ascii) (s t : string) :
    url.ishex x = true -> url.ishex y = true ->
    percent_decoded plus s t ->
    percent_decoded plus
      (String "%" (String x (String y s)))
      (String (byte_chr (16 * url.unhex x + url.unhex y)) t)
| pd_plus (s t : string) :
    percent_decoded plus s t ->
    percent_decoded plus (String "+" s) (String plus t)
| pd_other (c : ascii) (s t : string) :
    c <> "%"%char -> c <> "+"%char ->
    percent_decoded plus s t ->
    percent_decoded plus (String c s) (String c t).

(** The verdict of one test case, in the words of the verdict engine. *)
Definition PASS (name : string) : TestStatus :=
  {| TestStatus_Name := name; Pass := true; Fail := "" |}.
Definition FAIL (name reason : string) : TestStatus :=
  {| TestStatus_Name := name; Pass := false; Fail := reason |}.

Definition verdict (Quote : string -> string) (prg : Program) (tc : TestCase)
  : TestStatus :=
  match prg (When tc) with
  | (_, Some raised) =>
      if String.eqb (ExpectError tc) "" then FAIL (TestCase_Name tc) raised
      else if Contains raised (ExpectError tc) then PASS (TestCase_Name tc)
      else FAIL (TestCase_Name tc)
             ("got error " ++ Quote raised ++ ", wanted error containing "
              ++ Quote (ExpectError tc))
  | (out, None) =>
      match out with
      | types_Bool b =>
          if Bool.eqb b (ExpectOutput tc) then PASS (TestCase_Name tc)
          else FAIL (TestCase_Name tc)
                 ("expected result " ++ fmt_bool (ExpectOutput tc)
                  ++ ", got " ++ fmt_bool b)
      | _ =>
          FAIL (TestCase_Name tc)
            ("expected result " ++ fmt_bool (ExpectOutput tc)
             ++ ", got " ++ fmt_v out)
      end
  end.

(** The [%u] rendering of a code point, in the words of the specification:
    the hex digit at position [k] (from the right) of [v] is
    [(v / 16^k) mod 16]; the four low digits always, the fifth above
    [0xffff], the sixth above [0xfffff]. *)
Definition hex_digit_at (v : Z) (k : Z) : ascii := lowerhex ((v / 16 ^ k) mod 16).

Definition percent_u (v : rune) : string :=
  "%u"
  ++ (if 0xfffff <? v then String (hex_digit_at v 5) EmptyString else EmptyString)
  ++ (if 0xffff <? v then String (hex_digit_at v 4) EmptyString else EmptyString)
  ++ String (hex_digit_at v 3) (String (hex_digit_at v 2)
       (String (hex_digit_at v 1) (String (hex_digit_at v 0) EmptyString))).

(** The rendering of one rune of a range over a string, in the words of
    the specification: a code point below 0x80 is its own byte, any other
    one is rendered by [percent_u]. *)
Definition render_rune (v : rune) : string :=
  if v <? 0x80 then String (byte_chr v) EmptyString else percent_u v.

(** What one pass of the loop of [utf8ToUnicodeString] appends for an
    arbitrary value [v] (lemma [utf8ToUnicode_body_escape]).  The values
    the function hands to [WriteRune] are those below 0x80, those from
    0xD800 to 0xDFFF and those from 0x110000 on; for the last two
    [WriteRune] writes the three bytes of U+FFFD, not the value. *)
Definition passed_to_WriteRune (v : rune) : bool :=
  (v <? 0x80) || ((0xD800 <=? v) && (v <=? 0xDFFF)) || (0x110000 <=? v).

Definition escape_rune (v : rune) : string :=
  if passed_to_WriteRune v then WriteRune EmptyString v else percent_u v.

(** The argument shapes the presence macro recognises: a field selection,
    and a global call of the index operator on exactly two arguments whose
    second one is a string literal.  The result is the operand and the field
    name of the presence test. *)
Definition presence_shape (arg : ast.Expr) : option (ast.Expr * string) :=
  match arg with
  | ast.Select operand field _ => Some (operand, field)
  | ast.Call None function [obj; ast.Literal (ast.StringValue key)] =>
      if String.eqb function operators_Index then Some (obj, key) else None
  | _ => None
  end.

(** ASCII-only case folding of a code point, as the specification states it
    for [upper] and [lower]. *)
Definition fold_upper (r : rune) : rune :=
  if r <=? unicode.MaxASCII then unicode.ToUpper_ascii r else r.
Definition fold_lower (r : rune) : rune :=
  if r <=? unicode.MaxASCII then unicode.ToLower_ascii r else r.

(** A test case that declares an expected boolean of true together with a
    non-empty expected error. *)
Definition conflicting (t : TestCase) : Prop :=
  ExpectOutput t = true /\ ExpectError t <> "".

(** The header map [SafeVariables] works on: that of the request, empty
    when the request or its map is nil. *)
Definition headers_of (v : Variables) : gmap string string :=
  default ∅ (Headers (default Request_zero (Variables_Request v))).

(** No two distinct keys of [m] are equal after lowering with [lower]. *)
Definition collision_free (lower : string -> string) (m : gmap string string)
  : Prop :=
  forall k1 k2, is_Some (m !! k1) -> is_Some (m !! k2) ->
    lower k1 = lower k2 -> k1 = k2.

(** Lowering a lowered key of [m] changes nothing (as [strings.ToLower]
    does on every string). *)
Definition lowering_stable (lower : string -> string) (m : gmap string string)
  : Prop :=
  forall k, is_Some (m !! k) -> lower (lower k) = lower k.

(** With every key, [m] holds the lowered key with the same value. *)
Definition lower_closed (lower : string -> string) (m : gmap string string)
  : Prop :=
  forall j v, m !! j = Some v -> m !! lower j = Some v.

(** The state [m] of the loop of [lower_keys] on the map [h] once the keys
    [visited] have had their turn. *)
Record lowering (lower : string -> string) (h : gmap string string)
  (visited : list string) (m : gmap string string) : Prop := {
  lw_keeps : forall k v, h !! k = Some v -> m !! k = Some v;
  lw_origin : forall j v, m !! j = Some v ->
    exists k, h !! k = Some v /\ (j = k \/ j = lower k);
  lw_done : forall k v, k ∈ visited -> h !! k = Some v ->
    m !! lower k = Some v
}.

(** ** Further definitions used in the statements *)

(** Byte values below [utf8.RuneSelf]. *)
Definition ascii_bytes (l : list Z) : Prop := Forall (fun b => 0 <= b < 0x80) l.

(** The code points [urlDecodeUni] reads back from their rendering by
    [utf8ToUnicode]: those of the basic plane, the percent and plus signs
    excepted, which it takes for the start of an escape and for a space. *)
Definition read_back (r : rune) : Prop :=
  r < 0x10000 /\ r <> 0x25 /\ r <> 0x2B.

(** Variables none of whose sub-records is nil, the header map
    included. *)
Definition no_nil (v : Variables) : Prop :=
  exists r o e a s m,
    Variables_Request v = Some r /\ Variables_Origin v = Some o
    /\ Variables_Token v
       = Some {| Token_RecaptchaExemption := Some e;
                 Token_RecaptchaAction := Some a;
                 Token_RecaptchaSession := Some s |}
    /\ Headers r = Some m.

(** The line [main] writes for a case that is reported as passed. *)
Definition pass_line (suite name : string) : string :=
  "PASS " ++ suite ++ "/" ++ name ++ newline.

(** A test case whose activation can be resolved: it is there, and
    [ResolveName] returns on every name. *)
Definition resolvable (t : TestCase) : Prop :=
  exists v, When t = Some v
            /\ forall name, exists value found,
                 ResolveName v name = Return (value, found).

(** The two replacements of [newAST], applied whatever the expression
    mentions. *)
Definition bracket_to_dot (expr : string) : string :=
  ReplaceAll (ReplaceAll expr "['" ".") "']" "".

(** Text without an opening bracket and without a single quote. *)
Definition plain (s : string) : Prop :=
  Forall (fun c => c <> "["%char /\ c <> "'"%char) (list_ascii_of_string s).

(** The zero value of a scalar attribute. *)
Definition zero_value (a : any) : Prop :=
  a = any_string "" \/ a = any_int64 0 \/ a = any_float64 0
  \/ a = any_bool false.

(** ** Inputs used in the examples *)

(** Variables whose request carries the header map [h]. *)
Definition request_with (h : gmap string string) : Variables :=
  {| Variables_Request :=
       Some {| Method := "GET"; Headers := Some h; Path := "/search";
               Query := "q=google%21"; Scheme := "https" |};
     Variables_Origin := None; Variables_Token := None |}.

Definition user_agent_headers : gmap string string :=
  {[ "User-Agent" := "Mozilla/5.0" ]}.

(** The keys [Éa], [éA] and [éa] in UTF-8. *)
Definition key_Ea : string := of_bytes [0xC3; 0x89; 0x61].
Definition key_eA : string := of_bytes [0xC3; 0xA9; 0x41].
Definition key_ea : string := of_bytes [0xC3; 0xA9; 0x61].

Definition latin1_headers : gmap string string :=
  <[key_Ea := "1"]> (<[key_eA := "2"]> ∅).

(** The suite of the specification's end-to-end scenario: one case,
    expected to hold. *)
Definition http_case : TestCase :=
  {| TestCase_Name := "request-method-matches";
     When := Some {| Variables_Request :=
                       Some {| Method := "GET"; Headers := None;
                               Path := ""; Query := ""; Scheme := "" |};
                     Variables_Origin := None;
                     Variables_Token := None |};
     ExpectOutput := true; ExpectError := "" |}.

Definition http_tests : TestSuite :=
  {| TestSuite_Name := "http-tests"; Expr := "request.method == 'GET'";
     Tests := [Some http_case] |}.

(** [yaml.Unmarshal] on the document of [http_tests]. *)
Definition Unmarshal_http_tests (yamlBytes : string)
  : option TestSuite + string :=
  inl (Some http_tests).







(** An environment for running the command line on examples: an
    expression compiles when it starts with [request], the protocol buffer
    of an expression is rendered as the expression itself, every program
    evaluates to true, and the file system holds one file of
    expressions. *)
Definition Compile_example (r : unit) (e : string) : string + string :=
  if String.prefix "request" e then inl e
  else inr ("undeclared reference in " ++ e).

Definition Program_example (r : unit) (ast : string) : Program + string :=
  inl (fun _ => (types_Bool true, None)).

Definition exprs_file : string :=
  "request.path == '/a';" ++ newline ++ "origin.ip == '::1';" ++ newline
  ++ "request.method == 'GET'".

(** [strings.TrimSpace] on ASCII text: the white space bytes are the tab,
    the line feed, the vertical tab, the form feed, the carriage return and
    the space. *)
Definition asciiSpace (c : ascii) : bool :=
  let b := byte_val c in ((9 <=? b) && (b <=? 13)) || (b =? 32).

Fixpoint trim_left (s : string) : string :=
  match s with
  | EmptyString => EmptyString
  | String c s' => if asciiSpace c then trim_left s' else s
  end.

Fixpoint trim_right (s : string) : string :=
  match s with
  | EmptyString => EmptyString
  | String c s' =>
      match trim_right s' with
      | EmptyString => if asciiSpace c then EmptyString else String c EmptyString
      | t => String c t
      end
  end.

Definition TrimSpace_ascii (s : string) : string := trim_right (trim_left s).

Definition NewRules_example (version : Z) : unit + string := inl tt.
Definition AstToCheckedExpr_example (ast : string) : string + string :=
  inl ast.
Definition Format_example (pb : string) : string := pb.
Definition OpenFile_example (name : string) : string + string :=
  inl exprs_file.
Definition ReadAll_example (f : string) : string + string := inl f.
Definition ReadFile_example (name : string) : string + string :=
  inl EmptyString.

(** The flags of a run in the test mode. *)
Definition test_mode_options : options :=
  {| expr := ""; file := ""; test := "suite.yaml"; outputFormat := "";
     version := "VCurrent"; verbose := false |}.

(** ** Proof helpers *)

(** The sixteen values of a hex digit. *)
Ltac hex_cases H :=
  destruct H as
    [->|[->|[->|[->|[->|[->|[->|[->|[->|[->|[->|[->|[->|[->|[->| ->]]]]]]]]]]]]]]].

(** The keys of a map written with [insert] on the empty map. *)
Ltac keys_of H :=
  repeat (apply lookup_insert_is_Some in H; destruct H as [H|[_ H]];
          [subst|]);
  try (apply lookup_empty_is_Some in H; contradiction).

(** Membership in a list of closed strings that does not hold. *)
Ltac not_among :=
  let H := fresh in
  intros H;
  repeat (apply elem_of_cons in H; destruct H as [H|H]; [discriminate|]);
  inversion H.

(** * Properties *)

(** ** Bytes and strings *)

Lemma byte_val_range (c : ascii) : 0 <= byte_val c < 256.
Proof.
  unfold byte_val. pose proof (N_ascii_bounded c). lia.
Qed.

Lemma byte_chr_val (c : ascii) : byte_chr (byte_val c) = c.
Proof.
  unfold byte_chr, byte_val. pose proof (N_ascii_bounded c).
  rewrite Z.mod_small by lia. rewrite N2Z.id. apply ascii_N_embedding.
Qed.

Lemma byte_val_chr (x : Z) : 0 <= x < 256 -> byte_val (byte_chr x) = x.
Proof.
  intros Hx. unfold byte_chr, byte_val. rewrite Z.mod_small by lia.
  rewrite N_ascii_embedding by lia. lia.
Qed.

Lemma to_bytes_cons (c : ascii) (s : string) :
  to_bytes (String c s) = byte_val c :: to_bytes s.
Proof. reflexivity. Qed.

Lemma str_app_assoc (a b c : string) : (a ++ b) ++ c = a ++ (b ++ c).
Proof.
  induction a as [|x a IH]; [reflexivity|].
  change (String x ((a ++ b) ++ c) = String x (a ++ (b ++ c))).
  now rewrite IH.
Qed.

Lemma str_app_nil_r (a : string) : a ++ "" = a.
Proof.
  induction a as [|x a IH]; [reflexivity|].
  change (String x (a ++ "") = String x a). now rewrite IH.
Qed.

Lemma get_some_lt (s : string) : forall (i : nat) (c : ascii),
  String.get i s = Some c -> (i < String.length s)%nat.
Proof.
  induction s as [|x s IH]; intros i c H; [discriminate|].
  destruct i as [|i]; cbn in *; [lia|]. apply IH in H. lia.
Qed.

Lemma get_lt_some (s : string) : forall i : nat,
  (i < String.length s)%nat -> exists c, String.get i s = Some c.
Proof.
  induction s as [|x s IH]; intros i H; [cbn in H; lia|].
  destruct i as [|i]; cbn in *; [eauto|]. apply IH. lia.
Qed.

Lemma str_drop_get (s : string) : forall (i : nat) (c : ascii),
  String.get i s = Some c -> str_drop i s = String c (str_drop (S i) s).
Proof.
  induction s as [|x s IH]; intros i c H; [discriminate|].
  destruct i as [|i]; cbn in *.
  - injection H as ->. now destruct s.
  - now apply IH.
Qed.

Lemma str_take_length (s : string) : forall n : nat,
  (n <= String.length s)%nat -> String.length (str_take n s) = n.
Proof.
  induction s as [|x s IH]; intros [|n] H; cbn in *; try lia.
  rewrite IH; lia.
Qed.

Lemma str_drop_length (s : string) : forall n : nat,
  String.length (str_drop n s) = (String.length s - n)%nat.
Proof.
  induction s as [|x s IH]; intros [|n]; cbn; try reflexivity. apply IH.
Qed.

Lemma str_slice_length (s : string) (i j : nat) :
  (i <= j)%nat -> (j <= String.length s)%nat ->
  String.length (str_slice i j s) = (j - i)%nat.
Proof.
  intros Hij Hj. unfold str_slice. apply str_take_length.
  rewrite str_drop_length. lia.
Qed.

Lemma slice_in_range (s : string) (i j : nat) :
  (i <= j)%nat -> (j <= String.length s)%nat ->
  slice s i j = Return (str_slice i j s).
Proof.
  intros Hij Hj. unfold slice.
  destruct (Nat.leb_spec i j); [|lia].
  destruct (Nat.leb_spec j (String.length s)); [|lia]. reflexivity.
Qed.

Lemma index_get (s : string) (i : nat) (c : ascii) :
  String.get i s = Some c -> index s i = Return c.
Proof. intros H. unfold index. now rewrite H. Qed.

Lemma below_16_cases (d : Z) : 0 <= d < 16 ->
  d = 0 \/ d = 1 \/ d = 2 \/ d = 3 \/ d = 4 \/ d = 5 \/ d = 6 \/ d = 7 \/
  d = 8 \/ d = 9 \/ d = 10 \/ d = 11 \/ d = 12 \/ d = 13 \/ d = 14 \/ d = 15.
Proof. lia. Qed.

(** ** unicode/utf8: the decoded runes *)

(** A bitwise or of a multiple of [2^k] and a value below [2^k] is their
    sum. *)
Lemma lor_disjoint (hi lo k : Z) :
  0 <= k -> 0 <= lo < 2 ^ k -> hi mod 2 ^ k = 0 -> Z.lor hi lo = hi + lo.
Proof.
  intros Hk Hlo Hhi. symmetry. apply Z.add_nocarry_lor.
  apply Z.bits_inj'. intros n Hn. rewrite Z.land_spec, Z.bits_0.
  destruct (Z.ltb_spec n k).
  - replace hi with (hi / 2 ^ k * 2 ^ k).
    + rewrite Z.mul_pow2_bits_low by lia. reflexivity.
    + pose proof (Z.div_mod hi (2 ^ k) ltac:(lia)). lia.
  - destruct (Z.eq_dec lo 0) as [->|Hne].
    + rewrite Z.bits_0. apply andb_false_r.
    + rewrite (Z.bits_above_log2 lo n), andb_false_r; [reflexivity|lia|].
      apply Z.lt_le_trans with k; [|assumption].
      apply Z.log2_lt_pow2; lia.
Qed.

Lemma land_low (x k : Z) : 0 <= k -> Z.land x (2 ^ k - 1) = x mod 2 ^ k.
Proof.
  intros Hk. rewrite <- Z.land_ones by assumption. f_equal.
  rewrite Z.ones_equiv. lia.
Qed.

(** The composite values of the decoder as sums. *)
Lemma decode2_value (s0 s1 : Z) :
  Z.lor (Z.shiftl (Z.land s0 0x1F) 6) (Z.land s1 0x3F)
  = (s0 mod 32) * 64 + s1 mod 64.
Proof.
  change 0x1F with (2 ^ 5 - 1). change 0x3F with (2 ^ 6 - 1).
  rewrite !land_low by lia. rewrite Z.shiftl_mul_pow2 by lia.
  apply (lor_disjoint _ _ 6); [lia | apply Z.mod_pos_bound; lia |].
  apply Z.mod_mul. lia.
Qed.

Lemma decode3_value (s0 s1 s2 : Z) :
  Z.lor (Z.lor (Z.shiftl (Z.land s0 0x0F) 12) (Z.shiftl (Z.land s1 0x3F) 6))
        (Z.land s2 0x3F)
  = (s0 mod 16) * 4096 + (s1 mod 64) * 64 + s2 mod 64.
Proof.
  change 0x0F with (2 ^ 4 - 1). change 0x3F with (2 ^ 6 - 1).
  rewrite !land_low by lia. rewrite !Z.shiftl_mul_pow2 by lia.
  pose proof (Z.mod_pos_bound s1 (2 ^ 6) ltac:(lia)).
  pose proof (Z.mod_pos_bound s2 (2 ^ 6) ltac:(lia)).
  rewrite (lor_disjoint (s0 mod 2 ^ 4 * 2 ^ 12) _ 12);
    [| lia | change (2 ^ 12) with 4096 in *; change (2 ^ 6) with 64 in *; lia
     | apply Z.mod_mul; lia].
  rewrite (lor_disjoint _ (s2 mod 2 ^ 6) 6); [| lia | lia |].
  - change (2 ^ 4) with 16. change (2 ^ 6) with 64. change (2 ^ 12) with 4096.
    lia.
  - replace (s0 mod 2 ^ 4 * 2 ^ 12 + s1 mod 2 ^ 6 * 2 ^ 6)
      with ((s0 mod 2 ^ 4 * 2 ^ 6 + s1 mod 2 ^ 6) * 2 ^ 6)
      by (change (2 ^ 12) with (2 ^ 6 * 2 ^ 6); ring).
    apply Z.mod_mul. lia.
Qed.

Lemma decode4_value (s0 s1 s2 s3 : Z) :
  Z.lor (Z.lor (Z.lor (Z.shiftl (Z.land s0 0x07) 18)
                      (Z.shiftl (Z.land s1 0x3F) 12))
               (Z.shiftl (Z.land s2 0x3F) 6))
        (Z.land s3 0x3F)
  = (s0 mod 8) * 262144 + (s1 mod 64) * 4096 + (s2 mod 64) * 64 + s3 mod 64.
Proof.
  change 0x07 with (2 ^ 3 - 1). change 0x3F with (2 ^ 6 - 1).
  rewrite !land_low by lia. rewrite !Z.shiftl_mul_pow2 by lia.
  pose proof (Z.mod_pos_bound s1 (2 ^ 6) ltac:(lia)).
  pose proof (Z.mod_pos_bound s2 (2 ^ 6) ltac:(lia)).
  pose proof (Z.mod_pos_bound s3 (2 ^ 6) ltac:(lia)).
  rewrite (lor_disjoint (s0 mod 2 ^ 3 * 2 ^ 18) _ 18);
    [| lia | change (2 ^ 18) with 262144 in *; change (2 ^ 12) with 4096 in *;
             change (2 ^ 6) with 64 in *; lia
     | apply Z.mod_mul; lia].
  rewrite (lor_disjoint _ (s2 mod 2 ^ 6 * 2 ^ 6) 12);
    [| lia | change (2 ^ 12) with 4096 in *; change (2 ^ 6) with 64 in *; lia |].
  2: { replace (s0 mod 2 ^ 3 * 2 ^ 18 + s1 mod 2 ^ 6 * 2 ^ 12)
         with ((s0 mod 2 ^ 3 * 2 ^ 6 + s1 mod 2 ^ 6) * 2 ^ 12)
         by (change (2 ^ 18) with (2 ^ 6 * 2 ^ 12); ring).
       apply Z.mod_mul. lia. }
  rewrite (lor_disjoint _ (s3 mod 2 ^ 6) 6); [| lia | lia |].
  - change (2 ^ 3) with 8. change (2 ^ 6) with 64. change (2 ^ 12) with 4096.
    change (2 ^ 18) with 262144. lia.
  - replace (s0 mod 2 ^ 3 * 2 ^ 18 + s1 mod 2 ^ 6 * 2 ^ 12 + s2 mod 2 ^ 6 * 2 ^ 6)
      with ((s0 mod 2 ^ 3 * 2 ^ 12 + s1 mod 2 ^ 6 * 2 ^ 6 + s2 mod 2 ^ 6) * 2 ^ 6)
      by (change (2 ^ 18) with (2 ^ 12 * 2 ^ 6);
          change (2 ^ 12) with (2 ^ 6 * 2 ^ 6); ring).
    apply Z.mod_mul. lia.
Qed.

Lemma to_bytes_range (s : string) :
  Forall (fun b => 0 <= b < 256) (to_bytes s).
Proof.
  induction s as [|c s IH]; [constructor|].
  constructor; [|exact IH].
  unfold byte_val. pose proof (N_ascii_bounded c). lia.
Qed.

(** What the table [first] says of a leading byte. *)
Lemma first_cases (s0 : Z) (sz : nat) (lo hi : Z) :
  utf8.first s0 = Some (sz, lo, hi) ->
  (sz = 2%nat /\ 0xC2 <= s0 <= 0xDF /\ lo = 0x80 /\ hi = 0xBF)
  \/ (sz = 3%nat /\ s0 = 0xE0 /\ lo = 0xA0 /\ hi = 0xBF)
  \/ (sz = 3%nat /\ 0xE1 <= s0 <= 0xEF /\ s0 <> 0xED /\ lo = 0x80 /\ hi = 0xBF)
  \/ (sz = 3%nat /\ s0 = 0xED /\ lo = 0x80 /\ hi = 0x9F)
  \/ (sz = 4%nat /\ s0 = 0xF0 /\ lo = 0x90 /\ hi = 0xBF)
  \/ (sz = 4%nat /\ 0xF1 <= s0 <= 0xF3 /\ lo = 0x80 /\ hi = 0xBF)
  \/ (sz = 4%nat /\ s0 = 0xF4 /\ lo = 0x80 /\ hi = 0x8F).
Proof.
  unfold utf8.first.
  repeat match goal with
         | |- context [if ?c then _ else _] => destruct c eqn:?
         end; intros [= <- <- <-]; lia.
Qed.

Lemma ValidRune_iff (r : rune) :
  strconv.ValidRune r = true
  <-> (0 <= r < 0xD800) \/ (0xDFFF < r <= 0x10FFFF).
Proof.
  unfold strconv.ValidRune, utf8.surrogateMin, utf8.surrogateMax, utf8.MaxRune.
  rewrite orb_true_iff, !andb_true_iff. lia.
Qed.

(** A decoded rune is a Unicode scalar value, and the width is that of a
    sequence present in the string. *)
Lemma DecodeRuneInString_valid (s : string) (r : rune) (w : nat) :
  utf8.DecodeRuneInString s = (r, w) ->
  strconv.ValidRune r = true
  /\ (w <= String.length s)%nat
  /\ (s <> EmptyString -> (1 <= w)%nat).
Proof.
  assert (Herr : strconv.ValidRune utf8.RuneError = true) by reflexivity.
  assert (Hlen : String.length s = length (to_bytes s)).
  { induction s as [|c s IH]; [reflexivity|]. cbn. now rewrite IH. }
  pose proof (to_bytes_range s) as Hrange.
  unfold utf8.DecodeRuneInString. rewrite Hlen.
  destruct (to_bytes s) as [|s0 tl] eqn:Hbytes.
  { intros [= <- <-]. repeat split; [lia|]. destruct s; [congruence|discriminate]. }
  apply Forall_cons in Hrange. destruct Hrange as [H0 Hrange].
  assert (Hfail : forall r w, (utf8.RuneError, 1%nat) = (r, w) ->
    strconv.ValidRune r = true /\ (w <= length (s0 :: tl))%nat
    /\ (s <> EmptyString -> (1 <= w)%nat)).
  { intros r' w' [= <- <-]. cbn [length]. repeat split; lia. }
  destruct (Z.ltb_spec s0 utf8.RuneSelf) as [Hascii|Hhigh].
  { intros [= <- <-]. split; [|cbn [length]; split; lia].
    apply ValidRune_iff. unfold utf8.RuneSelf in Hascii. lia. }
  destruct (utf8.first s0) as [[[sz lo] hi]|] eqn:Hfirst; [|apply Hfail].
  apply first_cases in Hfirst.
  destruct (length (s0 :: tl) <? sz)%nat eqn:Hshort; [apply Hfail|].
  apply Nat.ltb_ge in Hshort.
  destruct tl as [|s1 tl1]; [apply Hfail|].
  apply Forall_cons in Hrange. destruct Hrange as [H1 Hrange].
  destruct ((s1 <? lo) || (hi <? s1)) eqn:Hs1; [apply Hfail|].
  apply orb_false_iff in Hs1. destruct Hs1 as [Hs1lo Hs1hi].
  apply Z.ltb_ge in Hs1lo, Hs1hi.
  destruct (sz <=? 2)%nat eqn:Hsz2.
  { apply Nat.leb_le in Hsz2.
    intros [= <- <-]. split; [|cbn [length] in *; split; lia].
    rewrite decode2_value. apply ValidRune_iff.
    destruct Hfirst as [H|[H|[H|[H|[H|[H|H]]]]]]; try lia.
    Z.div_mod_to_equations. lia. }
  apply Nat.leb_gt in Hsz2.
  destruct tl1 as [|s2 tl2]; [apply Hfail|].
  apply Forall_cons in Hrange. destruct Hrange as [H2 Hrange].
  destruct (utf8.continuation s2) eqn:Hs2; cbn [negb]; [|apply Hfail].
  unfold utf8.continuation in Hs2. apply andb_true_iff in Hs2.
  destruct Hs2 as [Hs2lo Hs2hi]. apply Z.leb_le in Hs2lo, Hs2hi.
  destruct (sz <=? 3)%nat eqn:Hsz3.
  { apply Nat.leb_le in Hsz3.
    intros [= <- <-]. split; [|cbn [length] in *; split; lia].
    rewrite decode3_value. apply ValidRune_iff.
    destruct Hfirst as [H|[H|[H|[H|[H|[H|H]]]]]]; try lia;
      Z.div_mod_to_equations; lia. }
  apply Nat.leb_gt in Hsz3.
  destruct tl2 as [|s3 tl3]; [apply Hfail|].
  apply Forall_cons in Hrange. destruct Hrange as [H3 Hrange].
  destruct (utf8.continuation s3) eqn:Hs3; cbn [negb]; [|apply Hfail].
  unfold utf8.continuation in Hs3. apply andb_true_iff in Hs3.
  destruct Hs3 as [Hs3lo Hs3hi]. apply Z.leb_le in Hs3lo, Hs3hi.
  intros [= <- <-]. split; [|cbn [length] in *; split; lia].
  rewrite decode4_value. apply ValidRune_iff.
  destruct Hfirst as [H|[H|[H|[H|[H|[H|H]]]]]]; try lia;
    Z.div_mod_to_equations; lia.
Qed.

Lemma range_string_from_valid (fuel : nat) : forall (i : nat) (s : string),
  Forall (fun ir => strconv.ValidRune (snd ir) = true)
         (range_string_from fuel i s).
Proof.
  induction fuel as [|fuel IH]; intros i s; [constructor|].
  cbn [range_string_from]. destruct s as [|c s]; [constructor|].
  destruct (utf8.DecodeRuneInString (String c s)) as [r w] eqn:Hd.
  constructor; [|apply IH].
  now apply DecodeRuneInString_valid in Hd.
Qed.

(** Every code point that [range] or [[]rune(s)] yields from a string is a
    Unicode scalar value: never a surrogate, never above [MaxRune].  An
    invalid byte yields [RuneError]. *)
Theorem runes_of_string_valid (s : string) :
  Forall (fun r => strconv.ValidRune r = true) (runes_of_string s).
Proof.
  unfold runes_of_string, range_string.
  induction (range_string_from_valid (String.length s) 0 s); constructor;
    assumption.
Qed.

Lemma to_bytes_of_bytes (l : list Z) :
  Forall (fun b => 0 <= b < 256) l -> to_bytes (of_bytes l) = l.
Proof.
  induction 1 as [|b l Hb Hl IH]; [reflexivity|].
  cbn [of_bytes map string_of_list_ascii]. rewrite to_bytes_cons.
  rewrite byte_val_chr by assumption. f_equal. exact IH.
Qed.

Lemma encode2_bytes (r : Z) : 0 <= r <= 0x7FF ->
  Z.lor 0xC0 (Z.shiftr r 6) = 0xC0 + r / 64
  /\ Z.lor 0x80 (Z.land r 0x3F) = 0x80 + r mod 64.
Proof.
  intros Hr. rewrite Z.shiftr_div_pow2 by lia. change (2 ^ 6) with 64.
  change 0x3F with (2 ^ 6 - 1). rewrite land_low by lia. change (2 ^ 6) with 64.
  split.
  - apply (lor_disjoint _ _ 6); [lia | | reflexivity].
    change (2 ^ 6) with 64. Z.div_mod_to_equations. lia.
  - apply (lor_disjoint _ _ 6); [lia | | reflexivity].
    change (2 ^ 6) with 64. Z.div_mod_to_equations. lia.
Qed.

Lemma encode_cont_byte (x : Z) :
  Z.lor 0x80 (Z.land x 0x3F) = 0x80 + x mod 64.
Proof.
  change 0x3F with (2 ^ 6 - 1). rewrite land_low by lia. change (2 ^ 6) with 64.
  apply (lor_disjoint _ _ 6); [lia | | reflexivity].
  change (2 ^ 6) with 64. Z.div_mod_to_equations. lia.
Qed.

Lemma encode_lead3 (r : Z) : 0 <= r <= 0xFFFF ->
  Z.lor 0xE0 (Z.shiftr r 12) = 0xE0 + r / 4096.
Proof.
  intros Hr. rewrite Z.shiftr_div_pow2 by lia. change (2 ^ 12) with 4096.
  apply (lor_disjoint _ _ 4); [lia | | reflexivity].
  change (2 ^ 4) with 16. Z.div_mod_to_equations. lia.
Qed.

Lemma encode_lead4 (r : Z) : 0 <= r <= 0x10FFFF ->
  Z.lor 0xF0 (Z.shiftr r 18) = 0xF0 + r / 262144.
Proof.
  intros Hr. rewrite Z.shiftr_div_pow2 by lia. change (2 ^ 18) with 262144.
  apply (lor_disjoint _ _ 3); [lia | | reflexivity].
  change (2 ^ 3) with 8. Z.div_mod_to_equations. lia.
Qed.

(** The encoding of a scalar value: its bytes, as sums. *)
Lemma EncodeRune_bytes (r : rune) : strconv.ValidRune r = true ->
  (r <= 0x7F /\ utf8.EncodeRune r = [r])
  \/ (0x80 <= r <= 0x7FF
      /\ utf8.EncodeRune r = [0xC0 + r / 64; 0x80 + r mod 64])
  \/ (0x800 <= r <= 0xFFFF
      /\ utf8.EncodeRune r
         = [0xE0 + r / 4096; 0x80 + (r / 64) mod 64; 0x80 + r mod 64])
  \/ (0x10000 <= r
      /\ utf8.EncodeRune r
         = [0xF0 + r / 262144; 0x80 + (r / 4096) mod 64;
            0x80 + (r / 64) mod 64; 0x80 + r mod 64]).
Proof.
  intros Hv. apply ValidRune_iff in Hv. unfold utf8.EncodeRune.
  destruct (Z.leb_spec 0 r); [|lia]. cbn [andb].
  destruct (Z.leb_spec r 0x7F). { left. split; [lia|reflexivity]. }
  destruct (Z.leb_spec r 0x7FF).
  { right; left. split; [lia|].
    destruct (encode2_bytes r ltac:(lia)) as [-> ->]. reflexivity. }
  destruct (Z.ltb_spec r 0); [lia|].
  unfold utf8.MaxRune, utf8.surrogateMin, utf8.surrogateMax.
  destruct (Z.ltb_spec 0x10FFFF r); [lia|]. cbn [orb].
  replace ((0xD800 <=? r) && (r <=? 0xDFFF)) with false
    by (symmetry; apply andb_false_iff; lia).
  rewrite !encode_cont_byte.
  destruct (Z.leb_spec r 0xFFFF).
  - right; right; left. split; [lia|].
    rewrite encode_lead3 by lia. rewrite !Z.shiftr_div_pow2 by lia.
    reflexivity.
  - right; right; right. split; [lia|].
    rewrite encode_lead4 by lia. rewrite !Z.shiftr_div_pow2 by lia.
    reflexivity.
Qed.

Lemma EncodeRune_range (r : rune) : strconv.ValidRune r = true ->
  Forall (fun b => 0 <= b < 256) (utf8.EncodeRune r).
Proof.
  intros Hv. pose proof Hv as Hr. apply ValidRune_iff in Hr.
  destruct (EncodeRune_bytes r Hv) as [[H ->]|[[H ->]|[[H ->]|[H ->]]]];
    repeat constructor; Z.div_mod_to_equations; lia.
Qed.

Lemma first_three (s0 : Z) : 0xE0 <= s0 <= 0xEF ->
  utf8.first s0
  = Some (3%nat, if s0 =? 0xE0 then 0xA0 else 0x80,
          if s0 =? 0xED then 0x9F else 0xBF).
Proof.
  intros H. unfold utf8.first.
  repeat match goal with
         | |- context [if ?c then _ else _] =>
             let E := fresh in destruct c eqn:E; try lia
         end; reflexivity.
Qed.

Lemma first_four (s0 : Z) : 0xF0 <= s0 <= 0xF4 ->
  utf8.first s0
  = Some (4%nat, if s0 =? 0xF0 then 0x90 else 0x80,
          if s0 =? 0xF4 then 0x8F else 0xBF).
Proof.
  intros H. unfold utf8.first.
  repeat match goal with
         | |- context [if ?c then _ else _] =>
             let E := fresh in destruct c eqn:E; try lia
         end; reflexivity.
Qed.

Lemma continuation_byte (x : Z) : utf8.continuation (0x80 + x mod 64) = true.
Proof.
  unfold utf8.continuation. apply andb_true_iff.
  split; apply Z.leb_le; Z.div_mod_to_equations; lia.
Qed.

(** Decoding the encoding of a scalar value gives the value back. *)
Theorem DecodeRune_EncodeRune (r : rune) : strconv.ValidRune r = true ->
  utf8.DecodeRuneInString (of_bytes (utf8.EncodeRune r))
  = (r, length (utf8.EncodeRune r)).
Proof.
  intros Hv. pose proof Hv as Hr. apply ValidRune_iff in Hr.
  unfold utf8.DecodeRuneInString.
  rewrite to_bytes_of_bytes by now apply EncodeRune_range.
  destruct (EncodeRune_bytes r Hv) as [[H ->]|[[H ->]|[[H ->]|[H ->]]]].
  - unfold utf8.RuneSelf. destruct (Z.ltb_spec r 0x80); [reflexivity|lia].
  - unfold utf8.RuneSelf.
    destruct (Z.ltb_spec (0xC0 + r / 64) 0x80);
      [Z.div_mod_to_equations; lia|].
    assert (Hf : utf8.first (0xC0 + r / 64) = Some (2%nat, 0x80, 0xBF)).
    { unfold utf8.first.
      destruct (Z.ltb_spec (0xC0 + r / 64) 0xC2);
        [Z.div_mod_to_equations; lia|].
      destruct (Z.leb_spec (0xC0 + r / 64) 0xDF);
        [reflexivity|Z.div_mod_to_equations; lia]. }
    rewrite Hf. cbn [length Nat.ltb Nat.leb].
    replace ((0x80 + r mod 64 <? 0x80) || (0xBF <? 0x80 + r mod 64)) with false
      by (symmetry; apply orb_false_iff; split; apply Z.ltb_ge;
          Z.div_mod_to_equations; lia).
    rewrite decode2_value. f_equal. Z.div_mod_to_equations. lia.
  - unfold utf8.RuneSelf.
    destruct (Z.ltb_spec (0xE0 + r / 4096) 0x80);
      [Z.div_mod_to_equations; lia|].
    rewrite first_three by (Z.div_mod_to_equations; lia).
    cbn [length Nat.ltb Nat.leb].
    replace ((0x80 + (r / 64) mod 64
                <? (if 0xE0 + r / 4096 =? 0xE0 then 0xA0 else 0x80))
             || ((if 0xE0 + r / 4096 =? 0xED then 0x9F else 0xBF)
                   <? 0x80 + (r / 64) mod 64)) with false.
    2: { symmetry. apply orb_false_iff. split; apply Z.ltb_ge.
         - destruct (Z.eqb_spec (0xE0 + r / 4096) 0xE0);
             Z.div_mod_to_equations; lia.
         - destruct (Z.eqb_spec (0xE0 + r / 4096) 0xED);
             Z.div_mod_to_equations; lia. }
    rewrite continuation_byte. cbn [negb].
    rewrite decode3_value. f_equal. Z.div_mod_to_equations. lia.
  - unfold utf8.RuneSelf.
    destruct (Z.ltb_spec (0xF0 + r / 262144) 0x80);
      [Z.div_mod_to_equations; lia|].
    rewrite first_four by (Z.div_mod_to_equations; lia).
    cbn [length Nat.ltb Nat.leb].
    replace ((0x80 + (r / 4096) mod 64
                <? (if 0xF0 + r / 262144 =? 0xF0 then 0x90 else 0x80))
             || ((if 0xF0 + r / 262144 =? 0xF4 then 0x8F else 0xBF)
                   <? 0x80 + (r / 4096) mod 64)) with false.
    2: { symmetry. apply orb_false_iff. split; apply Z.ltb_ge.
         - destruct (Z.eqb_spec (0xF0 + r / 262144) 0xF0);
             Z.div_mod_to_equations; lia.
         - destruct (Z.eqb_spec (0xF0 + r / 262144) 0xF4);
             Z.div_mod_to_equations; lia. }
    rewrite !continuation_byte. cbn [negb].
    rewrite decode4_value. f_equal. Z.div_mod_to_equations. lia.
Qed.

Lemma of_bytes_length (l : list Z) :
  String.length (of_bytes l) = length l.
Proof. induction l as [|b l IH]; [reflexivity|]. cbn. now rewrite <- IH. Qed.

Lemma str_drop_all (s : string) : str_drop (String.length s) s = EmptyString.
Proof. induction s as [|c s IH]; [reflexivity | exact IH]. Qed.

(** The text written for a scalar value is one code point of the output. *)
Lemma runes_of_encoded_rune (r : rune) : strconv.ValidRune r = true ->
  runes_of_string (of_bytes (utf8.EncodeRune r)) = [r].
Proof.
  intros Hv. unfold runes_of_string, range_string.
  pose proof (DecodeRune_EncodeRune r Hv) as Hd.
  pose proof (of_bytes_length (utf8.EncodeRune r)) as Hlen.
  destruct (of_bytes (utf8.EncodeRune r)) as [|c s] eqn:Hs.
  - destruct (EncodeRune_bytes r Hv) as [[H E]|[[H E]|[[H E]|[H E]]]];
      rewrite E in Hlen; discriminate.
  - cbn [String.length range_string_from]. rewrite Hd.
    rewrite <- Hlen. rewrite str_drop_all. cbn [map snd].
    destruct (String.length s); reflexivity.
Qed.

(** What [urlDecodeUni] writes for an accepted [%u] escape decodes as the
    one code point the four hex digits name. *)
Theorem Unquote_u4_one_code_point (x r : string) :
  strconv.Unquote_u4 x = Some r ->
  runes_of_string r = [strconv.hex_value x].
Proof.
  unfold strconv.Unquote_u4.
  destruct ((String.length x =? 4)%nat
            && forallb url.ishex (list_ascii_of_string x)) eqn:E1; [|discriminate].
  destruct (strconv.ValidRune (strconv.hex_value x)) eqn:E2; [|discriminate].
  cbn [andb]. intros [= <-]. now apply runes_of_encoded_rune.
Qed.

Lemma Unquote_u4_one_code_point_witness :
  strconv.Unquote_u4 "0021" = Some "!"
  /\ runes_of_string "!" = [0x21].
Proof.
  split; [reflexivity|].
  exact (Unquote_u4_one_code_point "0021" "!" eq_refl).
Defined.

(** ** [lower] and [upper] *)

(** C3 (the code departs from the claim): [lowerASCII] indexes the rune
    slice with the byte offsets that [range str] yields.  On the bytes
    C3 A9 41 ("é" then "A") the offset of "A" is 2 and the slice has two
    runes, so the call panics; on C3 A9 41 C3 A9 the write lands on the
    second "é", which becomes "a" while "A" stays upper case.  [upperASCII],
    which ranges over the slice itself, folds the same kind of input in
    place. *)
Theorem lowerASCII_indexes_runes_by_byte_offset :
  lowerASCII (of_bytes [0xC3; 0xA9; 0x41]) = Panic
  /\ lowerASCII (of_bytes [0xC3; 0xA9; 0x41; 0xC3; 0xA9])
     = Return (types_String (of_bytes [0xC3; 0xA9; 0x41; 0x61]))
  /\ upperASCII (of_bytes [0xC3; 0xA9; 0x61])
     = Return (types_String (of_bytes [0xC3; 0xA9; 0x41])).
Proof. repeat split; vm_compute; reflexivity. Qed.

(** The loop of [upperASCII] from index [length done] on: the runes already
    passed are folded, the others are still to come. *)
Lemma upperASCII_loop (todo : list rune) : forall done : list rune,
  fold_left
    (fun (st : Go (list rune)) (i : nat) =>
       match st with
       | Panic => Panic
       | Return runes =>
           match runes !! i with
           | None => Panic
           | Some r =>
               if r <=? unicode.MaxASCII
               then Return (<[i := unicode.ToUpper_ascii r]> runes)
               else Return runes
           end
       end)
    (seq (length done) (length todo)) (Return (done ++ todo)%list)
  = Return (done ++ map fold_upper todo)%list.
Proof.
  induction todo as [|r todo IH]; intros done; [reflexivity|].
  cbn [length seq fold_left map].
  rewrite list_lookup_middle by reflexivity.
  specialize (IH (done ++ [fold_upper r])%list).
  rewrite length_app, <- !app_assoc in IH. cbn [length app] in IH.
  replace (length done + 1)%nat with (S (length done)) in IH by lia.
  rewrite <- IH. f_equal.
  unfold fold_upper. destruct (r <=? unicode.MaxASCII); [|reflexivity].
  f_equal. replace (length done) with (length done + 0)%nat at 1 by lia.
  now rewrite insert_app_r.
Qed.

(** [upper] is total: on every string it returns the string of the decoded
    code points, the ASCII letters folded and every other code point in its
    place. *)
Theorem upperASCII_folds (str : string) :
  upperASCII str
  = Return (types_String
              (string_of_runes (map fold_upper (runes_of_string str)))).
Proof.
  unfold upperASCII.
  pose proof (upperASCII_loop (runes_of_string str) []) as H.
  cbn [length app] in H. rewrite H. reflexivity.
Qed.

Lemma DecodeRune_ascii (c : ascii) (s : string) :
  byte_val c < utf8.RuneSelf ->
  utf8.DecodeRuneInString (String c s) = (byte_val c, 1%nat).
Proof.
  intros Hc. unfold utf8.DecodeRuneInString. rewrite to_bytes_cons.
  destruct (Z.ltb_spec (byte_val c) utf8.RuneSelf); [reflexivity | lia].
Qed.

Lemma range_string_ascii (s : string) : forall (fuel i : nat),
  strings.isASCII s = true -> (String.length s <= fuel)%nat ->
  range_string_from fuel i s
  = imap (fun j b => ((i + j)%nat, b)) (to_bytes s).
Proof.
  induction s as [|c s IH]; intros fuel i Hascii Hfuel.
  - destruct fuel; reflexivity.
  - destruct fuel as [|fuel]; [cbn in Hfuel; lia|].
    unfold strings.isASCII in Hascii. rewrite to_bytes_cons in Hascii.
    cbn [forallb] in Hascii. apply andb_true_iff in Hascii.
    destruct Hascii as [Hc Hs]. apply Z.ltb_lt in Hc.
    cbn [range_string_from]. rewrite DecodeRune_ascii by assumption.
    cbn [str_drop]. rewrite to_bytes_cons, imap_cons. 
    rewrite Nat.add_0_r. f_equal.
    rewrite IH; [|assumption|cbn in Hfuel; lia].
    apply imap_ext. intros j x _. cbn. f_equal. lia.
Qed.

(** The loop of [lowerASCII] when the offsets it is given are the indices
    of the runes. *)
Lemma lowerASCII_loop (todo : list rune) : forall done : list rune,
  fold_left
    (fun (st : Go (list rune)) (ir : nat * rune) =>
       match st with
       | Panic => Panic
       | Return runes =>
           let '(i, r) := ir in
           if r <=? unicode.MaxASCII then
             if (i <? length runes)%nat
             then Return (<[i := unicode.ToLower_ascii r]> runes)
             else Panic
           else Return runes
       end)
    (imap (fun j b => ((length done + j)%nat, b)) todo)
    (Return (done ++ todo)%list)
  = Return (done ++ map fold_lower todo)%list.
Proof.
  induction todo as [|r todo IH]; intros done; [reflexivity|].
  rewrite imap_cons. cbn [fold_left map]. rewrite Nat.add_0_r.
  specialize (IH (done ++ [fold_lower r])%list).
  rewrite length_app, <- !app_assoc in IH. cbn [length app] in IH.
  rewrite <- IH. f_equal.
  - apply imap_ext. intros j x _. cbn. f_equal. lia.
  - unfold fold_lower. destruct (r <=? unicode.MaxASCII); [|reflexivity].
    destruct (Nat.ltb_spec (length done) (length (done ++ r :: todo)%list))
      as [_|Hge]; [|rewrite length_app in Hge; cbn in Hge; lia].
    f_equal. replace (length done) with (length done + 0)%nat at 1 by lia.
    now rewrite insert_app_r.
Qed.

Lemma map_snd_imap_pair {A : Type} (l : list A) : forall n : nat,
  map snd (imap (fun j b => ((n + j)%nat, b)) l) = l.
Proof.
  induction l as [|b l IH]; intros n; [reflexivity|].
  rewrite imap_cons. cbn [map snd]. f_equal.
  rewrite <- (IH (S n)) at 2. f_equal. apply imap_ext. intros j x _. cbn.
  f_equal. lia.
Qed.

(** On a string of ASCII bytes, where byte offsets and rune indices agree,
    [lower] returns the string with its ASCII letters folded. *)
Theorem lowerASCII_folds_ascii (str : string) :
  strings.isASCII str = true ->
  lowerASCII str
  = Return (types_String
              (string_of_runes (map fold_lower (runes_of_string str)))).
Proof.
  intros Hascii. unfold lowerASCII, runes_of_string, range_string.
  rewrite (range_string_ascii str _ 0 Hascii (le_n _)).
  rewrite map_snd_imap_pair.
  pose proof (lowerASCII_loop (to_bytes str) []) as H.
  cbn [length app] in H.
  exact (f_equal
           (fun st : Go (list rune) =>
              match st with
              | Panic => Panic
              | Return runes => Return (types_String (string_of_runes runes))
              end) H).
Qed.

Lemma lowerASCII_folds_ascii_witness :
  strings.isASCII "GET" = true
  /\ lowerASCII "GET" = Return (types_String "get").
Proof.
  split; [reflexivity|].
  exact (lowerASCII_folds_ascii "GET" eq_refl).
Defined.

(** ** [utf8ToUnicode] *)

Lemma kHexChar_at_digit (d : Z) : 0 <= d < 16 ->
  kHexChar_at d = Return (byte_val (lowerhex d)).
Proof.
  intros Hd. pose proof (below_16_cases d Hd) as H. hex_cases H; reflexivity.
Qed.

Lemma WriteRune_ascii (sb : string) (r : rune) : 0 <= r < 0x80 ->
  WriteRune sb r = sb ++ String (byte_chr r) EmptyString.
Proof.
  intros Hr. unfold WriteRune, utf8.EncodeRune.
  replace ((0 <=? r) && (r <=? 127)) with true
    by (symmetry; apply andb_true_iff; split; lia).
  reflexivity.
Qed.

Lemma WriteRune_hex (sb : string) (d : Z) : 0 <= d < 16 ->
  WriteRune sb (byte_val (lowerhex d)) = sb ++ String (lowerhex d) EmptyString.
Proof.
  intros Hd. rewrite WriteRune_ascii.
  - now rewrite byte_chr_val.
  - pose proof (below_16_cases d Hd) as H. hex_cases H;
      vm_compute; split; congruence.
Qed.

Lemma nibble_at (v k : Z) : 0 <= k ->
  Z.land (Z.shiftr v (4 * k)) 0xf = (v / 16 ^ k) mod 16.
Proof.
  intros Hk. change 0xf with (Z.ones 4). rewrite Z.land_ones by lia.
  rewrite Z.shiftr_div_pow2 by lia.
  replace (2 ^ (4 * k)) with (16 ^ k); [reflexivity|].
  rewrite Z.pow_mul_r by lia. reflexivity.
Qed.

Lemma nibble_range (v k : Z) : 0 <= (v / 16 ^ k) mod 16 < 16.
Proof. apply Z.mod_pos_bound. lia. Qed.

Lemma write_nibble (sb : string) (v k : Z) : 0 <= k ->
  (c ← kHexChar_at (Z.land (Z.shiftr v (4 * k)) 0xf); mret (WriteRune sb c))
  = Return (sb ++ String (hex_digit_at v k) EmptyString).
Proof.
  intros Hk. rewrite nibble_at by lia.
  rewrite kHexChar_at_digit by apply nibble_range. cbn.
  unfold mret, Go_ret. rewrite WriteRune_hex by apply nibble_range.
  reflexivity.
Qed.

(** [writeHexStr] on the values it is called with. *)
Lemma writeHexStr_percent_u (sb : string) (v : Z) : 0 <= v < 0x110000 ->
  writeHexStr sb v = Return (sb ++ percent_u v).
Proof.
  intros Hv. unfold writeHexStr, percent_u, WriteString.
  assert (H6 : (if 0xfffff <? v
                then c ← kHexChar_at (Z.shiftr v 20); mret (WriteRune (sb ++ "%u") c)
                else mret (sb ++ "%u"))
               = Return ((sb ++ "%u") ++
                   (if 0xfffff <? v then String (hex_digit_at v 5) EmptyString
                    else EmptyString))).
  { destruct (0xfffff <? v) eqn:E.
    - apply Z.ltb_lt in E.
      replace (Z.shiftr v 20) with (Z.land (Z.shiftr v (4 * 5)) 0xf).
      + apply write_nibble. lia.
      + rewrite nibble_at by lia. rewrite Z.shiftr_div_pow2 by lia.
        change (16 ^ 5) with (2 ^ 20). apply Z.mod_small.
        split; [apply Z.div_pos; lia|]. apply Z.div_lt_upper_bound; lia.
    - now rewrite str_app_nil_r. }
  rewrite H6. cbn [mbind Go_bind].
  set (sb1 := (sb ++ "%u") ++ _).
  assert (H5 : (if 0xffff <? v
                then c ← kHexChar_at (Z.land (Z.shiftr v 16) 0xf); mret (WriteRune sb1 c)
                else mret sb1)
               = Return (sb1 ++
                   (if 0xffff <? v then String (hex_digit_at v 4) EmptyString
                    else EmptyString))).
  { destruct (0xffff <? v) eqn:E.
    - change 16 with (4 * 4) at 1. apply write_nibble. lia.
    - now rewrite str_app_nil_r. }
  rewrite H5. cbn [mbind Go_bind].
  set (sb2 := sb1 ++ _).
  change 12 with (4 * 3). change 8 with (4 * 2).
  change (Z.shiftr v 4) with (Z.shiftr v (4 * 1)).
  replace (Z.land v 15) with (Z.land (Z.shiftr v (4 * 0)) 0xf) by reflexivity.
  rewrite !nibble_at by lia.
  rewrite !kHexChar_at_digit by apply nibble_range.
  cbn [mbind Go_bind]. unfold mret, Go_ret.
  rewrite !WriteRune_hex by apply nibble_range.
  f_equal. subst sb2 sb1. unfold hex_digit_at.
  rewrite !str_app_assoc. reflexivity.
Qed.

(** One pass through the body of the loop, for any rune. *)
Lemma utf8ToUnicode_body_escape (sb : string) (r : rune) :
  utf8ToUnicode_body sb r = Return (sb ++ escape_rune r).
Proof.
  unfold utf8ToUnicode_body, escape_rune, passed_to_WriteRune.
  destruct (r <? 0x80) eqn:E1; cbn [orb].
  { reflexivity. }
  apply Z.ltb_ge in E1.
  destruct (r <? 0x800) eqn:E2.
  { apply Z.ltb_lt in E2.
    replace ((0xD800 <=? r) && (r <=? 0xDFFF)) with false
      by (symmetry; apply andb_false_iff; left; lia).
    replace (0x110000 <=? r) with false by (symmetry; lia).
    cbn [orb]. apply writeHexStr_percent_u. lia. }
  apply Z.ltb_ge in E2.
  destruct (r <? 0x10000) eqn:E3.
  { apply Z.ltb_lt in E3.
    destruct ((0xD800 <=? r) && (r <=? 0xDFFF)) eqn:E4; cbn [orb].
    - reflexivity.
    - replace (0x110000 <=? r) with false by (symmetry; lia).
      apply writeHexStr_percent_u. lia. }
  apply Z.ltb_ge in E3.
  replace ((0xD800 <=? r) && (r <=? 0xDFFF)) with false
    by (symmetry; apply andb_false_iff; right; lia).
  cbn [orb].
  destruct (r <? 0x110000) eqn:E5.
  - apply Z.ltb_lt in E5.
    replace (0x110000 <=? r) with false by (symmetry; lia).
    apply writeHexStr_percent_u. lia.
  - apply Z.ltb_ge in E5.
    replace (0x110000 <=? r) with true by (symmetry; lia).
    reflexivity.
Qed.

(** C7 (the code departs from the claim, and from its own comments): the
    code never copies a code point of the surrogate range or from 0x110000
    on unmodified.  The three bytes ED A0 80, the UTF-8 shape of 0xD800,
    come back as [%ufffd%ufffd%ufffd], and the four bytes F4 90 80 80, the
    shape of 0x110000, as four times [%ufffd]: the range over the string
    yields U+FFFD for each of these bytes.  Were such a value to reach the
    two branches commented as copying, [WriteRune] would write the bytes
    EF BF BD of U+FFFD in its place. *)
Theorem utf8ToUnicodeString_rewrites_invalid :
  runes_of_string (of_bytes [0xED; 0xA0; 0x80]) = [0xFFFD; 0xFFFD; 0xFFFD]
  /\ utf8ToUnicodeString (of_bytes [0xED; 0xA0; 0x80])
     = Return (types_String "%ufffd%ufffd%ufffd")
  /\ utf8ToUnicodeString (of_bytes [0xED; 0xA0; 0x80])
     <> Return (types_String (of_bytes [0xED; 0xA0; 0x80]))
  /\ utf8ToUnicodeString (of_bytes [0xF4; 0x90; 0x80; 0x80])
     = Return (types_String "%ufffd%ufffd%ufffd%ufffd")
  /\ utf8ToUnicodeString (of_bytes [0xF4; 0x90; 0x80; 0x80])
     <> Return (types_String (of_bytes [0xF4; 0x90; 0x80; 0x80]))
  /\ utf8ToUnicode_body EmptyString 0xD800
     = Return (of_bytes [0xEF; 0xBF; 0xBD])
  /\ utf8ToUnicode_body EmptyString 0xDFFF
     = Return (of_bytes [0xEF; 0xBF; 0xBD])
  /\ utf8ToUnicode_body EmptyString 0x110000
     = Return (of_bytes [0xEF; 0xBF; 0xBD]).
Proof.
  repeat split; try (vm_compute; reflexivity);
    vm_compute; discriminate.
Qed.

(** ** [urlDecode] *)

Lemma unhex_range (c : ascii) : 0 <= url.unhex c < 16.
Proof.
  unfold url.unhex. pose proof (byte_val_range c).
  repeat match goal with
         | |- context [if ?b then _ else _] => destruct b eqn:?
         end; lia.
Qed.

Lemma lor_nibbles (x y : Z) : 0 <= x < 16 -> 0 <= y < 16 ->
  Z.lor (Z.shiftl x 4) y = 16 * x + y.
Proof.
  intros Hx Hy. rewrite Z.shiftl_mul_pow2 by lia.
  rewrite <- Z.add_nocarry_lor; [lia|].
  apply Z.bits_inj'. intros n Hn. rewrite Z.land_spec, Z.bits_0.
  destruct (Z.ltb_spec n 4).
  - rewrite Z.mul_pow2_bits_low by lia. reflexivity.
  - rewrite (Z.bits_above_log2 y n), andb_false_r; [reflexivity|lia|].
    destruct (Z.eq_dec y 0) as [->|]; [cbn; lia|].
    apply Z.log2_lt_pow2; [lia|]. 
    apply Z.lt_le_trans with (2 ^ 4); [cbn; lia|]. apply Z.pow_le_mono_r; lia.
Qed.

(** The second loop of [unescape] on a string the first loop accepts. *)
Lemma unescape_write_sound (n : nat) : forall s : string,
  (String.length s <= n)%nat -> url.unescape_check s = None ->
  percent_decoded " " s (url.unescape_write s).
Proof.
  induction n as [|n IH]; intros s Hlen Hok.
  - destruct s; [constructor | cbn in Hlen; lia].
  - destruct s as [|c tl]; [constructor|].
    cbn [url.unescape_check url.unescape_write] in *.
    destruct (Ascii.eqb_spec c "%") as [->|Hpct].
    + destruct tl as [|a [|b rest]]; try discriminate.
      destruct (url.ishex a) eqn:Ha; [|discriminate].
      destruct (url.ishex b) eqn:Hb; [|discriminate].
      cbn [andb] in Hok.
      rewrite lor_nibbles by apply unhex_range.
      apply pd_escape; try assumption.
      apply IH; [cbn in Hlen |- *; lia | assumption].
    + destruct (Ascii.eqb_spec c "+") as [->|Hplus].
      * apply pd_plus. apply IH; [cbn in Hlen; lia | assumption].
      * apply pd_other; try assumption.
        apply IH; [cbn in Hlen; lia | assumption].
Qed.

(** A string with a decoding passes the first loop, and the second loop
    computes that decoding. *)
Lemma unescape_write_complete (s t : string) :
  percent_decoded " " s t ->
  url.unescape_check s = None /\ url.unescape_write s = t.
Proof.
  induction 1 as [|x y s t Hx Hy Hd [IH1 IH2]|s t Hd [IH1 IH2]
                 |c s t Hpct Hplus Hd [IH1 IH2]].
  - split; reflexivity.
  - cbn [url.unescape_check url.unescape_write]. cbn [Ascii.eqb Bool.eqb].
    rewrite Hx, Hy. cbn [andb]. split; [assumption|].
    rewrite lor_nibbles by apply unhex_range. now rewrite IH2.
  - cbn. split; [assumption | now rewrite IH2].
  - cbn [url.unescape_check url.unescape_write].
    destruct (Ascii.eqb_spec c "%"); [contradiction|].
    destruct (Ascii.eqb_spec c "+"); [contradiction|].
    split; [assumption | now rewrite IH2].
Qed.

(** C1 (amended): for every string, [urlDecode] returns a string exactly
    when the input has a percent-decoding, and that string is the decoding
    in which every well-formed [%XY] is its byte, a literal [+] is a space
    and every other byte is copied; it returns an error exactly when some
    [%] is not followed by two hex digits. *)
Theorem urlDecodeString_percent_decoded (Quote : string -> string) (s : string) :
  (forall t, urlDecodeString Quote s = types_String t
             <-> percent_decoded " " s t)
  /\ ((exists msg, urlDecodeString Quote s = types_Err msg)
      <-> ~ exists t, percent_decoded " " s t).
Proof.
  unfold urlDecodeString, url.QueryUnescape.
  destruct (url.unescape_check s) as [e|] eqn:Hcheck.
  - split.
    + intros t. split; [discriminate|].
      intros Hd. apply unescape_write_complete in Hd. destruct Hd; congruence.
    + split.
      * intros _ [t Hd]. apply unescape_write_complete in Hd.
        destruct Hd; congruence.
      * intros _. eexists. reflexivity.
  - pose proof (unescape_write_sound _ s (le_n _) Hcheck) as Hd.
    split.
    + intros t. split.
      * intros [= <-]. assumption.
      * intros Ht. apply unescape_write_complete in Ht. destruct Ht; congruence.
    + split.
      * intros [msg Hm]. discriminate.
      * intros Hno. exfalso. apply Hno. eexists. eassumption.
Qed.

(** C1 (as stated, refuted): the specification's own example has the
    decoding the claim describes, with [+] kept, and [urlDecode] returns
    another string: the [+] has become a space. *)
Lemma urlDecode_plus_is_decoded_to_space :
  percent_decoded "+" "value=Url+Encoded%21" "value=Url+Encoded!"
  /\ urlDecodeString Quote_ascii "value=Url+Encoded%21"
     = types_String "value=Url Encoded!"
  /\ urlDecodeString Quote_ascii "value=Url+Encoded%21"
     <> types_String "value=Url+Encoded!".
Proof.
  split; [|split; [vm_compute; reflexivity | vm_compute; discriminate]].
  repeat first
    [ apply pd_empty
    | apply pd_plus
    | apply pd_escape; [reflexivity | reflexivity |]
    | apply pd_other; [discriminate | discriminate |] ].
Qed.

(** ** [urlDecodeUni] *)

(** A [%] followed by a byte that is no hex digit is no escape. *)
Lemma QueryUnescape_not_hex (s : string) (idx : nat) (c1 : ascii) :
  String.get idx s = Some "%"%char -> String.get (idx + 1) s = Some c1 ->
  url.ishex c1 = false ->
  exists e, url.QueryUnescape (str_slice idx (idx + 3) s) = inr e.
Proof.
  intros H0 H1 Hc1. unfold str_slice.
  replace (idx + 3 - idx)%nat with 3%nat by lia.
  rewrite (str_drop_get _ _ _ H0).
  replace (S idx) with (idx + 1)%nat by lia.
  rewrite (str_drop_get _ _ _ H1).
  unfold url.QueryUnescape.
  destruct (str_drop (S (idx + 1)) s) as [|c2 rest];
    cbn [str_take url.unescape_check Ascii.eqb Bool.eqb]; cbn [andb];
    try rewrite Hc1; cbn [andb]; eexists; reflexivity.
Qed.

Lemma Unquote_u4_spec (x : string) : String.length x = 4%nat ->
  strconv.Unquote_u4 x
  = if forallb url.ishex (list_ascii_of_string x)
       && strconv.ValidRune (strconv.hex_value x)
    then Some (of_bytes (utf8.EncodeRune (strconv.hex_value x)))
    else None.
Proof.
  intros Hx. unfold strconv.Unquote_u4. rewrite Hx. reflexivity.
Qed.

(** C4 (amended): when the loop of [urlDecodeUni] is at a [%] followed by
    [u] or [U], it returns the error if fewer than four bytes follow; if the
    four bytes that follow are hex digits naming a code point that is no
    surrogate, it writes that code point and goes on six bytes further; in
    any other case it returns no error: it writes the [%] itself and goes on
    at the next byte. *)
Theorem urlDecodeUni_percent_u (fuel : nat) (str : string) (idx : nat)
  (sb : string) (c1 : ascii) :
  String.get idx str = Some "%"%char ->
  String.get (idx + 1) str = Some c1 ->
  c1 = "u"%char \/ c1 = "U"%char ->
  let x := str_slice (idx + 2) (idx + 6) str in
  urlDecodeUni_loop (S fuel) str idx sb
  = if (String.length str <=? idx + 5)%nat
    then Some (Return invalid_escape)
    else if forallb url.ishex (list_ascii_of_string x)
            && strconv.ValidRune (strconv.hex_value x)
    then urlDecodeUni_loop fuel str (idx + 6)
           (sb ++ of_bytes (utf8.EncodeRune (strconv.hex_value x)))
    else urlDecodeUni_loop fuel str (idx + 1) (sb ++ "%").
Proof.
  intros H0 H1 Hu x.
  pose proof (get_some_lt _ _ _ H0) as L0.
  pose proof (get_some_lt _ _ _ H1) as L1.
  cbn [urlDecodeUni_loop].
  destruct (Nat.leb_spec (String.length str) idx); [lia|].
  unfold urlDecodeUni_body.
  rewrite (index_get _ _ _ H0). cbn [mbind Go_bind].
  cbn [Ascii.eqb Bool.eqb]. cbn [andb].
  destruct (Nat.leb_spec (String.length str) (idx + 1)); [lia|].
  rewrite (index_get _ _ _ H1). cbn [mbind Go_bind].
  assert (Hc1 : Ascii.eqb c1 "u" || Ascii.eqb c1 "U" = true)
    by (destruct Hu as [-> | ->]; reflexivity).
  assert (Hnh : url.ishex c1 = false)
    by (destruct Hu as [-> | ->]; reflexivity).
  rewrite Hc1.
  destruct (Nat.leb_spec (String.length str) (idx + 5)) as [Hshort|Hlong].
  { reflexivity. }
  rewrite (slice_in_range str (idx + 2) (idx + 6)) by lia.
  cbn [mbind Go_bind].
  rewrite Unquote_u4_spec by (rewrite str_slice_length; lia).
  fold x.
  destruct (forallb url.ishex (list_ascii_of_string x)
            && strconv.ValidRune (strconv.hex_value x)).
  { cbn [mbind Go_bind mret Go_ret]. unfold WriteString.
    replace (idx + 5 + 1)%nat with (idx + 6)%nat by lia. reflexivity. }
  cbn [mbind Go_bind mret Go_ret].
  destruct (Nat.leb_spec (String.length str) (idx + 2)); [lia|].
  rewrite (slice_in_range str idx (idx + 3)) by lia. cbn [mbind Go_bind].
  destruct (QueryUnescape_not_hex _ _ _ H0 H1 Hnh) as [e ->].
  reflexivity.
Qed.

(** One pass through the body at an index inside the string neither
    panics nor stays in place. *)
Lemma urlDecodeUni_body_progress (str : string) (idx : nat) (sb : string) :
  (idx < String.length str)%nat ->
  (exists v, urlDecodeUni_body str idx sb = Return (uni_return v))
  \/ (exists idx' sb', urlDecodeUni_body str idx sb = Return (uni_next idx' sb')
                       /\ (idx < idx')%nat).
Proof.
  intros Hidx. unfold urlDecodeUni_body.
  destruct (get_lt_some _ _ Hidx) as [c Hc].
  rewrite (index_get _ _ _ Hc). cbn [mbind Go_bind].
  destruct (Ascii.eqb c "%").
  2: { destruct (Ascii.eqb c "+"); right; eexists _, _; split;
       try reflexivity; lia. }
  destruct (Nat.leb_spec (String.length str) (idx + 1)).
  { left. eexists. reflexivity. }
  destruct (get_lt_some str (idx + 1) ltac:(lia)) as [c1 Hc1].
  rewrite (index_get _ _ _ Hc1). cbn [mbind Go_bind].
  assert (Hrest :
    (exists v,
      (if (String.length str <=? idx + 2)%nat
       then mret (uni_return invalid_escape)
       else x ← slice str idx (idx + 3);
            match url.QueryUnescape x with
            | inr _ => mret (uni_next (idx + 1) (WriteByte sb c))
            | inl res => mret (uni_next (idx + 2 + 1) (WriteString sb res))
            end) = Return (uni_return v))
    \/ (exists idx' sb',
      (if (String.length str <=? idx + 2)%nat
       then mret (uni_return invalid_escape)
       else x ← slice str idx (idx + 3);
            match url.QueryUnescape x with
            | inr _ => mret (uni_next (idx + 1) (WriteByte sb c))
            | inl res => mret (uni_next (idx + 2 + 1) (WriteString sb res))
            end) = Return (uni_next idx' sb') /\ (idx < idx')%nat)).
  { destruct (Nat.leb_spec (String.length str) (idx + 2)).
    { left. eexists. reflexivity. }
    rewrite (slice_in_range str idx (idx + 3)) by lia. cbn [mbind Go_bind].
    destruct (url.QueryUnescape _); right; eexists _, _; split;
      try reflexivity; lia. }
  destruct (Ascii.eqb c1 "u" || Ascii.eqb c1 "U").
  2: { cbn [mbind Go_bind mret Go_ret]. exact Hrest. }
  destruct (Nat.leb_spec (String.length str) (idx + 5)).
  { left. eexists. reflexivity. }
  rewrite (slice_in_range str (idx + 2) (idx + 6)) by lia.
  cbn [mbind Go_bind].
  destruct (strconv.Unquote_u4 _).
  - right. eexists _, _. split; [reflexivity | lia].
  - cbn [mbind Go_bind mret Go_ret]. exact Hrest.
Qed.

Lemma urlDecodeUni_loop_returns (str : string) (fuel : nat) :
  forall (idx : nat) (sb : string),
    (String.length str <= idx + fuel)%nat ->
    exists v, urlDecodeUni_loop fuel str idx sb = Some (Return v).
Proof.
  induction fuel as [|fuel IH]; intros idx sb Hfuel.
  - cbn. destruct (Nat.leb_spec (String.length str) idx); [|lia].
    eexists. reflexivity.
  - cbn [urlDecodeUni_loop].
    destruct (Nat.leb_spec (String.length str) idx) as [|Hidx].
    + eexists. reflexivity.
    + destruct (urlDecodeUni_body_progress str idx sb Hidx)
        as [[v ->] | (idx' & sb' & -> & Hlt)].
      * eexists. reflexivity.
      * apply IH. lia.
Qed.

(** [urlDecodeUni] is total: on every string the loop ends within its
    fuel and returns a value, without panicking. *)
Theorem urlDecodeUniString_returns (str : string) :
  exists v, urlDecodeUniString str = Some (Return v).
Proof. apply urlDecodeUni_loop_returns. lia. Qed.

(** C4 (as stated, refuted): [%u] followed by four bytes that are not
    hex digits is no error, and four hex digits that name a surrogate are
    not decoded: both inputs come back unchanged. *)
Lemma urlDecodeUni_not_hex_is_no_error :
  urlDecodeUniString "%uZZZZ" = Some (Return (types_String "%uZZZZ"))
  /\ urlDecodeUniString "%uD800" = Some (Return (types_String "%uD800")).
Proof. split; vm_compute; reflexivity. Qed.

(** The amended C4 at the input [%u0021]: the escape is decoded to [!] and
    the loop goes on at index 6. *)
Lemma urlDecodeUni_percent_u_witness :
  String.get 0 "%u0021" = Some "%"%char
  /\ String.get (0 + 1) "%u0021" = Some "u"%char
  /\ urlDecodeUni_loop 6 "%u0021" 0 "" = urlDecodeUni_loop 5 "%u0021" 6 "!".
Proof.
  split; [reflexivity|]. split; [reflexivity|].
  exact (urlDecodeUni_percent_u 5 "%u0021" 0 "" "u" eq_refl eq_refl
           (or_introl eq_refl)).
Defined.

(** ** [base64Decode] *)

(** C6: [base64Decode] first decodes with the padded standard encoding and
    returns its bytes when that succeeds; when it fails with an error that
    is no [CorruptInputError] it returns that error; in both cases the raw
    encoding plays no part in the result, whatever it would decode.  When it
    fails with a [CorruptInputError] the result is that of the raw, unpadded
    encoding: its bytes, or its own error, message unchanged. *)
Theorem base64DecodeString_fallback (StdEncoding RawStdEncoding : base64.Encoding)
  (s : string) :
  let std := base64.DecodeString StdEncoding s in
  let raw := base64.DecodeString RawStdEncoding s in
  (* the padded decode succeeds: its bytes are the result, no retry *)
  (std.2 = None ->
     forall other : base64.Encoding,
       base64DecodeString StdEncoding other s = types_String std.1)
  (* it fails with an error that is no CorruptInputError: no retry *)
  /\ (forall msg, std.2 = Some (base64.OtherError msg) ->
        forall other : base64.Encoding,
          base64DecodeString StdEncoding other s = types_Err msg)
  (* it fails with a CorruptInputError: the result is the retry's *)
  /\ (forall n, std.2 = Some (base64.CorruptInputError n) ->
        (raw.2 = None ->
           base64DecodeString StdEncoding RawStdEncoding s = types_String raw.1)
        /\ (forall e, raw.2 = Some e ->
              base64DecodeString StdEncoding RawStdEncoding s
              = types_Err (base64.Error e))).
Proof.
  unfold base64DecodeString. cbn zeta.
  destruct (base64.DecodeString StdEncoding s) as [b1 e1].
  destruct (base64.DecodeString RawStdEncoding s) as [b2 e2]. cbn.
  split; [|split].
  - intros -> other. reflexivity.
  - intros msg -> other. reflexivity.
  - intros n ->. cbn. split.
    + intros ->. reflexivity.
    + intros e ->. reflexivity.
Qed.

(** ** The verdict loop *)

(** One pass through the body of the loop of [RunRuleValidation] appends the
    verdict of the case. *)
Lemma RunRuleValidation_step Quote prg tc (statuses : list TestStatus) :
  (let '(out, err) := prg (When tc) in
         match err with
         | Some e =>
             if negb (String.eqb (ExpectError tc) "") then
               if negb (Contains e (ExpectError tc)) then
                 append statuses
                   {| TestStatus_Name := TestCase_Name tc; Pass := false;
                      Fail := "got error " ++ Quote e
                              ++ ", wanted error containing "
                              ++ Quote (ExpectError tc) |}
               else
                 append statuses
                   {| TestStatus_Name := TestCase_Name tc; Pass := true;
                      Fail := "" |}
             else
               append statuses
                 {| TestStatus_Name := TestCase_Name tc; Pass := false;
                    Fail := e |}
         | None =>
             if eq_Bool out (ExpectOutput tc) then
               append statuses
                 {| TestStatus_Name := TestCase_Name tc; Pass := true;
                    Fail := "" |}
             else
               append statuses
                 {| TestStatus_Name := TestCase_Name tc; Pass := false;
                    Fail := "expected result " ++ fmt_bool (ExpectOutput tc)
                            ++ ", got " ++ fmt_v out |}
         end) = append statuses (verdict Quote prg tc).
Proof.
  unfold verdict, PASS, FAIL.
  destruct (prg (When tc)) as [out [e|]].
  - destruct (String.eqb (ExpectError tc) ""); cbn; [reflexivity|].
    destruct (Contains e (ExpectError tc)); reflexivity.
  - destruct out as [b| | |]; cbn; try reflexivity.
    destruct (Bool.eqb b (ExpectOutput tc)); reflexivity.
Qed.

(** C5: for every program and every list of test cases,
    [RunRuleValidation] returns, in order, the verdict of each case: when
    evaluation raised an error, FAIL with that error if the case expects
    none, PASS if the expected text is contained in the error, and FAIL with
    a message quoting both otherwise; when evaluation succeeded, PASS if the
    result is the boolean the case expects (false when it names none), and
    FAIL with a message giving expected and actual otherwise. *)
Theorem RunRuleValidation_verdicts (Quote : string -> string) (prg : Program)
  (testCases : list TestCase) :
  RunRuleValidation Quote prg testCases = map (verdict Quote prg) testCases.
Proof.
  unfold RunRuleValidation.
  change (map (verdict Quote prg) testCases)
    with (([] : list TestStatus) ++ map (verdict Quote prg) testCases)%list.
  generalize (@nil TestStatus) as statuses.
  induction testCases as [|tc rest IH]; intros statuses; cbn [fold_left map].
  - symmetry. apply app_nil_r.
  - rewrite RunRuleValidation_step, IH. unfold append.
    rewrite <- app_assoc. reflexivity.
Qed.

(** ** The presence macro *)

(** C8: for every argument of [has(...)] the macro factory returns no error;
    it returns the presence test on the operand and field of a field
    selection, the presence test on the indexed object and the key of a
    global call of the index operator on two arguments whose second is a
    string literal, and no expression for an argument of any other shape. *)
Theorem hasWithIndexMacroFactory_shapes `{MacroExprFactory}
  (target : option ast.Expr) (arg : ast.Expr) :
  hasWithIndexMacroFactory target [arg]
  = Return (match presence_shape arg with
            | Some (operand, field) => Some (NewPresenceTest operand field)
            | None => None
            end, None).
Proof.
  unfold hasWithIndexMacroFactory, presence_shape.
  destruct arg as [|call_target function call_args| | | | | | |]; cbn;
    try reflexivity.
  destruct (String.eqb function operators_Index) eqn:Hfn;
    destruct call_target as [t|]; cbn; try reflexivity;
    destruct call_args as [|obj [|field [|extra more]]]; cbn; try reflexivity;
    destruct field as [| | | | |value| | |]; try reflexivity;
    destruct value; reflexivity.
Qed.

(** The shapes the macro does not recognise: an argument that is neither a
    selection nor a call, a call of another function, a member call, a call
    on other than two arguments, and an index whose key is no string
    literal. *)
Lemma presence_shape_unrecognised :
  (forall arg, ast.Kind arg <> ast.SelectKind -> ast.Kind arg <> ast.CallKind ->
     presence_shape arg = None)
  /\ (forall target function args, function <> operators_Index ->
        presence_shape (ast.Call target function args) = None)
  /\ (forall member function args,
        presence_shape (ast.Call (Some member) function args) = None)
  /\ (forall target function args, length args <> 2%nat ->
        presence_shape (ast.Call target function args) = None)
  /\ (forall target function obj field,
        (forall key, field <> ast.Literal (ast.StringValue key)) ->
        presence_shape (ast.Call target function [obj; field]) = None).
Proof.
  split; [|split; [|split; [|split]]].
  - intros arg Hsel Hcall. destruct arg; cbn in *; congruence.
  - intros target function args Hfn. cbn.
    apply String.eqb_neq in Hfn. rewrite Hfn.
    destruct target; [reflexivity|].
    destruct args as [|obj [|field [|extra more]]]; try reflexivity;
      destruct field as [| | | | |value| | |]; try reflexivity;
      destruct value; reflexivity.
  - intros member function args. reflexivity.
  - intros target function args Hlen. cbn.
    destruct target; [reflexivity|].
    destruct args as [|obj [|field [|extra more]]]; try reflexivity;
      [cbn in Hlen; congruence|].
    destruct field as [| | | | |value| | |]; try reflexivity;
      destruct value; reflexivity.
  - intros target function obj field Hkey. cbn.
    destruct target; [reflexivity|].
    destruct field as [| | | | |value| | |]; try reflexivity.
    destruct value; try reflexivity. exfalso. eapply Hkey. reflexivity.
Qed.

(** ** The test-suite loader *)

Lemma SafeVariables_no_nil (ToLower : string -> string) (visit : list string)
  (v : Variables) : no_nil (SafeVariables ToLower visit v).
Proof. unfold no_nil, SafeVariables. cbn. eexists _, _, _, _, _, _. eauto. Qed.

Lemma ResolveName_no_nil (v : Variables) (name : string) :
  no_nil v ->
  exists value found, ResolveName v name = Return (value, found).
Proof.
  intros (r & o & e & a & s & m & Hr & Ho & Ht & Hm).
  unfold ResolveName. rewrite Hr, Ho, Ht.
  repeat match goal with
         | |- context [if ?c then _ else _] => destruct c
         end; cbn; eexists _, _; reflexivity.
Qed.

Lemma SafeTestCase_resolvable (ToLower : string -> string)
  (visit : list string) (t : TestCase) :
  resolvable (SafeTestCase ToLower visit t).
Proof.
  eexists. split; [reflexivity|].
  intros name. apply ResolveName_no_nil, SafeVariables_no_nil.
Qed.

Section Suite.
Variables Quote ToLower : string -> string.
Variable Unmarshal : string -> option TestSuite + string.
Variable visits : nat -> list string.

Lemma expect_and_error_conflicting (t : TestCase) :
  expect_and_error t = true <-> conflicting t.
Proof.
  unfold expect_and_error, conflicting.
  rewrite andb_true_iff, negb_true_iff.
  destruct (String.eqb_spec (ExpectError t) ""); split; intros [H1 H2];
    (split; [assumption|]); congruence.
Qed.

Lemma expect_and_error_not_conflicting (t : TestCase) :
  expect_and_error t = false <-> ~ conflicting t.
Proof.
  rewrite <- expect_and_error_conflicting.
  destruct (expect_and_error t); split; congruence.
Qed.

(** The loop over entries that are cases, none of them offending: each is
    normalised in place, and the loop goes on with what follows. *)
Lemma TestSuiteFromYAML_loop_prefix (pre : list TestCase)
  (rest : list (option TestCase)) (n : nat) :
  Forall (fun t => ~ conflicting t) pre ->
  forall done : list (option TestCase),
  TestSuiteFromYAML_loop Quote ToLower visits
    (length pre + n) (length done) (done ++ map Some pre ++ rest)
  = TestSuiteFromYAML_loop Quote ToLower visits
      n (length done + length pre)
      (done
       ++ map Some
            (imap (fun j => SafeTestCase ToLower (visits (length done + j)%nat))
                  pre)
       ++ rest).
Proof.
  intros Hpre.
  induction Hpre as [|p pre Hp Hpre IH]; intros done.
  - cbn [length Nat.add imap map app]. now rewrite Nat.add_0_r.
  - cbn [length Nat.add TestSuiteFromYAML_loop map].
    rewrite <- app_comm_cons. rewrite list_lookup_middle by reflexivity.
    apply expect_and_error_not_conflicting in Hp. rewrite Hp.
    replace (length done) with (length done + 0)%nat at 2 by lia.
    rewrite insert_app_r. change (<[0%nat:=?x]> (Some p :: ?l)) with (x :: l).
    specialize (IH (done ++ [Some (SafeTestCase ToLower (visits (length done)) p)])%list).
    rewrite length_app in IH. cbn [length] in IH.
    replace (S (length done)) with (length done + 1)%nat by lia.
    rewrite <- app_assoc in IH. cbn [app] in IH.
    rewrite IH. f_equal; [lia|]. rewrite <- app_assoc. f_equal. cbn [app].
    rewrite imap_cons. rewrite Nat.add_0_r. cbn [map app]. f_equal. f_equal.
    f_equal. apply imap_ext. intros j x _. cbn. f_equal. f_equal. lia.
Qed.

(** The three ways the loop ends: past the last entry, at an offending
    case, at a nil entry. *)
Lemma TestSuiteFromYAML_loop_all (cases : list TestCase) :
  Forall (fun t => ~ conflicting t) cases ->
  TestSuiteFromYAML_loop Quote ToLower visits
    (length (map Some cases)) 0 (map Some cases)
  = Return (map Some (imap (fun i => SafeTestCase ToLower (visits i)) cases),
            None).
Proof.
  intros Hall.
  pose proof (TestSuiteFromYAML_loop_prefix cases [] 0 Hall []) as H.
  cbn [length app Nat.add] in H. rewrite !app_nil_r, Nat.add_0_r in H.
  rewrite length_map, H. reflexivity.
Qed.

Lemma TestSuiteFromYAML_loop_stops (pre : list TestCase) (t : TestCase)
  (post : list (option TestCase)) :
  Forall (fun t => ~ conflicting t) pre -> conflicting t ->
  TestSuiteFromYAML_loop Quote ToLower visits
    (length (map Some pre ++ Some t :: post)) 0 (map Some pre ++ Some t :: post)
  = Return ((map Some (imap (fun i => SafeTestCase ToLower (visits i)) pre)
               ++ Some t :: post)%list,
            Some (both_message Quote t)).
Proof.
  intros Hpre Ht.
  pose proof (TestSuiteFromYAML_loop_prefix pre (Some t :: post)
                (S (length post)) Hpre []) as H.
  cbn [length app Nat.add] in H.
  rewrite length_app, length_map. cbn [length]. rewrite H.
  cbn [TestSuiteFromYAML_loop].
  rewrite list_lookup_middle by now rewrite length_map, length_imap.
  apply expect_and_error_conflicting in Ht. rewrite Ht. reflexivity.
Qed.

Lemma TestSuiteFromYAML_loop_nil (pre : list TestCase)
  (post : list (option TestCase)) :
  Forall (fun t => ~ conflicting t) pre ->
  TestSuiteFromYAML_loop Quote ToLower visits
    (length (map Some pre ++ None :: post)) 0 (map Some pre ++ None :: post)
  = Panic.
Proof.
  intros Hpre.
  pose proof (TestSuiteFromYAML_loop_prefix pre (None :: post)
                (S (length post)) Hpre []) as H.
  cbn [length app Nat.add] in H.
  rewrite length_app, length_map. cbn [length]. rewrite H.
  cbn [TestSuiteFromYAML_loop].
  rewrite list_lookup_middle by now rewrite length_map, length_imap.
  reflexivity.
Qed.

(** Where the loop stops on a slice: nowhere, at the first offending case,
    or at a nil entry met before any offending case. *)
Lemma first_stop (l : list (option TestCase)) :
  (exists cases, l = map Some cases
     /\ Forall (fun t => ~ conflicting t) cases)
  \/ (exists pre t post, l = (map Some pre ++ Some t :: post)%list
        /\ Forall (fun t => ~ conflicting t) pre /\ conflicting t)
  \/ (exists pre post, l = (map Some pre ++ None :: post)%list
        /\ Forall (fun t => ~ conflicting t) pre).
Proof.
  induction l as [|[x|] l IH].
  - left. exists []. split; [reflexivity|constructor].
  - destruct (expect_and_error x) eqn:Hx.
    + right. left. exists [], x, l. split; [reflexivity|].
      split; [constructor|]. now apply expect_and_error_conflicting.
    + apply expect_and_error_not_conflicting in Hx.
      destruct IH as [(cases & -> & Hc)
                     |[(pre & t & post & -> & Hpre & Ht)
                      |(pre & post & -> & Hpre)]].
      * left. exists (x :: cases). split; [reflexivity|now constructor].
      * right. left. exists (x :: pre), t, post. split; [reflexivity|].
        split; [now constructor|assumption].
      * right. right. exists (x :: pre), post. split; [reflexivity|].
        now constructor.
  - right. right. exists [], l. split; [reflexivity|constructor].
Qed.


(** A suite the loader returns: the decoded one, every entry a case that
    the loop has normalised. *)
Lemma TestSuiteFromYAML_loaded (yamlBytes : string) (loaded : TestSuite) :
  TestSuiteFromYAML Quote ToLower Unmarshal visits yamlBytes
  = Return (Some loaded, None) ->
  exists ts cases,
    Unmarshal yamlBytes = inl (Some ts)
    /\ Tests ts = map Some cases
    /\ Forall (fun t => ~ conflicting t) cases
    /\ loaded = {| TestSuite_Name := TestSuite_Name ts; Expr := Expr ts;
                   Tests := map Some (imap (fun i => SafeTestCase ToLower
                                                       (visits i)) cases) |}.
Proof.
  unfold TestSuiteFromYAML.
  destruct (Unmarshal yamlBytes) as [[ts|]|err]; [|discriminate..].
  destruct (first_stop (Tests ts))
    as [(cases & E & Hc)
       |[(pre & t & post & E & Hpre & Ht)|(pre & post & E & Hpre)]];
    rewrite E.
  - rewrite (TestSuiteFromYAML_loop_all cases Hc). intros [= <-].
    exists ts, cases. repeat split; assumption.
  - rewrite (TestSuiteFromYAML_loop_stops pre t post Hpre Ht). discriminate.
  - rewrite (TestSuiteFromYAML_loop_nil pre post Hpre). discriminate.
Qed.

End Suite.



(** ** Header names *)

Section Lowering.
Variable ToLower : string -> string.

Lemma lower_keys_cons (k : string) (visit : list string)
  (h : gmap string string) :
  lower_keys ToLower (k :: visit) h
  = lower_keys ToLower visit
      (match h !! k with
       | Some val => <[ToLower k := val]> h
       | None => h
       end).
Proof. reflexivity. Qed.

(** The loop never removes a key: whatever the order of the visit, a key of
    the map is still a key afterwards, lower case or not. *)
Lemma lower_keys_keeps_keys (visit : list string) :
  forall (h : gmap string string) (k : string),
    is_Some (h !! k) -> is_Some (lower_keys ToLower visit h !! k).
Proof.
  induction visit as [|x visit IH]; intros h k Hk; [exact Hk|].
  rewrite lower_keys_cons. apply IH.
  destruct (h !! x) as [val|]; [|exact Hk].
  destruct (decide (ToLower x = k)) as [->|Hne].
  - rewrite lookup_insert_eq. eauto.
  - now rewrite lookup_insert_ne.
Qed.

(** The lowered form of every key the loop visits is a key afterwards. *)
Theorem lower_keys_adds_lowered (visit : list string) :
  forall (h : gmap string string) (k : string),
    is_Some (h !! k) -> k ∈ visit ->
    is_Some (lower_keys ToLower visit h !! ToLower k).
Proof.
  induction visit as [|x visit IH]; intros h k Hk Hin.
  - inversion Hin.
  - rewrite lower_keys_cons.
    destruct (decide (k = x)) as [->|Hne].
    + destruct Hk as [val Hval]. rewrite Hval.
      apply lower_keys_keeps_keys. rewrite lookup_insert_eq. eauto.
    + apply IH.
      * destruct (h !! x) as [val|]; [|exact Hk].
        destruct (decide (ToLower x = k)) as [->|Hne'].
        -- rewrite lookup_insert_eq. eauto.
        -- now rewrite lookup_insert_ne.
      * apply elem_of_cons in Hin. destruct Hin; [contradiction|assumption].
Qed.

(** A map closed under lowering is left as it is by the loop, whatever the
    visit. *)
Lemma lower_keys_closed (visit : list string) (h : gmap string string) :
  lower_closed ToLower h -> lower_keys ToLower visit h = h.
Proof.
  intros Hclosed. induction visit as [|x visit IH]; [reflexivity|].
  rewrite lower_keys_cons.
  destruct (h !! x) as [val|] eqn:Hx; [|exact IH].
  rewrite (insert_id h (ToLower x) val); [exact IH|].
  now apply Hclosed.
Qed.

Section Invariant.
Variable h : gmap string string.
Hypothesis Hfree : collision_free ToLower h.
Hypothesis Hstable : lowering_stable ToLower h.

Lemma lowering_start : lowering ToLower h [] h.
Proof.
  split.
  - auto.
  - intros j v Hj. exists j. auto.
  - intros k v Hin. inversion Hin.
Qed.

Lemma lowering_step (visited : list string) (m : gmap string string)
  (x : string) :
  lowering ToLower h visited m ->
  lowering ToLower h (visited ++ [x])
    (match m !! x with
     | Some val => <[ToLower x := val]> m
     | None => m
     end).
Proof.
  intros [Hkeeps Horigin Hdone].
  destruct (m !! x) as [val|] eqn:Hx.
  - destruct (Horigin x val Hx) as (k0 & Hk0 & Hxk0).
    assert (Hlow : ToLower x = ToLower k0).
    { destruct Hxk0 as [->| ->]; [reflexivity|]. apply Hstable. eauto. }
    assert (Hsame : forall k v, h !! k = Some v -> ToLower k = ToLower x ->
                                v = val).
    { intros k v Hk Hkx. rewrite Hlow in Hkx.
      assert (k = k0) as -> by (apply Hfree; eauto). congruence. }
    split.
    + intros k v Hk. destruct (decide (ToLower x = k)) as [E|Hne].
      * rewrite <- E, lookup_insert_eq. f_equal. symmetry.
        apply (Hsame k v Hk). rewrite <- E. rewrite Hlow. apply Hstable. eauto.
      * rewrite lookup_insert_ne by assumption. auto.
    + intros j v Hj. destruct (decide (ToLower x = j)) as [E|Hne].
      * rewrite <- E, lookup_insert_eq in Hj. injection Hj as <-.
        exists k0. split; [assumption|]. right. congruence.
      * rewrite lookup_insert_ne in Hj by assumption. auto.
    + intros k v Hin Hk.
      destruct (decide (ToLower x = ToLower k)) as [E|Hne].
      * rewrite <- E, lookup_insert_eq. f_equal. symmetry.
        now apply (Hsame k v Hk).
      * rewrite lookup_insert_ne by assumption.
        apply elem_of_app in Hin. destruct Hin as [Hin|Hin]; [auto|].
        apply list_elem_of_singleton in Hin. congruence.
  - split; [assumption | assumption |].
    intros k v Hin Hk. apply elem_of_app in Hin.
    destruct Hin as [Hin|Hin]; [auto|].
    apply list_elem_of_singleton in Hin. subst k.
    apply Hkeeps in Hk. congruence.
Qed.

Lemma lowering_run (visit : list string) :
  forall (visited : list string) (m : gmap string string),
    lowering ToLower h visited m ->
    lowering ToLower h (visited ++ visit) (lower_keys ToLower visit m).
Proof.
  induction visit as [|x visit IH]; intros visited m Hm.
  - now rewrite app_nil_r.
  - rewrite lower_keys_cons.
    replace (visited ++ x :: visit)%list with ((visited ++ [x]) ++ visit)%list
      by (now rewrite <- app_assoc).
    apply IH. now apply lowering_step.
Qed.

(** Once every key has had its turn, the map is closed under lowering. *)
Lemma lower_keys_lower_closed (visit : list string) :
  (forall k, is_Some (h !! k) -> k ∈ visit) ->
  lower_closed ToLower (lower_keys ToLower visit h).
Proof.
  intros Hcover.
  destruct (lowering_run visit [] h lowering_start) as [Hkeeps Horigin Hdone].
  intros j v Hj. destruct (Horigin j v Hj) as (k & Hk & Hjk).
  assert (ToLower j = ToLower k) as ->.
  { destruct Hjk as [->| ->]; [reflexivity|]. apply Hstable. eauto. }
  apply Hdone; [|assumption]. apply Hcover. eauto.
Qed.

End Invariant.

(** C10 (amended): let no two distinct keys of the request's header map be
    equal after lowering with [strings.ToLower], the function the code
    lowers them with, lowering being stable on the keys; then, whatever the
    order in which the first application of [SafeVariables] ranges over all
    the keys and whatever the second application visits, the second
    application returns the result of the first: every field, every
    sub-record and every entry of the header map is unchanged. *)
Theorem SafeVariables_idempotent (v : Variables) (visit1 visit2 : list string) :
  collision_free ToLower (headers_of v) ->
  lowering_stable ToLower (headers_of v) ->
  (forall k, is_Some (headers_of v !! k) -> k ∈ visit1) ->
  SafeVariables ToLower visit2 (SafeVariables ToLower visit1 v)
  = SafeVariables ToLower visit1 v.
Proof.
  intros Hfree Hstable Hcover.
  pose proof (lower_keys_lower_closed (headers_of v) Hfree Hstable visit1 Hcover)
    as Hclosed.
  apply (lower_keys_closed visit2) in Hclosed.
  unfold headers_of in Hclosed.
  unfold SafeVariables. cbn. rewrite Hclosed. reflexivity.
Qed.

End Lowering.

(** C2 (the code departs from the claim): on the header map with the one key
    [User-Agent], [HTTPHeaders] and [SafeVariables] add the key [user-agent]
    with the same value and leave [User-Agent] in the map. *)
Theorem normalisation_keeps_mixed_case_key :
  HTTPHeaders ToLower_latin1 ["User-Agent"] (Some user_agent_headers)
    = Some (<["user-agent" := "Mozilla/5.0"]> user_agent_headers)
  /\ headers_of (SafeVariables ToLower_latin1 ["User-Agent"]
                   (request_with user_agent_headers))
     = <["user-agent" := "Mozilla/5.0"]> user_agent_headers
  /\ headers_of (SafeVariables ToLower_latin1 ["User-Agent"]
                   (request_with user_agent_headers)) !! "User-Agent"
     = Some "Mozilla/5.0".
Proof. repeat split; vm_compute; reflexivity. Qed.

(** The lowered key is there after the loop: at the header [User-Agent]. *)
Lemma lower_keys_adds_lowered_witness :
  is_Some (lower_keys ToLower_latin1 ["User-Agent"] user_agent_headers
             !! "user-agent").
Proof.
  apply (lower_keys_adds_lowered ToLower_latin1 ["User-Agent"]
           user_agent_headers "User-Agent").
  - exists "Mozilla/5.0". reflexivity.
  - left.
Defined.

(** C10 (as stated, refuted): the keys [Éa] and [éA] differ after ASCII
    lowering and [strings.ToLower] sends both to [éa].  The first
    application, ranging over [Éa] then [éA], leaves [éa] with the value of
    [éA]; the second, ranging over [éA], [Éa], [éa], leaves it with the
    value of [Éa]. *)
Lemma SafeVariables_latin1_keys_not_idempotent :
  collision_free ToLower_ascii_only latin1_headers
  /\ range_order latin1_headers [key_Ea; key_eA]
  /\ range_order
       (headers_of (SafeVariables ToLower_latin1 [key_Ea; key_eA]
                      (request_with latin1_headers)))
       [key_eA; key_Ea; key_ea]
  /\ SafeVariables ToLower_latin1 [key_eA; key_Ea; key_ea]
       (SafeVariables ToLower_latin1 [key_Ea; key_eA]
          (request_with latin1_headers))
     <> SafeVariables ToLower_latin1 [key_Ea; key_eA]
          (request_with latin1_headers).
Proof.
  assert (Hpass1 :
    headers_of (SafeVariables ToLower_latin1 [key_Ea; key_eA]
                  (request_with latin1_headers))
    = <[key_ea := "2"]> latin1_headers) by (vm_compute; reflexivity).
  split; [|split; [|split]].
  - intros k1 k2 H1 H2 E. unfold latin1_headers in H1, H2.
    keys_of H1; keys_of H2; try reflexivity; vm_compute in E; discriminate.
  - split.
    + repeat constructor; vm_compute; not_among.
    + intros k Hk. unfold latin1_headers in Hk. keys_of Hk.
      * left.
      * right; left.
  - rewrite Hpass1. split.
    + repeat constructor; vm_compute; not_among.
    + intros k Hk. unfold latin1_headers in Hk. keys_of Hk.
      * right; right; left.
      * right; left.
      * left.
  - intros E.
    apply (f_equal (fun v => headers_of v !! key_ea)) in E.
    vm_compute in E. discriminate.
Qed.

(** The amended C10 at the header [User-Agent]. *)
Lemma SafeVariables_idempotent_witness :
  collision_free ToLower_latin1 (headers_of (request_with user_agent_headers))
  /\ lowering_stable ToLower_latin1
       (headers_of (request_with user_agent_headers))
  /\ SafeVariables ToLower_latin1 ["user-agent"; "User-Agent"]
       (SafeVariables ToLower_latin1 ["User-Agent"]
          (request_with user_agent_headers))
     = SafeVariables ToLower_latin1 ["User-Agent"]
         (request_with user_agent_headers).
Proof.
  assert (Hkey : forall k,
    is_Some (headers_of (request_with user_agent_headers) !! k) ->
    k = "User-Agent").
  { intros k Hk. cbn in Hk. unfold user_agent_headers in Hk.
    apply lookup_singleton_is_Some in Hk. congruence. }
  assert (Hfree : collision_free ToLower_latin1
                    (headers_of (request_with user_agent_headers))).
  { intros k1 k2 H1 H2 _. apply Hkey in H1, H2. congruence. }
  assert (Hstable : lowering_stable ToLower_latin1
                      (headers_of (request_with user_agent_headers))).
  { intros k Hk. apply Hkey in Hk. subst k. vm_compute. reflexivity. }
  split; [exact Hfree|]. split; [exact Hstable|].
  apply (SafeVariables_idempotent ToLower_latin1
           (request_with user_agent_headers) ["User-Agent"]
           ["user-agent"; "User-Agent"] Hfree Hstable).
  intros k Hk. apply Hkey in Hk. subst k. left.
Defined.

(** ** The resolver *)

(** After [SafeVariables] no sub-record is nil: [ResolveName] returns on
    every name, known or not, and never dereferences nil. *)
Theorem ResolveName_after_SafeVariables (ToLower : string -> string)
  (visit : list string) (v : Variables) (name : string) :
  exists value found,
    ResolveName (SafeVariables ToLower visit v) name = Return (value, found).
Proof.
  unfold ResolveName.
  repeat match goal with
         | |- context [if ?c then _ else _] => destruct c
         end; cbn; eexists _, _; reflexivity.
Qed.

(** Without the normalisation the resolver does dereference nil; a name
    outside the namespace is reported as not found. *)
Lemma ResolveName_on_zero_Variables :
  ResolveName Variables_zero "request.method" = Panic
  /\ ResolveName Variables_zero "token.recaptcha_action.score" = Panic
  /\ ResolveName Variables_zero "request.body" = Return (any_nil, false).
Proof. repeat split; reflexivity. Qed.

(** ** The expressions of the repository's tests *)

(** The decoding functions on the inputs of [cloudarmor_test.go], with the
    results the tests expect: the IIS-style query, the UTF-8 query (the
    backslashes are bytes of the raw string), the methods folded by [lower]
    and [upper], and the header stored under [User-Agent] found under
    [user-agent]. *)
Theorem repository_tests_evaluate :
  urlDecodeUniString "value=Unicode%20Url%u0020Encoded%u0021"
    = Some (Return (types_String "value=Unicode Url Encoded!"))
  /\ utf8ToUnicodeString "Ā ā Ă ă Ѐ Ё Ā\nā a\x83t"
     = Return (types_String
         "%u0100 %u0101 %u0102 %u0103 %u0400 %u0401 %u0100\n%u0101 a\x83t")
  /\ lowerASCII "GET" = Return (types_String "get")
  /\ upperASCII "post" = Return (types_String "POST")
  /\ (HTTPHeaders ToLower_latin1 ["User-Agent"] (Some user_agent_headers)
        ≫= (.!! "user-agent")) = Some "Mozilla/5.0".
Proof. repeat split; vm_compute; reflexivity. Qed.

(** ** UTF-8: decoding what was encoded *)

Lemma str_app_cons (c : ascii) (a b : string) :
  String c a ++ b = String c (a ++ b).
Proof. reflexivity. Qed.

Lemma to_bytes_app (a b : string) :
  to_bytes (a ++ b) = (to_bytes a ++ to_bytes b)%list.
Proof.
  induction a as [|c a IH]; [reflexivity|].
  rewrite str_app_cons, !to_bytes_cons, IH. reflexivity.
Qed.

Lemma of_bytes_app (a b : list Z) :
  of_bytes (a ++ b) = of_bytes a ++ of_bytes b.
Proof.
  induction a as [|x a IH]; [reflexivity|].
  change (of_bytes ((x :: a) ++ b)) with (String (byte_chr x) (of_bytes (a ++ b))).
  change (of_bytes (x :: a)) with (String (byte_chr x) (of_bytes a)).
  rewrite str_app_cons, IH. reflexivity.
Qed.

Lemma str_length_app (a b : string) :
  String.length (a ++ b) = (String.length a + String.length b)%nat.
Proof.
  induction a as [|c a IH]; [reflexivity|].
  rewrite str_app_cons. cbn [String.length Nat.add]. now rewrite IH.
Qed.

Lemma str_drop_app (a b : string) : str_drop (String.length a) (a ++ b) = b.
Proof. induction a as [|c a IH]; [reflexivity | exact IH]. Qed.

Lemma str_length_to_bytes (s : string) :
  String.length s = length (to_bytes s).
Proof. induction s as [|c s IH]; [reflexivity|]. cbn. now rewrite IH. Qed.

(** The decoder reads the encoding of a scalar value off the front of any
    string. *)
Lemma DecodeRune_EncodeRune_app (r : rune) (s : string) :
  strconv.ValidRune r = true ->
  utf8.DecodeRuneInString (of_bytes (utf8.EncodeRune r) ++ s)
  = (r, length (utf8.EncodeRune r)).
Proof.
  intros Hv. pose proof Hv as Hr. apply ValidRune_iff in Hr.
  unfold utf8.DecodeRuneInString.
  rewrite to_bytes_app, to_bytes_of_bytes by now apply EncodeRune_range.
  destruct (EncodeRune_bytes r Hv) as [[H ->]|[[H ->]|[[H ->]|[H ->]]]];
    cbn [app].
  - unfold utf8.RuneSelf. destruct (Z.ltb_spec r 0x80); [reflexivity|lia].
  - unfold utf8.RuneSelf.
    destruct (Z.ltb_spec (0xC0 + r / 64) 0x80);
      [Z.div_mod_to_equations; lia|].
    assert (Hf : utf8.first (0xC0 + r / 64) = Some (2%nat, 0x80, 0xBF)).
    { unfold utf8.first.
      destruct (Z.ltb_spec (0xC0 + r / 64) 0xC2);
        [Z.div_mod_to_equations; lia|].
      destruct (Z.leb_spec (0xC0 + r / 64) 0xDF);
        [reflexivity|Z.div_mod_to_equations; lia]. }
    rewrite Hf. cbn [length Nat.ltb Nat.leb].
    replace ((0x80 + r mod 64 <? 0x80) || (0xBF <? 0x80 + r mod 64)) with false
      by (symmetry; apply orb_false_iff; split; apply Z.ltb_ge;
          Z.div_mod_to_equations; lia).
    rewrite decode2_value. f_equal. Z.div_mod_to_equations. lia.
  - unfold utf8.RuneSelf.
    destruct (Z.ltb_spec (0xE0 + r / 4096) 0x80);
      [Z.div_mod_to_equations; lia|].
    rewrite first_three by (Z.div_mod_to_equations; lia).
    cbn [length Nat.ltb Nat.leb].
    replace ((0x80 + (r / 64) mod 64
                <? (if 0xE0 + r / 4096 =? 0xE0 then 0xA0 else 0x80))
             || ((if 0xE0 + r / 4096 =? 0xED then 0x9F else 0xBF)
                   <? 0x80 + (r / 64) mod 64)) with false.
    2: { symmetry. apply orb_false_iff. split; apply Z.ltb_ge.
         - destruct (Z.eqb_spec (0xE0 + r / 4096) 0xE0);
             Z.div_mod_to_equations; lia.
         - destruct (Z.eqb_spec (0xE0 + r / 4096) 0xED);
             Z.div_mod_to_equations; lia. }
    rewrite continuation_byte. cbn [negb].
    rewrite decode3_value. f_equal. Z.div_mod_to_equations. lia.
  - unfold utf8.RuneSelf.
    destruct (Z.ltb_spec (0xF0 + r / 262144) 0x80);
      [Z.div_mod_to_equations; lia|].
    rewrite first_four by (Z.div_mod_to_equations; lia).
    cbn [length Nat.ltb Nat.leb].
    replace ((0x80 + (r / 4096) mod 64
                <? (if 0xF0 + r / 262144 =? 0xF0 then 0x90 else 0x80))
             || ((if 0xF0 + r / 262144 =? 0xF4 then 0x8F else 0xBF)
                   <? 0x80 + (r / 4096) mod 64)) with false.
    2: { symmetry. apply orb_false_iff. split; apply Z.ltb_ge.
         - destruct (Z.eqb_spec (0xF0 + r / 262144) 0xF0);
             Z.div_mod_to_equations; lia.
         - destruct (Z.eqb_spec (0xF0 + r / 262144) 0xF4);
             Z.div_mod_to_equations; lia. }
    rewrite !continuation_byte. cbn [negb].
    rewrite decode4_value. f_equal. Z.div_mod_to_equations. lia.
Qed.

(** The runes of a [range] do not depend on the offset it starts from, nor
    on the fuel once there is enough of it. *)
Lemma range_string_from_runes (fuel : nat) : forall (i j : nat) (s : string),
  map snd (range_string_from fuel i s) = map snd (range_string_from fuel j s).
Proof.
  induction fuel as [|fuel IH]; intros i j s; [reflexivity|].
  cbn [range_string_from]. destruct s as [|c s]; [reflexivity|].
  destruct (utf8.DecodeRuneInString (String c s)) as [r w].
  cbn [map snd]. f_equal. apply IH.
Qed.

Lemma range_string_from_fuel (fuel : nat) : forall (fuel' i : nat) (s : string),
  (String.length s <= fuel)%nat -> (String.length s <= fuel')%nat ->
  range_string_from fuel i s = range_string_from fuel' i s.
Proof.
  induction fuel as [|fuel IH]; intros fuel' i s H H'.
  - destruct s; [|cbn in H; lia]. destruct fuel'; reflexivity.
  - destruct fuel' as [|fuel'].
    + destruct s; [reflexivity | cbn in H'; lia].
    + cbn [range_string_from]. destruct s as [|c s]; [reflexivity|].
      destruct (utf8.DecodeRuneInString (String c s)) as [r w] eqn:Hd.
      f_equal. apply DecodeRuneInString_valid in Hd.
      destruct Hd as (_ & Hw & Hpos). specialize (Hpos ltac:(discriminate)).
      apply IH; rewrite str_drop_length; cbn [String.length] in *; lia.
Qed.

(** The runes of a string that starts with the encoding of [r]. *)
Lemma runes_of_string_encoded_cons (r : rune) (s : string) :
  strconv.ValidRune r = true ->
  runes_of_string (of_bytes (utf8.EncodeRune r) ++ s) = r :: runes_of_string s.
Proof.
  intros Hv. unfold runes_of_string, range_string.
  pose proof (DecodeRune_EncodeRune_app r s Hv) as Hd.
  pose proof (of_bytes_length (utf8.EncodeRune r)) as Hlen.
  rewrite str_length_app, Hlen.
  destruct (of_bytes (utf8.EncodeRune r)) as [|c e] eqn:He.
  { destruct (EncodeRune_bytes r Hv) as [[H E]|[[H E]|[[H E]|[H E]]]];
      rewrite E in Hlen; discriminate. }
  cbn [String.length] in Hlen. rewrite <- Hlen in *.
  rewrite str_app_cons in *.
  cbn [Nat.add range_string_from]. rewrite Hd. cbn [map snd str_drop]. f_equal.
  rewrite str_drop_app. rewrite (range_string_from_runes _ _ 0).
  f_equal. apply range_string_from_fuel; lia.
Qed.

(** [[]rune(string(rs))] is [rs] when every rune is a scalar value. *)
Lemma runes_of_string_of_runes (rs : list rune) :
  Forall (fun r => strconv.ValidRune r = true) rs ->
  runes_of_string (string_of_runes rs) = rs.
Proof.
  induction 1 as [|r rs Hr Hrs IH]; [reflexivity|].
  unfold string_of_runes. cbn [map concat]. rewrite of_bytes_app.
  rewrite runes_of_string_encoded_cons by assumption. f_equal. exact IH.
Qed.

(** The runes of a [range], whatever the offset and the fuel, are scalar
    values. *)
Lemma range_runes_valid (fuel i : nat) (s : string) :
  Forall (fun r => strconv.ValidRune r = true)
         (map snd (range_string_from fuel i s)).
Proof.
  induction (range_string_from_valid fuel i s); constructor; assumption.
Qed.


(** ** [upper] and [lower] composed *)

Lemma isASCII_bytes (s : string) :
  strings.isASCII s = true <-> ascii_bytes (to_bytes s).
Proof.
  unfold strings.isASCII, ascii_bytes, utf8.RuneSelf.
  pose proof (to_bytes_range s) as Hr.
  induction Hr as [|b l Hb Hl IH]; cbn [forallb].
  - split; [constructor | reflexivity].
  - rewrite andb_true_iff, Forall_cons, IH, Z.ltb_lt. intuition lia.
Qed.

Lemma of_bytes_to_bytes (s : string) : of_bytes (to_bytes s) = s.
Proof.
  induction s as [|c s IH]; [reflexivity|].
  rewrite to_bytes_cons.
  change (of_bytes (byte_val c :: to_bytes s))
    with (String (byte_chr (byte_val c)) (of_bytes (to_bytes s))).
  now rewrite byte_chr_val, IH.
Qed.

Lemma runes_of_ascii_string (s : string) :
  strings.isASCII s = true -> runes_of_string s = to_bytes s.
Proof.
  intros H. unfold runes_of_string, range_string.
  rewrite (range_string_ascii s _ 0 H (le_n _)).
  apply map_snd_imap_pair.
Qed.

Lemma string_of_ascii_runes (l : list Z) :
  ascii_bytes l -> string_of_runes l = of_bytes l.
Proof.
  intros H. unfold string_of_runes. f_equal.
  induction H as [|b l Hb Hl IH]; [reflexivity|].
  cbn [map concat]. rewrite IH. unfold utf8.EncodeRune.
  replace ((0 <=? b) && (b <=? 0x7F)) with true
    by (symmetry; apply andb_true_iff; lia).
  reflexivity.
Qed.

Lemma fold_lower_ascii (l : list Z) :
  ascii_bytes l -> ascii_bytes (map fold_lower l).
Proof.
  intros H. induction H as [|b l Hb Hl IH]; constructor; [|exact IH].
  unfold fold_lower, unicode.ToLower_ascii, unicode.MaxASCII.
  repeat match goal with
         | |- context [if ?c then _ else _] => destruct c eqn:?
         end; lia.
Qed.

Lemma fold_upper_ascii (l : list Z) :
  ascii_bytes l -> ascii_bytes (map fold_upper l).
Proof.
  intros H. induction H as [|b l Hb Hl IH]; constructor; [|exact IH].
  unfold fold_upper, unicode.ToUpper_ascii, unicode.MaxASCII.
  repeat match goal with
         | |- context [if ?c then _ else _] => destruct c eqn:?
         end; lia.
Qed.

Lemma ascii_bytes_range (l : list Z) :
  ascii_bytes l -> Forall (fun b => 0 <= b < 256) l.
Proof.
  intros H. eapply Forall_impl; [exact H|]. intros b Hb. cbn in Hb. lia.
Qed.

Lemma fold_lower_upper (b : Z) : fold_lower (fold_upper b) = fold_lower b.
Proof.
  unfold fold_lower, fold_upper, unicode.ToLower_ascii, unicode.ToUpper_ascii,
    unicode.MaxASCII.
  repeat match goal with
         | |- context [if ?c then _ else _] => destruct c eqn:?
         end; lia.
Qed.

Lemma fold_upper_lower (b : Z) : fold_upper (fold_lower b) = fold_upper b.
Proof.
  unfold fold_lower, fold_upper, unicode.ToLower_ascii, unicode.ToUpper_ascii,
    unicode.MaxASCII.
  repeat match goal with
         | |- context [if ?c then _ else _] => destruct c eqn:?
         end; lia.
Qed.

Lemma fold_upper_upper (b : Z) : fold_upper (fold_upper b) = fold_upper b.
Proof.
  unfold fold_upper, unicode.ToUpper_ascii, unicode.MaxASCII.
  repeat match goal with
         | |- context [if ?c then _ else _] => destruct c eqn:?
         end; lia.
Qed.

Lemma fold_upper_valid (r : rune) :
  strconv.ValidRune r = true -> strconv.ValidRune (fold_upper r) = true.
Proof.
  rewrite !ValidRune_iff.
  unfold fold_upper, unicode.ToUpper_ascii, unicode.MaxASCII.
  repeat match goal with
         | |- context [if ?c then _ else _] => destruct c eqn:?
         end; lia.
Qed.

(** [upper] on any string, by its runes. *)
Lemma upperASCII_runes (str : string) (rs : list rune) :
  runes_of_string str = rs ->
  upperASCII str = Return (types_String (string_of_runes (map fold_upper rs))).
Proof.
  intros <-. unfold upperASCII.
  pose proof (upperASCII_loop (runes_of_string str) []) as H.
  cbn [length app] in H. rewrite H. reflexivity.
Qed.

(** [lower] and [upper] on an ASCII string, by its bytes. *)
Lemma lowerASCII_ascii_bytes (s : string) : strings.isASCII s = true ->
  lowerASCII s = Return (types_String (of_bytes (map fold_lower (to_bytes s)))).
Proof.
  intros Hascii.
  rewrite <- string_of_ascii_runes
    by (apply fold_lower_ascii; now apply isASCII_bytes).
  unfold lowerASCII, runes_of_string, range_string.
  rewrite (range_string_ascii s _ 0 Hascii (le_n _)).
  rewrite map_snd_imap_pair.
  pose proof (lowerASCII_loop (to_bytes s) []) as H.
  cbn [length app] in H.
  exact (f_equal
           (fun st : Go (list rune) =>
              match st with
              | Panic => Panic
              | Return runes => Return (types_String (string_of_runes runes))
              end) H).
Qed.

Lemma upperASCII_ascii_bytes (s : string) : strings.isASCII s = true ->
  upperASCII s = Return (types_String (of_bytes (map fold_upper (to_bytes s)))).
Proof.
  intros Hascii.
  rewrite (upperASCII_runes s (to_bytes s)) by now apply runes_of_ascii_string.
  rewrite string_of_ascii_runes
    by (apply fold_upper_ascii; now apply isASCII_bytes).
  reflexivity.
Qed.

Lemma isASCII_of_bytes (l : list Z) :
  ascii_bytes l -> strings.isASCII (of_bytes l) = true.
Proof.
  intros H. apply isASCII_bytes.
  rewrite to_bytes_of_bytes by now apply ascii_bytes_range. exact H.
Qed.

(** What [upper] returns is a fixed point of [upper]: on every string,
    well-formed or not, a second application changes nothing. *)
Theorem upperASCII_idempotent (s : string) :
  exists u, upperASCII s = Return (types_String u)
            /\ upperASCII u = Return (types_String u).
Proof.
  exists (string_of_runes (map fold_upper (runes_of_string s))).
  split; [now apply upperASCII_runes|].
  rewrite (upperASCII_runes _ (map fold_upper (runes_of_string s))).
  - rewrite map_map. do 3 f_equal. apply map_ext. intros r. apply fold_upper_upper.
  - apply runes_of_string_of_runes.
    apply Forall_map. eapply Forall_impl; [apply (range_runes_valid _ 0 s)|].
    intros r Hr. now apply fold_upper_valid.
Qed.

(** On a string of ASCII bytes [lower] and [upper] absorb each other:
    [lower] of the result of [upper] is [lower] of the string, and [upper] of
    the result of [lower] is [upper] of the string. *)
Theorem lower_upper_absorb_ascii (s : string) :
  strings.isASCII s = true ->
  exists u l,
    upperASCII s = Return (types_String u)
    /\ lowerASCII s = Return (types_String l)
    /\ lowerASCII u = Return (types_String l)
    /\ upperASCII l = Return (types_String u).
Proof.
  intros Hascii. pose proof (proj1 (isASCII_bytes s) Hascii) as Hb.
  exists (of_bytes (map fold_upper (to_bytes s))),
         (of_bytes (map fold_lower (to_bytes s))).
  split; [now apply upperASCII_ascii_bytes|].
  split; [now apply lowerASCII_ascii_bytes|].
  split.
  - rewrite lowerASCII_ascii_bytes
      by (apply isASCII_of_bytes; now apply fold_upper_ascii).
    rewrite to_bytes_of_bytes
      by (apply ascii_bytes_range; now apply fold_upper_ascii).
    rewrite map_map. do 3 f_equal. apply map_ext. intros b. apply fold_lower_upper.
  - rewrite upperASCII_ascii_bytes
      by (apply isASCII_of_bytes; now apply fold_lower_ascii).
    rewrite to_bytes_of_bytes
      by (apply ascii_bytes_range; now apply fold_lower_ascii).
    rewrite map_map. do 3 f_equal. apply map_ext. intros b. apply fold_upper_lower.
Qed.

Lemma lower_upper_absorb_ascii_witness :
  strings.isASCII "Get" = true
  /\ exists u l,
       upperASCII "Get" = Return (types_String u)
       /\ lowerASCII "Get" = Return (types_String l)
       /\ lowerASCII u = Return (types_String l)
       /\ upperASCII l = Return (types_String u).
Proof.
  split; [reflexivity|].
  exact (lower_upper_absorb_ascii "Get" eq_refl).
Defined.

(** *** When [lower] panics *)

(** The loop of [lowerASCII] on any sequence of offsets and runes: it panics
    exactly when an ASCII rune comes with an offset outside the slice, and
    the slice keeps its length otherwise. *)
Lemma lowerASCII_fold (l : list (nat * rune)) : forall runes : list rune,
  let body (st : Go (list rune)) (ir : nat * rune) : Go (list rune) :=
    match st with
    | Panic => Panic
    | Return runes =>
        let '(i, r) := ir in
        if r <=? unicode.MaxASCII then
          if (i <? length runes)%nat
          then Return (<[i := unicode.ToLower_ascii r]> runes)
          else Panic
        else Return runes
    end in
  (Exists (fun ir => snd ir <= unicode.MaxASCII /\ (length runes <= fst ir)%nat) l
   /\ fold_left body l (Return runes) = Panic)
  \/ (~ Exists (fun ir => snd ir <= unicode.MaxASCII
                          /\ (length runes <= fst ir)%nat) l
      /\ exists runes', fold_left body l (Return runes) = Return runes'
                        /\ length runes' = length runes).
Proof.
  intros runes body. revert runes.
  assert (Hpanic : forall rest, fold_left body rest Panic = Panic)
    by (intros rest; induction rest as [|x rest IH]; [reflexivity | exact IH]).
  subst body.
  induction l as [|[i r] l IH]; intros runes.
  - right. split; [intros H; inversion H|]. exists runes. split; reflexivity.
  - cbn [fold_left].
    destruct (Z.leb_spec r unicode.MaxASCII) as [Hr|Hr].
    + destruct (Nat.ltb_spec i (length runes)) as [Hi|Hi].
      * destruct (IH (<[i := unicode.ToLower_ascii r]> runes))
          as [[HE Hf]|[HE (runes' & Hf & Hlen)]];
          rewrite length_insert in *.
        -- left. split; [now apply Exists_cons_tl | exact Hf].
        -- right. split.
           ++ intros H. apply Exists_cons in H. cbn [fst snd] in H.
              destruct H as [[_ H]|H]; [lia | contradiction].
           ++ exists runes'. split; [exact Hf | exact Hlen].
      * left. split; [|apply Hpanic].
        apply Exists_cons_hd. cbn [fst snd]. split; assumption.
    + destruct (IH runes) as [[HE Hf]|[HE (runes' & Hf & Hlen)]].
      * left. split; [now apply Exists_cons_tl | exact Hf].
      * right. split.
        -- intros H. apply Exists_cons in H. cbn [fst snd] in H.
           destruct H as [[H _]|H]; [lia | contradiction].
        -- exists runes'. split; assumption.
Qed.

(** [lower] panics exactly on the strings in which some ASCII character
    starts at a byte offset that is not below the number of code points. *)
Theorem lowerASCII_panics_iff (s : string) :
  lowerASCII s = Panic
  <-> Exists (fun ir => snd ir <= unicode.MaxASCII
                        /\ (length (runes_of_string s) <= fst ir)%nat)
             (range_string s).
Proof.
  unfold lowerASCII.
  destruct (lowerASCII_fold (range_string s) (runes_of_string s))
    as [[HE Hf]|[HE (runes' & Hf & Hlen)]]; rewrite Hf.
  - split; [intros _; exact HE | reflexivity].
  - split; [discriminate | contradiction].
Qed.


(** ** [utf8ToUnicode]: the shape of the output *)

Lemma isASCII_app (a b : string) :
  strings.isASCII (a ++ b) = strings.isASCII a && strings.isASCII b.
Proof. unfold strings.isASCII. rewrite to_bytes_app. apply forallb_app. Qed.

Lemma isASCII_cons (c : ascii) (s : string) :
  strings.isASCII (String c s)
  = (byte_val c <? utf8.RuneSelf) && strings.isASCII s.
Proof. unfold strings.isASCII. rewrite to_bytes_cons. reflexivity. Qed.

Lemma lowerhex_ascii (d : Z) : 0 <= d < 16 ->
  (byte_val (lowerhex d) <? utf8.RuneSelf) = true.
Proof.
  intros Hd. pose proof (below_16_cases d Hd) as H. hex_cases H; reflexivity.
Qed.

Lemma hex_digit_ascii (v k : Z) :
  strings.isASCII (String (hex_digit_at v k) EmptyString) = true.
Proof.
  rewrite isASCII_cons. unfold hex_digit_at.
  rewrite lowerhex_ascii by apply nibble_range. reflexivity.
Qed.

Lemma percent_u_ascii (v : rune) : strings.isASCII (percent_u v) = true.
Proof.
  unfold percent_u. rewrite !isASCII_app.
  change (String (hex_digit_at v 3) ?s)
    with (String (hex_digit_at v 3) EmptyString ++ s).
  change (String (hex_digit_at v 2) ?s)
    with (String (hex_digit_at v 2) EmptyString ++ s).
  change (String (hex_digit_at v 1) (String (hex_digit_at v 0) EmptyString))
    with (String (hex_digit_at v 1) EmptyString
          ++ String (hex_digit_at v 0) EmptyString).
  rewrite !isASCII_app, !hex_digit_ascii.
  destruct (0xfffff <? v), (0xffff <? v); rewrite ?hex_digit_ascii; reflexivity.
Qed.

(** The rendering of a rune that [range] yields is ASCII text. *)
Lemma escape_rune_ascii (r : rune) : strconv.ValidRune r = true ->
  strings.isASCII (escape_rune r) = true.
Proof.
  intros Hv. apply ValidRune_iff in Hv. unfold escape_rune, passed_to_WriteRune.
  destruct (Z.ltb_spec r 0x80) as [Hr|Hr]; cbn [orb].
  - unfold WriteRune. cbn [String.append].
    apply isASCII_of_bytes. unfold utf8.EncodeRune.
    replace ((0 <=? r) && (r <=? 0x7F)) with true
      by (symmetry; apply andb_true_iff; lia).
    repeat constructor; lia.
  - replace ((0xD800 <=? r) && (r <=? 0xDFFF)) with false
      by (symmetry; apply andb_false_iff; lia).
    replace (0x110000 <=? r) with false by (symmetry; lia).
    apply percent_u_ascii.
Qed.

(** An ASCII rune is rendered as itself. *)
Lemma escape_rune_byte (b : Z) : 0 <= b < 0x80 ->
  escape_rune b = String (byte_chr b) EmptyString.
Proof.
  intros Hb. unfold escape_rune, passed_to_WriteRune.
  destruct (Z.ltb_spec b 0x80); [|lia]. cbn [orb].
  rewrite WriteRune_ascii by assumption. reflexivity.
Qed.

Lemma concat_escape_ascii (rs : list rune) :
  Forall (fun r => strconv.ValidRune r = true) rs ->
  strings.isASCII (String.concat EmptyString (map escape_rune rs)) = true.
Proof.
  induction 1 as [|r rs Hr Hrs IH]; [reflexivity|].
  cbn [map String.concat].
  destruct (map escape_rune rs) as [|e es] eqn:E.
  - now apply escape_rune_ascii.
  - rewrite !isASCII_app, escape_rune_ascii by assumption. exact IH.
Qed.

Lemma concat_escape_bytes (bs : list Z) : ascii_bytes bs ->
  String.concat EmptyString (map escape_rune bs) = of_bytes bs.
Proof.
  induction 1 as [|b bs Hb Hbs IH]; [reflexivity|].
  cbn [map String.concat]. rewrite escape_rune_byte by assumption.
  destruct (map escape_rune bs) as [|e es] eqn:E.
  - destruct bs; [reflexivity | discriminate].
  - rewrite IH. reflexivity.
Qed.

(** The loop of [utf8ToUnicodeString] from any builder. *)
Lemma utf8ToUnicode_fold (rs : list rune) : forall sb : string,
  fold_left (fun st r => sb ← st; utf8ToUnicode_body sb r) rs (Return sb)
  = Return (sb ++ String.concat EmptyString (map escape_rune rs)).
Proof.
  induction rs as [|r rs IH]; intros sb; cbn [fold_left map].
  - cbn. now rewrite str_app_nil_r.
  - cbn [mbind Go_bind]. rewrite utf8ToUnicode_body_escape, IH.
    f_equal. rewrite str_app_assoc. f_equal.
    destruct rs; cbn; [now rewrite str_app_nil_r | reflexivity].
Qed.

Lemma utf8ToUnicodeString_runes (s : string) (rs : list rune) :
  runes_of_string s = rs ->
  utf8ToUnicodeString s
  = Return (types_String (String.concat EmptyString (map escape_rune rs))).
Proof.
  intros <-. unfold utf8ToUnicodeString. rewrite utf8ToUnicode_fold.
  reflexivity.
Qed.

(** On every string [utf8ToUnicode] returns, rune by rune of the range
    over the string, the rendering [render_rune]: a code point below 0x80
    is written as its own byte, any other one [v] as [%u] and lowercase hex
    digits, the four low ones always, a fifth only when [v > 0xffff] and a
    sixth only when [v > 0xfffff], whichever branch of the function
    selected it. *)
Theorem utf8ToUnicodeString_renders (s : string) :
  utf8ToUnicodeString s
  = Return (types_String
              (String.concat EmptyString
                 (map render_rune (runes_of_string s)))).
Proof.
  rewrite (utf8ToUnicodeString_runes s _ eq_refl). do 3 f_equal.
  pose proof (range_runes_valid (String.length s) 0 s) as Hvalid.
  change (map snd (range_string_from (String.length s) 0 s))
    with (runes_of_string s) in Hvalid.
  induction Hvalid as [|r rs Hr _ IH]; [reflexivity|].
  cbn [map]. rewrite IH. f_equal.
  apply ValidRune_iff in Hr. unfold render_rune.
  destruct (Z.ltb_spec r 0x80) as [Hlt|Hge].
  - apply escape_rune_byte. lia.
  - unfold escape_rune, passed_to_WriteRune.
    replace (r <? 0x80) with false by (symmetry; lia).
    replace ((0xD800 <=? r) && (r <=? 0xDFFF)) with false
      by (symmetry; apply andb_false_iff; lia).
    replace (0x110000 <=? r) with false by (symmetry; lia).
    reflexivity.
Qed.

(** [utf8ToUnicode] returns ASCII text on every string, and leaves an ASCII
    string as it is; so what it returns is a fixed point: a second
    application changes nothing. *)
Theorem utf8ToUnicodeString_ascii_fixed_point (s : string) :
  exists t, utf8ToUnicodeString s = Return (types_String t)
            /\ strings.isASCII t = true
            /\ utf8ToUnicodeString t = Return (types_String t).
Proof.
  exists (String.concat EmptyString (map escape_rune (runes_of_string s))).
  split; [now apply utf8ToUnicodeString_runes|].
  assert (Hascii : strings.isASCII
            (String.concat EmptyString (map escape_rune (runes_of_string s)))
          = true) by (apply concat_escape_ascii, (range_runes_valid _ 0 s)).
  split; [exact Hascii|].
  rewrite (utf8ToUnicodeString_runes _ _ (runes_of_ascii_string _ Hascii)).
  rewrite concat_escape_bytes by now apply isASCII_bytes.
  now rewrite of_bytes_to_bytes.
Qed.

(** *** The bounds of [writeHexStr] *)

Lemma kHexChar_at_above (i : Z) : 16 <= i -> kHexChar_at i = Panic.
Proof.
  intros Hi. unfold kHexChar_at. destruct (Z.ltb_spec i 0); [reflexivity|].
  rewrite (lookup_ge_None_2 kHexChar (Z.to_nat i)); [reflexivity|].
  change (length kHexChar) with 16%nat. lia.
Qed.

(** The four low digits are written for any integer, negative or not. *)
Lemma writeHexStr_low (sb : string) (v : Z) :
  (c ← kHexChar_at (Z.land (Z.shiftr v 12) 0xf); let sb := WriteRune sb c in
   c ← kHexChar_at (Z.land (Z.shiftr v 8) 0xf); let sb := WriteRune sb c in
   c ← kHexChar_at (Z.land (Z.shiftr v 4) 0xf); let sb := WriteRune sb c in
   c ← kHexChar_at (Z.land v 0xf); mret (WriteRune sb c))
  = Return (sb ++ String (hex_digit_at v 3) (String (hex_digit_at v 2)
              (String (hex_digit_at v 1) (String (hex_digit_at v 0) EmptyString)))).
Proof.
  change 12 with (4 * 3). change 8 with (4 * 2).
  change (Z.shiftr v 4) with (Z.shiftr v (4 * 1)).
  replace (Z.land v 15) with (Z.land (Z.shiftr v (4 * 0)) 0xf) by reflexivity.
  rewrite !nibble_at by lia.
  rewrite !kHexChar_at_digit by apply nibble_range.
  cbn [mbind Go_bind]. unfold mret, Go_ret.
  rewrite !WriteRune_hex by apply nibble_range.
  unfold hex_digit_at. rewrite !str_app_assoc. reflexivity.
Qed.

(** [writeHexStr] indexes its table of sixteen digits with [v>>20] when
    [v > 0xfffff]: it panics exactly from [0x1000000] on.  Below, negative
    values included, it writes [%u] and four, five or six digits. *)
Theorem writeHexStr_panics_iff (sb : string) (v : Z) :
  (writeHexStr sb v = Panic <-> 0x1000000 <= v)
  /\ (v < 0x1000000 ->
      exists digits,
        writeHexStr sb v = Return (sb ++ "%u" ++ digits)
        /\ String.length digits
           = if 0xfffff <? v then 6%nat else if 0xffff <? v then 5%nat else 4%nat).
Proof.
  assert (Hbig : 0x1000000 <= v -> writeHexStr sb v = Panic).
  { intros Hv. unfold writeHexStr.
    destruct (Z.ltb_spec 0xfffff v); [|lia].
    rewrite (kHexChar_at_above (Z.shiftr v 20)); [reflexivity|].
    rewrite Z.shiftr_div_pow2 by lia. apply Z.div_le_lower_bound; lia. }
  assert (Hsmall : v < 0x1000000 ->
      exists digits,
        writeHexStr sb v = Return (sb ++ "%u" ++ digits)
        /\ String.length digits
           = if 0xfffff <? v then 6%nat else if 0xffff <? v then 5%nat else 4%nat).
  { intros Hv. unfold writeHexStr, WriteString.
    destruct (Z.ltb_spec 0xfffff v) as [H6|H6].
    - destruct (Z.ltb_spec 0xffff v); [|lia].
      rewrite (kHexChar_at_digit (Z.shiftr v 20)).
      2: { rewrite Z.shiftr_div_pow2 by lia.
           split; [apply Z.div_pos; lia | apply Z.div_lt_upper_bound; lia]. }
      cbn [mbind Go_bind mret Go_ret].
      rewrite WriteRune_hex.
      2: { rewrite Z.shiftr_div_pow2 by lia.
           split; [apply Z.div_pos; lia | apply Z.div_lt_upper_bound; lia]. }
      change 16 with (4 * 4) at 1. rewrite write_nibble by lia.
      cbn [mbind Go_bind]. rewrite writeHexStr_low.
      eexists. rewrite !str_app_assoc. split; [reflexivity|]. reflexivity.
    - cbn [mbind Go_bind mret Go_ret].
      destruct (Z.ltb_spec 0xffff v) as [H5|H5].
      + change 16 with (4 * 4) at 1. rewrite write_nibble by lia.
        cbn [mbind Go_bind]. rewrite writeHexStr_low.
        eexists. rewrite !str_app_assoc. split; [reflexivity|]. reflexivity.
      + cbn [mbind Go_bind mret Go_ret]. rewrite writeHexStr_low.
        eexists. rewrite !str_app_assoc. split; [reflexivity|]. reflexivity. }
  split; [|exact Hsmall].
  split; [|exact Hbig].
  intros Hp. destruct (Z.le_gt_cases 0x1000000 v) as [|Hlt]; [assumption|].
  destruct (Hsmall ltac:(lia)) as (digits & Hd & _). congruence.
Qed.


(** ** [urlDecodeUni] against [urlDecode] and [utf8ToUnicode] *)

(** The position [idx] of a string by what is left from it on. *)
Lemma str_drop_cons (s : string) : forall (i : nat) (c : ascii) (tl : string),
  str_drop i s = String c tl ->
  String.get i s = Some c /\ str_drop (S i) s = tl.
Proof.
  induction s as [|x s IH]; intros i c tl H.
  - destruct i; discriminate.
  - destruct i as [|i]; cbn in *.
    + injection H as -> ->. split; [reflexivity | now destruct tl].
    + now apply IH.
Qed.

Lemma str_drop_add (s : string) : forall i k : nat,
  str_drop (i + k) s = str_drop k (str_drop i s).
Proof.
  induction s as [|x s IH]; intros i k.
  - destruct i, k; reflexivity.
  - destruct i as [|i]; [reflexivity|]. cbn. apply IH.
Qed.

Lemma str_drop_nil (s : string) (i : nat) :
  str_drop i s = EmptyString -> (String.length s <= i)%nat.
Proof.
  intros H. pose proof (str_drop_length s i) as L. rewrite H in L.
  cbn in L. lia.
Qed.

(** One pass through the body at a byte that is no [%]. *)
Lemma urlDecodeUni_body_plain (str : string) (idx : nat) (sb : string)
  (c : ascii) (tl : string) :
  str_drop idx str = String c tl -> c <> "%"%char ->
  urlDecodeUni_body str idx sb
  = Return (uni_next (idx + 1)
              (sb ++ String (if Ascii.eqb c "+" then " "%char else c) EmptyString)).
Proof.
  intros Hd Hc. apply str_drop_cons in Hd. destruct Hd as [Hget _].
  unfold urlDecodeUni_body. rewrite (index_get _ _ _ Hget).
  cbn [mbind Go_bind].
  destruct (Ascii.eqb_spec c "%"); [contradiction|].
  destruct (Ascii.eqb c "+"); reflexivity.
Qed.

Lemma ishex_not_u (a : ascii) : url.ishex a = true ->
  Ascii.eqb a "u" || Ascii.eqb a "U" = false.
Proof.
  intros H. destruct (Ascii.eqb_spec a "u") as [->|_]; [discriminate|].
  destruct (Ascii.eqb_spec a "U") as [->|_]; [discriminate|]. reflexivity.
Qed.

(** One pass through the body at a well-formed [%XY]. *)
Lemma urlDecodeUni_body_escape (str : string) (idx : nat) (sb : string)
  (a b : ascii) (tl : string) :
  str_drop idx str = String "%" (String a (String b tl)) ->
  url.ishex a = true -> url.ishex b = true ->
  urlDecodeUni_body str idx sb
  = Return (uni_next (idx + 2 + 1)
              (sb ++ String (byte_chr (Z.lor (Z.shiftl (url.unhex a) 4)
                                             (url.unhex b))) EmptyString)).
Proof.
  intros Hd Ha Hb.
  pose proof (str_drop_length str idx) as L. rewrite Hd in L.
  cbn [String.length] in L.
  pose proof Hd as Hd0. apply str_drop_cons in Hd0. destruct Hd0 as [H0 Hd1].
  apply str_drop_cons in Hd1. destruct Hd1 as [H1 _].
  unfold urlDecodeUni_body. rewrite (index_get _ _ _ H0).
  cbn [mbind Go_bind Ascii.eqb Bool.eqb]. cbn [andb].
  destruct (Nat.leb_spec (String.length str) (idx + 1)); [lia|].
  replace (idx + 1)%nat with (S idx) by lia.
  rewrite (index_get _ _ _ H1). cbn [mbind Go_bind].
  rewrite (ishex_not_u a Ha). cbn [mbind Go_bind mret Go_ret].
  destruct (Nat.leb_spec (String.length str) (idx + 2)); [lia|].
  rewrite (slice_in_range str idx (idx + 3)) by lia. cbn [mbind Go_bind].
  unfold str_slice. replace (idx + 3 - idx)%nat with 3%nat by lia.
  rewrite Hd. cbn [str_take]. unfold url.QueryUnescape.
  cbn [url.unescape_check url.unescape_write Ascii.eqb Bool.eqb]. cbn [andb].
  rewrite Ha, Hb. cbn [andb]. reflexivity.
Qed.

(** One pass through the body at an accepted [%uXXXX]. *)
Lemma urlDecodeUni_body_unicode (str : string) (idx : nat) (sb : string)
  (u x1 x2 x3 x4 : ascii) (tl r : string) :
  str_drop idx str
  = String "%" (String u (String x1 (String x2 (String x3 (String x4 tl))))) ->
  u = "u"%char \/ u = "U"%char ->
  strconv.Unquote_u4 (String x1 (String x2 (String x3 (String x4 EmptyString))))
  = Some r ->
  urlDecodeUni_body str idx sb = Return (uni_next (idx + 5 + 1) (sb ++ r)).
Proof.
  intros Hd Hu Hr.
  pose proof (str_drop_length str idx) as L. rewrite Hd in L.
  cbn [String.length] in L.
  pose proof Hd as Hd0. apply str_drop_cons in Hd0. destruct Hd0 as [H0 Hd1].
  pose proof Hd1 as Hd1'. apply str_drop_cons in Hd1'. destruct Hd1' as [H1 Hd2].
  unfold urlDecodeUni_body. rewrite (index_get _ _ _ H0).
  cbn [mbind Go_bind Ascii.eqb Bool.eqb]. cbn [andb].
  destruct (Nat.leb_spec (String.length str) (idx + 1)); [lia|].
  replace (idx + 1)%nat with (S idx) by lia.
  rewrite (index_get _ _ _ H1). cbn [mbind Go_bind].
  replace (Ascii.eqb u "u" || Ascii.eqb u "U") with true
    by (destruct Hu as [-> | ->]; reflexivity).
  destruct (Nat.leb_spec (String.length str) (idx + 5)); [lia|].
  rewrite (slice_in_range str (idx + 2) (idx + 6)) by lia.
  cbn [mbind Go_bind].
  unfold str_slice. replace (idx + 6 - (idx + 2))%nat with 4%nat by lia.
  replace (idx + 2)%nat with (S (S idx)) by lia. rewrite Hd2.
  cbn [str_take]. rewrite Hr. reflexivity.
Qed.

(** The loop of [urlDecodeUni] from an index from which [QueryUnescape]
    accepts the rest of the string: it writes what [QueryUnescape] writes. *)
Lemma urlDecodeUni_loop_unescape (fuel : nat) :
  forall (str : string) (idx : nat) (sb : string),
    (String.length str <= idx + fuel)%nat ->
    url.unescape_check (str_drop idx str) = None ->
    urlDecodeUni_loop fuel str idx sb
    = Some (Return (types_String (sb ++ url.unescape_write (str_drop idx str)))).
Proof.
  induction fuel as [|fuel IH]; intros str idx sb Hfuel Hcheck.
  - cbn [urlDecodeUni_loop].
    destruct (Nat.leb_spec (String.length str) idx); [|lia].
    destruct (str_drop idx str) as [|c tl] eqn:Hd.
    + now rewrite str_app_nil_r.
    + pose proof (str_drop_length str idx) as L. rewrite Hd in L.
      cbn in L. lia.
  - cbn [urlDecodeUni_loop].
    destruct (str_drop idx str) as [|c tl] eqn:Hd.
    { apply str_drop_nil in Hd.
      destruct (Nat.leb_spec (String.length str) idx); [|lia].
      now rewrite str_app_nil_r. }
    pose proof (str_drop_length str idx) as L. rewrite Hd in L.
    cbn [String.length] in L.
    destruct (Nat.leb_spec (String.length str) idx); [lia|].
    cbn [url.unescape_check url.unescape_write] in *.
    destruct (Ascii.eqb_spec c "%") as [->|Hpct].
    + destruct tl as [|a [|b rest]]; try discriminate.
      destruct (url.ishex a) eqn:Ha; [|discriminate].
      destruct (url.ishex b) eqn:Hb; [|discriminate].
      cbn [andb] in Hcheck.
      rewrite (urlDecodeUni_body_escape _ _ _ _ _ _ Hd Ha Hb).
      assert (Hrest : str_drop (idx + 2 + 1) str = rest).
      { replace (idx + 2 + 1)%nat with (idx + 3)%nat by lia.
        rewrite str_drop_add, Hd. reflexivity. }
      rewrite IH; rewrite ?Hrest; [|cbn [String.length] in L; lia|assumption].
      rewrite str_app_assoc. reflexivity.
    + rewrite (urlDecodeUni_body_plain _ _ _ _ _ Hd Hpct).
      assert (Hrest : str_drop (idx + 1) str = tl).
      { rewrite str_drop_add, Hd. reflexivity. }
      destruct (Ascii.eqb c "+");
        (rewrite IH; rewrite ?Hrest; [|lia|assumption]);
        rewrite str_app_assoc; reflexivity.
Qed.

(** Wherever [urlDecode] returns a string, [urlDecodeUni] returns the same
    string: the two functions differ only on the inputs [urlDecode]
    refuses. *)
Theorem urlDecodeUni_extends_urlDecode (Quote : string -> string)
  (s t : string) :
  urlDecodeString Quote s = types_String t ->
  urlDecodeUniString s = Some (Return (types_String t)).
Proof.
  unfold urlDecodeString, url.QueryUnescape.
  destruct (url.unescape_check s) eqn:Hcheck; [discriminate|].
  intros [= <-]. unfold urlDecodeUniString.
  apply (urlDecodeUni_loop_unescape _ s 0 EmptyString); [lia | exact Hcheck].
Qed.

Lemma urlDecodeUni_extends_urlDecode_witness :
  urlDecodeString Quote_ascii "q=a+b%21" = types_String "q=a b!"
  /\ urlDecodeUniString "q=a+b%21" = Some (Return (types_String "q=a b!")).
Proof.
  split; [reflexivity|].
  exact (urlDecodeUni_extends_urlDecode Quote_ascii "q=a+b%21" "q=a b!" eq_refl).
Defined.


(** *** [urlDecodeUni] reads back what [utf8ToUnicode] writes *)

Lemma ishex_lowerhex (d : Z) : 0 <= d < 16 -> url.ishex (lowerhex d) = true.
Proof.
  intros Hd. pose proof (below_16_cases d Hd) as H. hex_cases H; reflexivity.
Qed.

Lemma unhex_lowerhex (d : Z) : 0 <= d < 16 -> url.unhex (lowerhex d) = d.
Proof.
  intros Hd. pose proof (below_16_cases d Hd) as H. hex_cases H; reflexivity.
Qed.

Lemma lor_shift4 (x y : Z) : 0 <= y < 16 ->
  Z.lor (Z.shiftl x 4) y = 16 * x + y.
Proof.
  intros Hy. rewrite Z.shiftl_mul_pow2 by lia.
  rewrite (lor_disjoint _ _ 4); [lia | lia | exact Hy | apply Z.mod_mul; lia].
Qed.

(** The four digits [utf8ToUnicode] writes for a code point of the basic
    plane are accepted by [strconv.Unquote] and name that code point. *)
Lemma Unquote_u4_hex_digits (v : rune) :
  strconv.ValidRune v = true -> v < 0x10000 ->
  strconv.Unquote_u4
    (String (hex_digit_at v 3) (String (hex_digit_at v 2)
       (String (hex_digit_at v 1) (String (hex_digit_at v 0) EmptyString))))
  = Some (of_bytes (utf8.EncodeRune v)).
Proof.
  intros Hv Hbmp. pose proof Hv as Hr. apply ValidRune_iff in Hr.
  rewrite Unquote_u4_spec by reflexivity.
  assert (Hval : strconv.hex_value
            (String (hex_digit_at v 3) (String (hex_digit_at v 2)
               (String (hex_digit_at v 1)
                  (String (hex_digit_at v 0) EmptyString)))) = v).
  { unfold strconv.hex_value, hex_digit_at.
    cbn [list_ascii_of_string fold_left].
    rewrite !unhex_lowerhex by apply nibble_range.
    rewrite !lor_shift4 by apply nibble_range.
    change (16 ^ 3) with 4096. change (16 ^ 2) with 256.
    change (16 ^ 1) with 16. change (16 ^ 0) with 1.
    Z.div_mod_to_equations. lia. }
  rewrite Hval, Hv. unfold hex_digit_at.
  cbn [list_ascii_of_string forallb].
  rewrite !ishex_lowerhex by apply nibble_range. reflexivity.
Qed.

Lemma concat_empty_cons (x : string) (xs : list string) :
  String.concat EmptyString (x :: xs) = x ++ String.concat EmptyString xs.
Proof. destruct xs; cbn; [now rewrite str_app_nil_r | reflexivity]. Qed.

Lemma string_of_runes_cons (r : rune) (rs : list rune) :
  string_of_runes (r :: rs) = of_bytes (utf8.EncodeRune r) ++ string_of_runes rs.
Proof. unfold string_of_runes. cbn [map concat]. apply of_bytes_app. Qed.

(** The loop of [urlDecodeUni] from an index from which the string is the
    rendering of the runes [rs]. *)
Lemma urlDecodeUni_loop_escaped (rs : list rune) :
  Forall (fun r => strconv.ValidRune r = true) rs -> Forall read_back rs ->
  forall (fuel : nat) (str : string) (idx : nat) (sb : string),
    str_drop idx str = String.concat EmptyString (map escape_rune rs) ->
    (String.length str <= idx + fuel)%nat ->
    urlDecodeUni_loop fuel str idx sb
    = Some (Return (types_String (sb ++ string_of_runes rs))).
Proof.
  intros Hvalid. induction Hvalid as [|r rs Hv Hvalid IH]; intros Hback.
  - intros fuel str idx sb Hd _. apply str_drop_nil in Hd.
    destruct fuel; cbn [urlDecodeUni_loop];
      (destruct (Nat.leb_spec (String.length str) idx); [|lia]);
      now rewrite str_app_nil_r.
  - apply Forall_cons in Hback. destruct Hback as [(Hbmp & Hpct & Hplus) Hback].
    specialize (IH Hback).
    intros fuel str idx sb Hd Hfuel.
    cbn [map] in Hd. rewrite concat_empty_cons in Hd.
    rewrite string_of_runes_cons, <- str_app_assoc.
    pose proof Hv as Hr. apply ValidRune_iff in Hr.
    pose proof (str_drop_length str idx) as L. rewrite Hd in L.
    destruct (Z.ltb_spec r 0x80) as [Hascii|Hhigh].
    + (* an ASCII rune, written as itself *)
      rewrite escape_rune_byte in Hd, L by lia.
      rewrite str_app_cons in Hd, L. cbn [String.length] in L.
      destruct fuel as [|fuel]; [lia|]. cbn [urlDecodeUni_loop].
      destruct (Nat.leb_spec (String.length str) idx); [lia|].
      assert (Hc : byte_chr r <> "%"%char).
      { intros E. apply (f_equal byte_val) in E.
        rewrite byte_val_chr in E by lia. vm_compute in E. congruence. }
      rewrite (urlDecodeUni_body_plain _ _ _ _ _ Hd Hc).
      destruct (Ascii.eqb_spec (byte_chr r) "+") as [E|_].
      { apply (f_equal byte_val) in E.
        rewrite byte_val_chr in E by lia. vm_compute in E. congruence. }
      rewrite (IH fuel str (idx + 1)%nat); [| |lia].
      * do 3 f_equal. unfold utf8.EncodeRune.
        replace ((0 <=? r) && (r <=? 0x7F)) with true
          by (symmetry; apply andb_true_iff; lia).
        reflexivity.
      * rewrite str_drop_add, Hd. reflexivity.
    + (* a rune of the basic plane, written as [%u] and four digits *)
      assert (Hesc : escape_rune r
                     = String "%" (String "u" (String (hex_digit_at r 3)
                         (String (hex_digit_at r 2) (String (hex_digit_at r 1)
                            (String (hex_digit_at r 0) EmptyString)))))).
      { unfold escape_rune, passed_to_WriteRune.
        destruct (Z.ltb_spec r 0x80); [lia|].
        replace ((0xD800 <=? r) && (r <=? 0xDFFF)) with false
          by (symmetry; apply andb_false_iff; lia).
        replace (0x110000 <=? r) with false by (symmetry; lia).
        cbn [orb]. unfold percent_u.
        destruct (Z.ltb_spec 0xfffff r); [lia|].
        destruct (Z.ltb_spec 0xffff r); [lia|]. reflexivity. }
      rewrite Hesc in Hd, L. rewrite !str_app_cons in Hd, L.
      cbn [String.length String.append] in L.
      change (EmptyString ++ ?x) with x in Hd.
      destruct fuel as [|fuel]; [lia|]. cbn [urlDecodeUni_loop].
      destruct (Nat.leb_spec (String.length str) idx); [lia|].
      rewrite (urlDecodeUni_body_unicode _ _ _ _ _ _ _ _ _ _ Hd
                 (or_introl eq_refl) (Unquote_u4_hex_digits r Hv Hbmp)).
      rewrite (IH fuel str (idx + 5 + 1)%nat); [reflexivity| |lia].
      replace (idx + 5 + 1)%nat with (idx + 6)%nat by lia.
      rewrite str_drop_add, Hd. reflexivity.
Qed.

(** Round trip: let [s] be well-formed UTF-8 (decoding it and encoding the
    code points gives [s] back) whose code points are all of the basic
    plane, none a percent or a plus sign; then [urlDecodeUni] applied to
    what [utf8ToUnicode] returns on [s] returns [s]. *)
Theorem urlDecodeUni_utf8ToUnicode_round_trip (s : string) :
  string_of_runes (runes_of_string s) = s ->
  Forall read_back (runes_of_string s) ->
  exists t, utf8ToUnicodeString s = Return (types_String t)
            /\ urlDecodeUniString t = Some (Return (types_String s)).
Proof.
  intros Hwf Hback.
  exists (String.concat EmptyString (map escape_rune (runes_of_string s))).
  split; [now apply utf8ToUnicodeString_runes|].
  unfold urlDecodeUniString.
  rewrite (urlDecodeUni_loop_escaped (runes_of_string s)
             (range_runes_valid _ 0 s) Hback
             _ _ 0%nat EmptyString); [| reflexivity | lia].
  now rewrite Hwf.
Qed.

Lemma urlDecodeUni_utf8ToUnicode_round_trip_witness :
  string_of_runes (runes_of_string (of_bytes [0x61; 0xC4; 0x80; 0x20; 0xD0; 0x81]))
    = of_bytes [0x61; 0xC4; 0x80; 0x20; 0xD0; 0x81]
  /\ Forall read_back
       (runes_of_string (of_bytes [0x61; 0xC4; 0x80; 0x20; 0xD0; 0x81]))
  /\ exists t,
       utf8ToUnicodeString (of_bytes [0x61; 0xC4; 0x80; 0x20; 0xD0; 0x81])
         = Return (types_String t)
       /\ urlDecodeUniString t
          = Some (Return (types_String
                            (of_bytes [0x61; 0xC4; 0x80; 0x20; 0xD0; 0x81]))).
Proof.
  assert (Hwf : string_of_runes
                  (runes_of_string (of_bytes [0x61; 0xC4; 0x80; 0x20; 0xD0; 0x81]))
                = of_bytes [0x61; 0xC4; 0x80; 0x20; 0xD0; 0x81])
    by (vm_compute; reflexivity).
  assert (Hback : Forall read_back
            (runes_of_string (of_bytes [0x61; 0xC4; 0x80; 0x20; 0xD0; 0x81]))).
  { vm_compute. repeat constructor; unfold read_back; lia. }
  split; [exact Hwf|]. split; [exact Hback|].
  exact (urlDecodeUni_utf8ToUnicode_round_trip _ Hwf Hback).
Defined.


(** ** Header lookups after the normalisation *)

(** Let no two distinct header names be equal after lowering; then, once
    the loop has visited every name, each header is found with its value
    both under its original name and under its lowered name, and the map
    holds nothing else. *)
Theorem HTTPHeaders_lookup (ToLower : string -> string)
  (h : gmap string string) (visit : list string) :
  collision_free ToLower h -> lowering_stable ToLower h ->
  (forall k, is_Some (h !! k) -> k ∈ visit) ->
  exists m,
    HTTPHeaders ToLower visit (Some h) = Some m
    /\ (forall k v, h !! k = Some v ->
          m !! k = Some v /\ m !! ToLower k = Some v)
    /\ (forall j v, m !! j = Some v ->
          exists k, h !! k = Some v /\ (j = k \/ j = ToLower k)).
Proof.
  intros Hfree Hstable Hcover.
  exists (lower_keys ToLower visit h). split; [reflexivity|].
  destruct (lowering_run ToLower h Hfree Hstable visit [] h
              (lowering_start ToLower h Hfree))
    as [Hkeeps Horigin Hdone].
  split.
  - intros k v Hk. split; [now apply Hkeeps|].
    apply Hdone; [|assumption]. apply Hcover. eauto.
  - exact Horigin.
Qed.

Lemma HTTPHeaders_lookup_witness :
  collision_free ToLower_latin1 user_agent_headers
  /\ lowering_stable ToLower_latin1 user_agent_headers
  /\ exists m,
       HTTPHeaders ToLower_latin1 ["User-Agent"] (Some user_agent_headers)
         = Some m
       /\ (forall k v, user_agent_headers !! k = Some v ->
             m !! k = Some v /\ m !! ToLower_latin1 k = Some v)
       /\ (forall j v, m !! j = Some v ->
             exists k, user_agent_headers !! k = Some v
                       /\ (j = k \/ j = ToLower_latin1 k)).
Proof.
  assert (Hkey : forall k, is_Some (user_agent_headers !! k) ->
                           k = "User-Agent").
  { intros k Hk. unfold user_agent_headers in Hk.
    apply lookup_singleton_is_Some in Hk. congruence. }
  assert (Hfree : collision_free ToLower_latin1 user_agent_headers).
  { intros k1 k2 H1 H2 _. apply Hkey in H1, H2. congruence. }
  assert (Hstable : lowering_stable ToLower_latin1 user_agent_headers).
  { intros k Hk. apply Hkey in Hk. subst k. vm_compute. reflexivity. }
  split; [exact Hfree|]. split; [exact Hstable|].
  apply (HTTPHeaders_lookup ToLower_latin1 user_agent_headers ["User-Agent"]
           Hfree Hstable).
  intros k Hk. apply Hkey in Hk. subst k. left.
Defined.

(** ** [VariablesFromYAML] *)

(** [VariablesFromYAML] returns the decoder's error and no variables, or
    variables and no error; on the variables it returns, [ResolveName]
    returns for every name, and [request.headers] resolves to a map that is
    not nil, also when the document names no request. *)
Theorem VariablesFromYAML_resolves (ToLower : string -> string)
  (Unmarshal : string -> Variables + string) (visit : list string)
  (yamlBytes : string) :
  (exists err, Unmarshal yamlBytes = inr err
     /\ VariablesFromYAML ToLower Unmarshal visit yamlBytes = (None, Some err))
  \/ (exists v,
        VariablesFromYAML ToLower Unmarshal visit yamlBytes = (Some v, None)
        /\ (forall name, exists value found,
              ResolveName v name = Return (value, found))
        /\ exists m, ResolveName v "request.headers"
                     = Return (any_map (Some m), true)).
Proof.
  unfold VariablesFromYAML. destruct (Unmarshal yamlBytes) as [v|err].
  - right. eexists. split; [reflexivity|]. split.
    + intros name. apply ResolveName_no_nil, SafeVariables_no_nil.
    + eexists. reflexivity.
  - left. exists err. split; reflexivity.
Qed.


(** ** A loaded suite *)

(** Every suite [TestSuiteFromYAML] returns is the decoded one with its
    name, expression and number of cases; none of its cases declares both
    an expected true and an expected error, and every case carries an
    activation on which [ResolveName] returns for every name: evaluating a
    loaded suite never dereferences nil. *)
Theorem TestSuiteFromYAML_returns_safe_cases (Quote ToLower : string -> string)
  (Unmarshal : string -> option TestSuite + string)
  (visits : nat -> list string) (yamlBytes : string) (loaded : TestSuite) :
  TestSuiteFromYAML Quote ToLower Unmarshal visits yamlBytes
  = Return (Some loaded, None) ->
  exists ts,
    Unmarshal yamlBytes = inl (Some ts)
    /\ TestSuite_Name loaded = TestSuite_Name ts
    /\ Expr loaded = Expr ts
    /\ length (Tests loaded) = length (Tests ts)
    /\ Forall (fun entry => exists t, entry = Some t
                                     /\ ~ conflicting t /\ resolvable t)
              (Tests loaded).
Proof.
  intros Hloaded.
  destruct (TestSuiteFromYAML_loaded Quote ToLower Unmarshal visits yamlBytes
              loaded Hloaded) as (ts & cases & Hts & E & Hall & ->).
  exists ts. cbn [TestSuite_Name Expr Tests].
  split; [assumption|]. repeat (split; [reflexivity|]).
  split; [now rewrite E, !length_map, length_imap|].
  apply Forall_lookup. intros i entry Hi.
  rewrite list_lookup_fmap, list_lookup_imap in Hi.
  destruct (cases !! i) as [t0|] eqn:Ht0; [|discriminate].
  cbn in Hi. injection Hi as <-. eexists. split; [reflexivity|]. split.
  - rewrite Forall_lookup in Hall. specialize (Hall i t0 Ht0).
    intros [H1 H2]. apply Hall. split; assumption.
  - apply SafeTestCase_resolvable.
Qed.

Lemma TestSuiteFromYAML_returns_safe_cases_witness :
  TestSuiteFromYAML Quote_ascii ToLower_latin1 Unmarshal_http_tests
    (fun _ => []) ""
  = Return (Some {| TestSuite_Name := "http-tests";
                    Expr := "request.method == 'GET'";
                    Tests := [Some (SafeTestCase ToLower_latin1 []
                                      http_case)] |}, None)
  /\ exists ts,
       Unmarshal_http_tests "" = inl (Some ts)
       /\ "http-tests" = TestSuite_Name ts
       /\ "request.method == 'GET'" = Expr ts
       /\ 1%nat = length (Tests ts)
       /\ Forall (fun entry => exists t, entry = Some t
                                        /\ ~ conflicting t /\ resolvable t)
                 [Some (SafeTestCase ToLower_latin1 [] http_case)].
Proof.
  split; [reflexivity|].
  exact (TestSuiteFromYAML_returns_safe_cases Quote_ascii ToLower_latin1
           Unmarshal_http_tests (fun _ => []) "" _ eq_refl).
Defined.

(** ** What the command line reports *)

Lemma RunRuleValidation_from (Quote : string -> string) (prg : Program)
  (testCases : list TestCase) : forall statuses : list TestStatus,
  fold_left
    (fun (statuses : list TestStatus) (tc : TestCase) =>
       let '(out, err) := prg (When tc) in
       match err with
       | Some e =>
           if negb (String.eqb (ExpectError tc) "") then
             if negb (Contains e (ExpectError tc)) then
               append statuses
                 {| TestStatus_Name := TestCase_Name tc; Pass := false;
                    Fail := "got error " ++ Quote e
                            ++ ", wanted error containing "
                            ++ Quote (ExpectError tc) |}
             else
               append statuses
                 {| TestStatus_Name := TestCase_Name tc; Pass := true;
                    Fail := "" |}
           else
             append statuses
               {| TestStatus_Name := TestCase_Name tc; Pass := false;
                  Fail := e |}
       | None =>
           if eq_Bool out (ExpectOutput tc) then
             append statuses
               {| TestStatus_Name := TestCase_Name tc; Pass := true;
                  Fail := "" |}
           else
             append statuses
               {| TestStatus_Name := TestCase_Name tc; Pass := false;
                  Fail := "expected result " ++ fmt_bool (ExpectOutput tc)
                          ++ ", got " ++ fmt_v out |}
       end)
    testCases statuses
  = (statuses ++ map (verdict Quote prg) testCases)%list.
Proof.
  induction testCases as [|tc rest IH]; intros statuses; cbn [fold_left map].
  - symmetry. apply app_nil_r.
  - rewrite RunRuleValidation_step, IH. unfold append.
    rewrite <- app_assoc. reflexivity.
Qed.

Lemma report_from (suite : string) (statuses : list TestStatus) :
  forall out : list event,
    fold_left (fun run s => run ;; Fprintf_Stderr (report_line suite s))
              statuses (Done out tt)
    = Done (out ++ map (fun s => Stderr (report_line suite s)) statuses) tt.
Proof.
  induction statuses as [|s statuses IH]; intros out; cbn [fold_left map].
  - now rewrite app_nil_r.
  - cbn [mbind Run_bind Fprintf_Stderr]. rewrite IH.
    rewrite <- app_assoc. reflexivity.
Qed.

Lemma report_of_verdicts (Quote : string -> string) (prg : Program)
  (suite : string) (testCases : list TestCase) :
  report suite (RunRuleValidation Quote prg testCases)
  = Done (map (fun tc => Stderr (report_line suite (verdict Quote prg tc)))
              testCases) tt.
Proof.
  unfold report, RunRuleValidation.
  rewrite RunRuleValidation_from. cbn [app].
  change (mret tt) with (Done (@nil event) tt).
  rewrite report_from. cbn [app]. now rewrite map_map.
Qed.

Lemma eqb_app_nonempty (c : ascii) (s t : string) :
  String.eqb (String c s ++ t) "" = false.
Proof. reflexivity. Qed.

Lemma fail_line_is_no_pass_line (suite name reason name' : string) :
  "FAIL " ++ suite ++ "/" ++ name ++ ": " ++ reason ++ newline
  <> pass_line suite name'.
Proof. intros E. apply (f_equal (String.get 0)) in E. discriminate. Qed.

(** The command line writes one line per test case, in the order of the
    suite.  The loop tests the text [Fail], not the flag [Pass]: the line is
    the PASS line exactly when the case passed, or when its evaluation
    raised an error with an empty message while the case expected no error,
    a case whose status has [Pass] false. *)
Theorem report_follows_verdicts (Quote : string -> string) (prg : Program)
  (suite : string) (testCases : list TestCase) :
  report suite (RunRuleValidation Quote prg testCases)
  = Done (map (fun tc => Stderr (report_line suite (verdict Quote prg tc)))
              testCases) tt
  /\ forall tc,
       report_line suite (verdict Quote prg tc)
       = pass_line suite (TestCase_Name tc)
       <-> (Pass (verdict Quote prg tc) = true
            \/ (ExpectError tc = ""
                /\ exists out, prg (When tc) = (out, Some ""))).
Proof.
  split.
  - apply report_of_verdicts.
  - intros tc. unfold verdict, report_line, PASS, FAIL.
    destruct (prg (When tc)) as [out [raised|]].
    + destruct (String.eqb_spec (ExpectError tc) "") as [Hno|Hexp].
      * cbn [Fail TestStatus_Name Pass].
        destruct (String.eqb_spec raised "") as [->|Hraised]; cbn [negb].
        -- split; [|reflexivity]. intros _. right. split; [assumption|].
           eexists. reflexivity.
        -- split.
           ++ intros E. now apply fail_line_is_no_pass_line in E.
           ++ intros [H|[_ [out' H]]]; [discriminate|]. congruence.
      * destruct (Contains raised (ExpectError tc));
          cbn [Fail TestStatus_Name Pass].
        -- cbn. split; [intros _; now left | reflexivity].
        -- rewrite eqb_app_nonempty. cbn [negb]. split.
           ++ intros E. now apply fail_line_is_no_pass_line in E.
           ++ intros [H|[H _]]; [discriminate | contradiction].
    + assert (Hnone : forall P : Prop,
                (P \/ (ExpectError tc = ""
                       /\ exists out', (out, @None string) = (out', Some "")))
                <-> P).
      { intros P. split; [|now left].
        intros [H|[_ [out' H]]]; [assumption | discriminate]. }
      rewrite Hnone.
      destruct out as [b| | |]; try destruct (Bool.eqb b (ExpectOutput tc));
        cbn [Fail TestStatus_Name Pass]; rewrite ?eqb_app_nonempty;
        cbn [negb String.eqb];
        (split; [intros E; first [reflexivity
                                 | now apply fail_line_is_no_pass_line in E]
                |intros E; first [reflexivity | discriminate]]).
Qed.

(** ** The command line: bracket notation to dot notation *)

(** A pattern of two bytes at the head of a string. *)
Lemma prefix_two (x y c : ascii) (s : string) :
  String.prefix (String x (String y EmptyString)) (String c s)
  = Ascii.eqb x c
    && match s with
       | String d _ => Ascii.eqb y d
       | EmptyString => false
       end.
Proof.
  cbn [String.prefix].
  destruct (ascii_dec x c) as [->|Hne].
  - rewrite Ascii.eqb_refl. cbn [andb]. destruct s as [|d s]; [reflexivity|].
    cbn [String.prefix].
    destruct (ascii_dec y d) as [->|Hne].
    + rewrite Ascii.eqb_refl. now destruct s.
    + apply Ascii.eqb_neq in Hne. now rewrite Hne.
  - apply Ascii.eqb_neq in Hne. now rewrite Hne.
Qed.

Lemma prefix_two_nil (x y : ascii) :
  String.prefix (String x (String y EmptyString)) EmptyString = false.
Proof. reflexivity. Qed.

Lemma replace_all_step (fuel : nat) (s old new : string) :
  replace_all (S fuel) s old new
  = if String.prefix old s
    then new ++ replace_all fuel (str_drop (String.length old) s) old new
    else
      match s with
      | EmptyString => EmptyString
      | String c s' => String c (replace_all fuel s' old new)
      end.
Proof. reflexivity. Qed.

(** More fuel than the length of the string changes nothing. *)
Lemma replace_all_fuel (x y : ascii) (new : string) (f1 : nat) :
  forall (f2 : nat) (s : string),
    (String.length s <= f1)%nat -> (String.length s <= f2)%nat ->
    replace_all f1 s (String x (String y EmptyString)) new
    = replace_all f2 s (String x (String y EmptyString)) new.
Proof.
  induction f1 as [|f1 IH]; intros f2 s H1 H2.
  - destruct s; [|cbn in H1; lia]. destruct f2; reflexivity.
  - destruct f2 as [|f2].
    { destruct s; [reflexivity | cbn in H2; lia]. }
    rewrite !replace_all_step. destruct s as [|c s]; [reflexivity|].
    destruct (String.prefix _ (String c s)).
    + f_equal. apply IH; rewrite str_drop_length;
        cbn [String.length] in *; lia.
    + f_equal. apply IH; cbn [String.length] in *; lia.
Qed.

Lemma ReplaceAll_nil (x y : ascii) (new : string) :
  ReplaceAll EmptyString (String x (String y EmptyString)) new = EmptyString.
Proof. reflexivity. Qed.

(** The scan at an occurrence of the pattern, and at any other byte. *)
Lemma ReplaceAll_match (x y : ascii) (new s : string) :
  ReplaceAll (String x (String y s)) (String x (String y EmptyString)) new
  = new ++ ReplaceAll s (String x (String y EmptyString)) new.
Proof.
  unfold ReplaceAll.
  change (String.length (String x (String y s)))
    with (S (S (String.length s))).
  rewrite replace_all_step, prefix_two, !Ascii.eqb_refl.
  cbn [andb str_drop String.length]. f_equal.
  apply replace_all_fuel; lia.
Qed.

Lemma ReplaceAll_skip (x y c : ascii) (new s : string) :
  String.prefix (String x (String y EmptyString)) (String c s) = false ->
  ReplaceAll (String c s) (String x (String y EmptyString)) new
  = String c (ReplaceAll s (String x (String y EmptyString)) new).
Proof.
  intros H. unfold ReplaceAll.
  change (String.length (String c s)) with (S (String.length s)).
  rewrite replace_all_step, H. reflexivity.
Qed.

(** Text without the first byte of the pattern is copied. *)
Lemma ReplaceAll_app_without (x y : ascii) (new a s : string) :
  Forall (fun c => c <> x) (list_ascii_of_string a) ->
  ReplaceAll (a ++ s) (String x (String y EmptyString)) new
  = a ++ ReplaceAll s (String x (String y EmptyString)) new.
Proof.
  induction a as [|c a IH]; intros Ha; [reflexivity|].
  cbn [list_ascii_of_string] in Ha. apply Forall_cons in Ha.
  destruct Ha as [Hc Ha]. rewrite str_app_cons.
  rewrite ReplaceAll_skip.
  - rewrite IH by assumption. reflexivity.
  - rewrite prefix_two. apply Ascii.eqb_neq in Hc.
    rewrite Ascii.eqb_sym, Hc. reflexivity.
Qed.

Lemma Contains_cons (c : ascii) (s p : string) :
  Contains (String c s) p = String.prefix p (String c s) || Contains s p.
Proof. reflexivity. Qed.

(** The first byte of what a replacement returns. *)
Lemma ReplaceAll_dot_head (n : nat) : forall (s : string) (c : ascii),
  (String.length s <= n)%nat ->
  String.get 0 (ReplaceAll s "['" ".") = Some c ->
  c = "."%char \/ String.get 0 s = Some c.
Proof.
  induction n as [|n IH]; intros s c Hn Hc.
  - destruct s; [discriminate | cbn in Hn; lia].
  - destruct s as [|d s]; [discriminate|].
    destruct (String.prefix "['" (String d s)) eqn:Hp.
    + rewrite prefix_two in Hp. apply andb_true_iff in Hp.
      destruct Hp as [Hd Hs]. apply Ascii.eqb_eq in Hd. subst d.
      destruct s as [|e s]; [discriminate|]. apply Ascii.eqb_eq in Hs. subst e.
      rewrite ReplaceAll_match, str_app_cons in Hc. left.
      cbn [String.get] in Hc. congruence.
    + rewrite ReplaceAll_skip in Hc by assumption. right. exact Hc.
Qed.

Lemma ReplaceAll_quote_head (n : nat) : forall s : string,
  (String.length s <= n)%nat ->
  String.get 0 (ReplaceAll s "']" "") = Some "'"%char ->
  String.get 0 s = Some "'"%char.
Proof.
  induction n as [|n IH]; intros s Hn Hc.
  - destruct s; [discriminate | cbn in Hn; lia].
  - destruct s as [|d s]; [discriminate|].
    destruct (String.prefix "']" (String d s)) eqn:Hp.
    + rewrite prefix_two in Hp. apply andb_true_iff in Hp.
      destruct Hp as [Hd _]. apply Ascii.eqb_eq in Hd. now subst d.
    + rewrite ReplaceAll_skip in Hc by assumption. exact Hc.
Qed.

(** After the first replacement no [['] is left. *)
Lemma ReplaceAll_dot_clean (n : nat) : forall s : string,
  (String.length s <= n)%nat ->
  Contains (ReplaceAll s "['" ".") "['" = false.
Proof.
  induction n as [|n IH]; intros s Hn.
  - destruct s; [reflexivity | cbn in Hn; lia].
  - destruct s as [|d s]; [reflexivity|].
    destruct (String.prefix "['" (String d s)) eqn:Hp.
    + rewrite prefix_two in Hp. apply andb_true_iff in Hp.
      destruct Hp as [Hd Hs]. apply Ascii.eqb_eq in Hd. subst d.
      destruct s as [|e s]; [discriminate|]. apply Ascii.eqb_eq in Hs. subst e.
      rewrite ReplaceAll_match.
      change ("." ++ ?t) with (String "." t).
      rewrite Contains_cons, prefix_two. cbn [Ascii.eqb Bool.eqb andb orb].
      apply IH. cbn [String.length] in Hn. lia.
    + rewrite ReplaceAll_skip by assumption.
      rewrite Contains_cons, IH by (cbn [String.length] in Hn; lia).
      rewrite orb_false_r, prefix_two.
      destruct (Ascii.eqb_spec "[" d) as [<-|]; [|reflexivity]. cbn [andb].
      destruct (ReplaceAll s "['" ".") as [|e t] eqn:Hr; [reflexivity|].
      destruct (Ascii.eqb_spec "'" e) as [<-|]; [|reflexivity].
      exfalso.
      destruct (ReplaceAll_dot_head n s "'") as [H|H];
        [cbn [String.length] in Hn; lia | now rewrite Hr | discriminate |].
      rewrite prefix_two in Hp. cbn [Ascii.eqb Bool.eqb andb] in Hp.
      destruct s as [|e' s']; [discriminate|]. cbn in H. injection H as ->.
      discriminate.
Qed.

(** The second replacement creates none. *)
Lemma ReplaceAll_quote_clean (n : nat) : forall s : string,
  (String.length s <= n)%nat ->
  Contains s "['" = false ->
  Contains (ReplaceAll s "']" "") "['" = false.
Proof.
  induction n as [|n IH]; intros s Hn Hs.
  - destruct s; [reflexivity | cbn in Hn; lia].
  - destruct s as [|d s]; [reflexivity|].
    rewrite Contains_cons in Hs. apply orb_false_iff in Hs.
    destruct Hs as [Hhead Htail].
    destruct (String.prefix "']" (String d s)) eqn:Hp.
    + rewrite prefix_two in Hp. apply andb_true_iff in Hp.
      destruct Hp as [Hd Hs]. apply Ascii.eqb_eq in Hd. subst d.
      destruct s as [|e s]; [discriminate|]. apply Ascii.eqb_eq in Hs. subst e.
      rewrite ReplaceAll_match. change ("" ++ ?t) with t.
      rewrite Contains_cons in Htail. apply orb_false_iff in Htail.
      apply IH; [cbn [String.length] in Hn; lia | tauto].
    + rewrite ReplaceAll_skip by assumption.
      rewrite Contains_cons, IH by (cbn [String.length] in Hn; lia || assumption).
      rewrite orb_false_r, prefix_two.
      destruct (Ascii.eqb_spec "[" d) as [<-|]; [|reflexivity]. cbn [andb].
      destruct (ReplaceAll s "']" "") as [|e t] eqn:Hr; [reflexivity|].
      destruct (Ascii.eqb_spec "'" e) as [<-|]; [|reflexivity].
      exfalso.
      pose proof (ReplaceAll_quote_head n s) as H.
      rewrite Hr in H. specialize (H ltac:(cbn [String.length] in Hn; lia) eq_refl).
      rewrite prefix_two in Hhead. cbn [Ascii.eqb Bool.eqb andb] in Hhead.
      destruct s as [|e' s']; [discriminate|]. cbn in H. injection H as ->.
      discriminate.
Qed.

(** What [newAST] hands to the compiler for an expression that mentions
    [request.params] never holds an opening bracket followed by a single
    quote. *)
Theorem dot_notation_leaves_no_bracket_quote (e : string) :
  Contains e "request.params" = true ->
  Contains (dot_notation e) "['" = false.
Proof.
  intros He. unfold dot_notation. rewrite He.
  apply (ReplaceAll_quote_clean _ _ (le_n _)).
  apply (ReplaceAll_dot_clean _ _ (le_n _)).
Qed.

Lemma dot_notation_leaves_no_bracket_quote_witness :
  Contains "request.params['a'] == 'b'" "request.params" = true
  /\ Contains (dot_notation "request.params['a'] == 'b'") "['" = false.
Proof.
  split; [reflexivity|].
  exact (dot_notation_leaves_no_bracket_quote "request.params['a'] == 'b'"
           eq_refl).
Defined.

Lemma plain_without (s : string) (x : ascii) :
  x = "["%char \/ x = "'"%char -> plain s ->
  Forall (fun c => c <> x) (list_ascii_of_string s).
Proof.
  intros Hx Hs. eapply Forall_impl; [exact Hs|].
  intros c [H1 H2]. destruct Hx; subst; assumption.
Qed.

Lemma bracket_to_dot_index (a key rest : string) :
  plain a -> plain key ->
  bracket_to_dot (a ++ "['" ++ key ++ "']" ++ rest)
  = a ++ "." ++ key ++ bracket_to_dot rest.
Proof.
  intros Ha Hkey. unfold bracket_to_dot.
  rewrite (ReplaceAll_app_without "[" "'" "." a)
    by (apply plain_without; auto).
  change ("['" ++ ?t) with (String "[" (String "'" t)).
  rewrite ReplaceAll_match.
  rewrite (ReplaceAll_app_without "[" "'" "." key)
    by (apply plain_without; auto).
  change ("']" ++ rest) with (String "'" (String "]" rest)).
  rewrite (ReplaceAll_skip "[" "'" "'") by reflexivity.
  rewrite (ReplaceAll_skip "[" "'" "]").
  2: { rewrite prefix_two. reflexivity. }
  rewrite (ReplaceAll_app_without "'" "]" "" a)
    by (apply plain_without; auto).
  change ("." ++ ?t) with (String "." t).
  rewrite (ReplaceAll_skip "'" "]" ".").
  2: { rewrite prefix_two. reflexivity. }
  rewrite (ReplaceAll_app_without "'" "]" "" key)
    by (apply plain_without; auto).
  rewrite ReplaceAll_match. reflexivity.
Qed.

(** In an expression that mentions [request.params], an index with a
    quoted key becomes a selection wherever it stands, on [request.params]
    or on any other map: with [a] and [key] free of brackets and quotes,
    [a['key']rest] is handed to the compiler as [a.key] followed by the
    rewriting of [rest]. *)
Theorem dot_notation_rewrites_every_index (a key rest : string) :
  plain a -> plain key ->
  Contains (a ++ "['" ++ key ++ "']" ++ rest) "request.params" = true ->
  dot_notation (a ++ "['" ++ key ++ "']" ++ rest)
  = a ++ "." ++ key ++ bracket_to_dot rest.
Proof.
  intros Ha Hkey Hp. unfold dot_notation. rewrite Hp.
  now apply bracket_to_dot_index.
Qed.

Lemma dot_notation_rewrites_every_index_witness :
  plain "request.headers" /\ plain "host"
  /\ dot_notation ("request.headers" ++ "['" ++ "host" ++ "']"
                   ++ " == request.params.a")
     = "request.headers.host == request.params.a".
Proof.
  assert (H1 : plain "request.headers")
    by (repeat constructor; discriminate).
  assert (H2 : plain "host") by (repeat constructor; discriminate).
  split; [exact H1|]. split; [exact H2|].
  exact (dot_notation_rewrites_every_index "request.headers" "host"
           " == request.params.a" H1 H2 eq_refl).
Defined.

(** ** The command line: files of expressions and suites of tests *)

Lemma stderr_of_app (a b : list event) :
  stderr_of (a ++ b) = (stderr_of a ++ stderr_of b)%list.
Proof. unfold stderr_of. apply flat_map_app. Qed.

Lemma verboseLog_writes (enabled : bool) (text : string) :
  exists out, verboseLog enabled text = Done out tt /\ stderr_of out = [].
Proof. destruct enabled; eexists; split; reflexivity. Qed.

Lemma all_present_map {A : Type} (l : list A) :
  all_present (map Some l) = Some l.
Proof.
  induction l as [|a l IH]; [reflexivity|].
  cbn [map all_present]. now rewrite IH.
Qed.

Section CommandLineProperties.

Variables Rules Ast CheckedExpr File : Type.
Variable NewRules : Z -> Rules + string.
Variable Compile : Rules -> string -> Ast + string.
Variable Rules_Program : Rules -> Ast -> Program + string.
Variable AstToCheckedExpr : Ast -> CheckedExpr + string.
Variable Format : CheckedExpr -> string.
Variable Marshal : CheckedExpr -> string.
Variable OpenFile : string -> File + string.
Variable ReadAll : File -> string + string.
Variable ReadFile : string -> string + string.
Variable TrimSpace : string -> string.
Variables Quote ToLower : string -> string.
Variable Unmarshal : string -> option TestSuite + string.
Variable visits : nat -> list string.

Lemma printAST_writes (ast : Ast) (pb : CheckedExpr) (outputFormat : string) :
  AstToCheckedExpr ast = inl pb ->
  exists out,
    printAST Ast CheckedExpr AstToCheckedExpr Format Marshal ast outputFormat
    = Done out tt
    /\ stderr_of out = [].
Proof.
  intros Hpb. unfold printAST. rewrite Hpb.
  destruct (String.eqb outputFormat "textproto");
    [|destruct (String.eqb outputFormat "binarypb")];
    eexists; split; reflexivity.
Qed.

(** The pieces the loop works on, by what is left of them once trimmed and
    the blank ones dropped. *)
Lemma processExprFile_loop_all (r : Rules) (outputFormat : string)
  (verbose : bool) (raw : list string) : forall index LineNumber : nat,
  Forall (compiles Rules Ast CheckedExpr Compile AstToCheckedExpr r)
         (List.filter (fun e => negb (String.eqb e "")) (map TrimSpace raw)) ->
  exists out,
    processExprFile_loop Rules Ast CheckedExpr Compile AstToCheckedExpr Format
      Marshal TrimSpace r outputFormat verbose index LineNumber raw
    = Done out None
    /\ stderr_of out = [].
Proof.
  induction raw as [|e raw IH]; intros index LineNumber Hall.
  - eexists. split; reflexivity.
  - cbn [processExprFile_loop]. cbn [map List.filter] in Hall.
    destruct (String.eqb (TrimSpace e) "") eqn:Hblank; cbn [negb] in Hall.
    + apply IH. exact Hall.
    + apply Forall_cons in Hall. destruct Hall as [(ast & pb & Hc & Hpb) Hall].
      destruct (verboseLog_writes verbose
                  ("Processing expr at index: " ++ fmt_d index ++ ", line: "
                   ++ fmt_d (LineNumber + Count e (ascii_of_nat 10))
                   ++ ", expr: " ++ TrimSpace e)) as (o1 & -> & H1).
      destruct (verboseLog_writes verbose
                  ("Successfully compiled expression: " ++ TrimSpace e))
        as (o2 & E2 & H2).
      destruct (printAST_writes ast pb outputFormat Hpb) as (o3 & E3 & H3).
      destruct (IH (S index) (LineNumber + Count e (ascii_of_nat 10))%nat Hall)
        as (o4 & E4 & H4).
      unfold newAST. rewrite Hc.
      cbn [mbind Run_bind mret Run_ret]. rewrite E2.
      cbn [mbind Run_bind]. rewrite E3. cbn [mbind Run_bind]. rewrite E4.
      eexists. split; [reflexivity|].
      rewrite !stderr_of_app, H1, H2, H3, H4. reflexivity.
Qed.

Lemma processExprFile_loop_stops (r : Rules) (outputFormat : string)
  (verbose : bool) (p err : string) (raw : list string) :
  forall (index LineNumber : nat) (pre post : list string),
    List.filter (fun e => negb (String.eqb e "")) (map TrimSpace raw)
      = (pre ++ p :: post)%list ->
    Forall (compiles Rules Ast CheckedExpr Compile AstToCheckedExpr r) pre ->
    Compile r (dot_notation p) = inr err ->
    exists out,
      processExprFile_loop Rules Ast CheckedExpr Compile AstToCheckedExpr Format
        Marshal TrimSpace r outputFormat verbose index LineNumber raw
      = Done out (Some ("failed to compile expression: " ++ p))
      /\ stderr_of out = ["failed to compile expression: " ++ err ++ newline].
Proof.
  induction raw as [|e raw IH]; intros index LineNumber pre post Hraw Hpre Hp.
  - destruct pre; discriminate.
  - cbn [processExprFile_loop]. cbn [map List.filter] in Hraw.
    destruct (String.eqb (TrimSpace e) "") eqn:Hblank; cbn [negb] in Hraw.
    + now apply (IH _ _ pre post).
    + destruct (verboseLog_writes verbose
                  ("Processing expr at index: " ++ fmt_d index ++ ", line: "
                   ++ fmt_d (LineNumber + Count e (ascii_of_nat 10))
                   ++ ", expr: " ++ TrimSpace e)) as (o1 & -> & H1).
      destruct pre as [|q pre]; cbn [app] in Hraw; injection Hraw as Hq Hraw.
      * (* the first expression that does not compile *)
        rewrite Hq. unfold newAST. rewrite Hp.
        cbn [mbind Run_bind mret Run_ret Fprintf_Stderr].
        eexists. split; [reflexivity|].
        rewrite !stderr_of_app, H1. reflexivity.
      * apply Forall_cons in Hpre.
        destruct Hpre as [(ast & pb & Hc & Hpb) Hpre]. subst q.
        destruct (verboseLog_writes verbose
                    ("Successfully compiled expression: " ++ TrimSpace e))
          as (o2 & E2 & H2).
        destruct (printAST_writes ast pb outputFormat Hpb) as (o3 & E3 & H3).
        destruct (IH (S index) (LineNumber + Count e (ascii_of_nat 10))%nat
                    pre post Hraw Hpre Hp) as (o4 & E4 & H4).
        unfold newAST. rewrite Hc.
        cbn [mbind Run_bind mret Run_ret]. rewrite E2.
        cbn [mbind Run_bind]. rewrite E3. cbn [mbind Run_bind]. rewrite E4.
        eexists. split; [reflexivity|].
        rewrite !stderr_of_app, H1, H2, H3, H4. reflexivity.
Qed.

(** On a file it can read, [processExprFile] hands the expressions of the
    file to the compiler in order and stops at the first one that does not
    compile: it returns the error that names that expression, and the only
    text on the standard error is the compiler's message for it, so no
    later expression has been tried; when every expression compiles it
    returns no error and writes nothing to the standard error. *)
Theorem processExprFile_stops_at_first_failure (r : Rules)
  (filename outputFormat : string) (verbose : bool) (f : File)
  (content : string) :
  OpenFile filename = inl f -> ReadAll f = inl content ->
  (Forall (compiles Rules Ast CheckedExpr Compile AstToCheckedExpr r)
          (expressions_of TrimSpace content) ->
   exists out,
     processExprFile Rules Ast CheckedExpr File Compile AstToCheckedExpr Format
       Marshal OpenFile ReadAll TrimSpace r filename outputFormat verbose
     = Done out None
     /\ stderr_of out = [])
  /\ (forall pre p post err,
        expressions_of TrimSpace content = (pre ++ p :: post)%list ->
        Forall (compiles Rules Ast CheckedExpr Compile AstToCheckedExpr r) pre ->
        Compile r (dot_notation p) = inr err ->
        exists out,
          processExprFile Rules Ast CheckedExpr File Compile AstToCheckedExpr
            Format Marshal OpenFile ReadAll TrimSpace r filename outputFormat
            verbose
          = Done out (Some ("failed to compile expression: " ++ p))
          /\ stderr_of out
             = ["failed to compile expression: " ++ err ++ newline]).
Proof.
  intros Hopen Hread. unfold processExprFile. rewrite Hopen, Hread.
  destruct (verboseLog_writes verbose ("Reading file: " ++ filename))
    as (o0 & -> & H0).
  split.
  - intros Hall.
    destruct (processExprFile_loop_all r outputFormat verbose
                (Split content ";") 0 1 Hall) as (out & E & Hout).
    cbn [mbind Run_bind]. rewrite E. eexists. split; [reflexivity|].
    now rewrite stderr_of_app, H0, Hout.
  - intros pre p post err Hsplit Hpre Hp.
    destruct (processExprFile_loop_stops r outputFormat verbose p err
                (Split content ";") 0 1 pre post Hsplit Hpre Hp)
      as (out & E & Hout).
    cbn [mbind Run_bind]. rewrite E. eexists. split; [reflexivity|].
    now rewrite stderr_of_app, H0, Hout.
Qed.

(** In the test mode, once the suite is read and loaded and its expression
    compiled into a program, the process writes one line per test case to
    the standard error and ends with status 0: a failing case changes the
    text of its line, never the exit status. *)
Theorem main_test_mode_ends_normally (opts : options) (r : Rules)
  (tsData : string) (ts : TestSuite) (ast : Ast) (prg : Program) :
  expr opts = "" -> file opts = "" -> test opts <> "" ->
  NewRules (if String.eqb (version opts) "VNext" then VNext else VCurrent)
    = inl r ->
  ReadFile (test opts) = inl tsData ->
  TestSuiteFromYAML Quote ToLower Unmarshal visits tsData
    = Return (Some ts, None) ->
  Compile r (dot_notation (Expr ts)) = inl ast ->
  Rules_Program r ast = inl prg ->
  exists testCases,
    Tests ts = map Some testCases
    /\ main Rules Ast CheckedExpr File NewRules Compile Rules_Program
         AstToCheckedExpr Format Marshal OpenFile ReadAll ReadFile TrimSpace
         Quote ToLower Unmarshal visits opts []
       = Done (map (fun tc => Stderr (report_line (TestSuite_Name ts)
                                        (verdict Quote prg tc)))
                   testCases) tt.
Proof.
  intros Hexpr Hfile Htest Hrules Hread Hsuite Hcompile Hprg.
  destruct (TestSuiteFromYAML_loaded Quote ToLower Unmarshal visits tsData
              ts Hsuite) as (ts0 & cases & _ & _ & _ & Hloaded).
  exists (imap (fun i => SafeTestCase ToLower (visits i)) cases).
  split; [now rewrite Hloaded|].
  unfold main, validate, newRules. rewrite Hexpr, Hfile.
  apply String.eqb_neq in Htest. rewrite Htest.
  cbn [String.eqb andb negb]. rewrite Hrules.
  cbn [mbind Run_bind mret Run_ret]. rewrite Hread, Hsuite.
  unfold newAST, newProgram. rewrite Hcompile.
  cbn [mbind Run_bind mret Run_ret]. rewrite Hprg.
  cbn [mbind Run_bind mret Run_ret].
  rewrite Hloaded at 1. cbn [Tests]. rewrite all_present_map.
  rewrite report_of_verdicts. reflexivity.
Qed.

End CommandLineProperties.

(** The file [exprs_file] holds three expressions; the second does not
    compile. *)
Lemma processExprFile_stops_at_first_failure_witness :
  OpenFile_example "rules.cel" = inl exprs_file
  /\ ReadAll_example exprs_file = inl exprs_file
  /\ exists out,
       processExprFile unit string string string Compile_example
         AstToCheckedExpr_example Format_example Format_example
         OpenFile_example ReadAll_example TrimSpace_ascii
         tt "rules.cel" "textproto" false
       = Done out (Some "failed to compile expression: origin.ip == '::1'")
       /\ stderr_of out
          = ["failed to compile expression: undeclared reference in origin.ip == '::1'"
             ++ newline].
Proof.
  split; [reflexivity|]. split; [reflexivity|].
  destruct (processExprFile_stops_at_first_failure unit string string string
              Compile_example AstToCheckedExpr_example Format_example
              Format_example OpenFile_example ReadAll_example TrimSpace_ascii
              tt "rules.cel" "textproto" false exprs_file exprs_file
              eq_refl eq_refl) as [_ Hstop].
  apply (Hstop ["request.path == '/a'"] "origin.ip == '::1'"
               ["request.method == 'GET'"]
               "undeclared reference in origin.ip == '::1'").
  - reflexivity.
  - constructor; [|constructor]. eexists _, _. split; reflexivity.
  - reflexivity.
Defined.

(** The suite [http_tests] in the test mode. *)
Lemma main_test_mode_ends_normally_witness :
  test test_mode_options <> ""
  /\ TestSuiteFromYAML Quote_ascii ToLower_latin1 Unmarshal_http_tests
       (fun _ => []) ""
     = Return (Some {| TestSuite_Name := "http-tests";
                       Expr := "request.method == 'GET'";
                       Tests := [Some (SafeTestCase ToLower_latin1 []
                                         http_case)] |}, None)
  /\ main unit string string string NewRules_example Compile_example
       Program_example AstToCheckedExpr_example Format_example Format_example
       OpenFile_example ReadAll_example ReadFile_example TrimSpace_ascii
       Quote_ascii ToLower_latin1 Unmarshal_http_tests (fun _ => [])
       test_mode_options []
     = Done [Stderr ("PASS http-tests/request-method-matches" ++ newline)] tt.
Proof.
  split; [discriminate|]. split; [reflexivity|].
  destruct (main_test_mode_ends_normally unit string string string
              NewRules_example Compile_example Program_example
              AstToCheckedExpr_example Format_example Format_example
              OpenFile_example ReadAll_example ReadFile_example
              TrimSpace_ascii Quote_ascii ToLower_latin1 Unmarshal_http_tests
              (fun _ => []) test_mode_options
              tt "" _ "request.method == 'GET'"
              (fun _ => (types_Bool true, None))
              eq_refl eq_refl ltac:(discriminate) eq_refl eq_refl eq_refl
              eq_refl eq_refl) as (testCases & E & Hmain).
  rewrite Hmain. cbn [Tests] in E.
  destruct testCases as [|tc [|tc' testCases]]; try discriminate.
  injection E as <-. reflexivity.
Defined.

(** [SafeVariables] changes no attribute that could be resolved before,
    the header map apart, and gives every attribute whose resolution
    dereferenced nil the zero value of its type. *)
Theorem SafeVariables_keeps_resolved (ToLower : string -> string)
  (visit : list string) (v : Variables) (name : string) :
  name <> "request.headers" ->
  match ResolveName v name with
  | Return res => ResolveName (SafeVariables ToLower visit v) name = Return res
  | Panic =>
      exists zero, zero_value zero
        /\ ResolveName (SafeVariables ToLower visit v) name = Return (zero, true)
  end.
Proof.
  intros Hname. unfold ResolveName, zero_value.
  destruct (String.eqb_spec name "request.headers") as [|_]; [contradiction|].
  destruct v as [[req|] [orig|] [[[ex|] [act|] [ses|]]|]];
    repeat match goal with
           | |- context [if ?c then _ else _] => destruct c
           end; cbn; try reflexivity; eexists; (split; [|reflexivity]); tauto.
Qed.

Lemma SafeVariables_keeps_resolved_witness :
  "origin.asn" <> "request.headers"
  /\ ResolveName Variables_zero "origin.asn" = Panic
  /\ exists zero, zero_value zero
       /\ ResolveName (SafeVariables ToLower_latin1 [] Variables_zero)
            "origin.asn" = Return (zero, true).
Proof.
  split; [discriminate|]. split; [reflexivity|].
  exact (SafeVariables_keeps_resolved ToLower_latin1 [] Variables_zero
           "origin.asn" ltac:(discriminate)).
Defined.
